(** * tubefetch: the ingestion engine, embedded and verified

    A shallow embedding of the ingestion core of the repository:
    - [models.py]            the three tables ([Video], [APIKeyUsage], [SearchCache]);
    - [cache_service.py]     the Redis-backed cache ([CacheService]);
    - [youtube_service.py]   the quota-tracking, multi-key client ([YouTubeService]);
    - [background_fetcher.py] the polling scheduler ([BackgroundVideoFetcher]).

    Conventions.
    - A [datetime] is a [Z]: microseconds since the epoch (naive, as in the
      code); [timedelta(hours=h)] is [h * 3_600_000_000]; [.date()] is the
      day number [t / 86_400_000_000].
    - Python exceptions are values of [exn]; a computation that can raise
      returns [exn + A].
    - JSON payloads are modelled after parsing: a field that can be absent is
      an [option], a field whose text may not parse is a [parsed].
    - Stateful code threads a [State] through a small state-and-exception
      monad [M]. The state holds the service object, the database (committed
      tables and the session's working copy), the cache server and a trace of
      the remote calls and commits.
    - What the repository does not define is a parameter: the hash functions,
      the client factory and the answers of the remote API ([World]), the
      clock readings ([clock]), and what the worker reads in [self.running].

    Limits of the model. Database statements, commits and logging do not
    raise; one call of [fetch_videos] reads each clock once; the remote
    payloads have no JSON null where the code expects text; the calls on one
    scheduler are taken one at a time. *)

From Stdlib Require Import ZArith String Ascii List Bool Lia.
From stdpp Require Import base option list gmap strings pretty sorting.
Import ListNotations.

Local Open Scope string_scope.
Local Open Scope list_scope.
Local Open Scope Z_scope.

(* ===================================================================== *)
(** * Python built-ins used by the code                                  *)
(* ===================================================================== *)

Module Py.

(** [needle in hay] on [str]. *)
Fixpoint str_in (needle hay : string) : bool :=
  String.prefix needle hay ||
  match hay with
  | EmptyString => false
  | String _ rest => str_in needle rest
  end.

Definition lower_ascii (c : ascii) : ascii :=
  let n := nat_of_ascii c in
  if (Nat.leb 65 n && Nat.leb n 90)%bool then ascii_of_nat (n + 32) else c.

(** [s.lower()], on the ASCII letters (bytes above 127 are left alone;
    none of them lowers to a letter of the words matched by the code). *)
Fixpoint lower (s : string) : string :=
  match s with
  | EmptyString => EmptyString
  | String c rest => String (lower_ascii c) (lower rest)
  end.

(** Exceptions, with what [str(e)] gives. *)
Inductive exn : Type :=
| HttpError (status : Z) (text : string)  (* googleapiclient.errors.HttpError; [text] is [str(e)] *)
| Exception (msg : string)                (* [Exception(msg)] *)
| KeyError (key : string)
| ValueError (msg : string)
| OtherError (cls msg : string).          (* any other subclass of [Exception] *)

Definition exn_str (e : exn) : string :=
  match e with
  | HttpError _ text => text
  | Exception msg => msg
  | KeyError key => "'" +:+ key +:+ "'"
  | ValueError msg => msg
  | OtherError _ msg => msg
  end.

(** A JSON text field after parsing ([datetime.fromisoformat], [int]). *)
Inductive parsed (A : Type) : Type :=
| Parsed (a : A)
| Unparsable.
Arguments Parsed {A} a.
Arguments Unparsable {A}.

(** Truthiness of an optional string ([None] and [''] are falsy). *)
Definition truthy_str (o : option string) : bool :=
  match o with
  | Some s => negb (String.eqb s "")
  | None => false
  end.

Definition usec_per_hour : Z := 3600000000.
Definition usec_per_day : Z := 86400000000.

Definition timedelta_hours (h : Z) : Z := h * usec_per_hour.
Definition timedelta_days (d : Z) : Z := d * usec_per_day.

(** [t.date()] as a day number. *)
Definition date (t : Z) : Z := t / usec_per_day.

(** The two clocks the code reads: [datetime.utcnow()] and [datetime.now()]. *)
Record clock : Type := { utcnow : Z; localnow : Z }.

Definition timedelta_minutes (m : Z) : Z := m * 60000000.

(** [a <= b] on [str]: lexicographic on the characters (on UTF-8 bytes,
    which orders as the code points do). *)
Definition str_le (a b : string) : Prop := String.leb a b = true.

#[global] Instance str_le_dec (a b : string) : Decision (str_le a b).
Proof. unfold str_le. apply _. Defined.

(** [sorted(l)] on a list of [str]. The order is total and antisymmetric,
    so the ascending arrangement of a list is unique and any sorting
    algorithm computes what Python's does. *)
Definition sorted_str (l : list string) : list string := merge_sort str_le l.

(** [a <= b] on tuples [(k, v)] of [str]: by [k], and by [v] for equal [k]. *)
Definition item_le (a b : string * string) : Prop :=
  if String.eqb (fst a) (fst b) then str_le (snd a) (snd b) else str_le (fst a) (fst b).

#[global] Instance item_le_dec (a b : string * string) : Decision (item_le a b).
Proof. unfold item_le. destruct (String.eqb (fst a) (fst b)); apply _. Defined.

(** [sorted(kwargs.items())], the values being what the f-string renders. *)
Definition sorted_items (l : list (string * string)) : list (string * string) :=
  merge_sort item_le l.

(** [sep.join(l)] *)
Fixpoint join (sep : string) (l : list string) : string :=
  match l with
  | [] => ""
  | [x] => x
  | x :: rest => x +:+ sep +:+ join sep rest
  end.

End Py.
Import Py.

(* ===================================================================== *)
(** * models.py                                                           *)
(* ===================================================================== *)

Module Models.

(** [class Video(db.Model)]. [duration] and [view_count] are nullable and
    have no default. *)
Record Video : Type := {
  id : nat;
  video_id : string;
  title : string;
  description : string;
  published_at : Z;
  thumbnail_default : string;
  thumbnail_medium : string;
  thumbnail_high : string;
  channel_id : string;
  channel_title : string;
  duration : option string;
  view_count : option Z;
  created_at : Z;
  updated_at : Z
}.

(** [class APIKeyUsage(db.Model)]. A freshly constructed object has no
    [last_reset] until the row is flushed. The bookkeeping columns
    [created_at]/[updated_at] of this table are never read and are left out. *)
Record APIKeyUsage : Type := {
  u_id : nat;
  api_key_hash : string;
  quota_used : Z;
  last_reset : option Z;
  is_exhausted : bool
}.

(** [class SearchCache(db.Model)], the per-query fetch state. *)
Record SearchCache : Type := {
  c_id : nat;
  query : string;
  last_fetched : Z;
  total_results : Z;
  next_page_token : option string
}.

Record Tables : Type := {
  videos : list Video;
  api_key_usage : list APIKeyUsage;
  search_cache : list SearchCache
}.

(** The database as the session sees it: the committed tables and the
    session's working copy; [db.session.commit()] publishes the copy. *)
Record DB : Type := {
  committed : Tables;
  session : Tables
}.

Definition commit (d : DB) : DB :=
  {| committed := session d; session := session d |}.

Definition with_session (f : Tables -> Tables) (d : DB) : DB :=
  {| committed := committed d; session := f (session d) |}.

Definition set_videos (vs : list Video) (t : Tables) : Tables :=
  {| videos := vs; api_key_usage := api_key_usage t; search_cache := search_cache t |}.

Definition set_api_key_usage (us : list APIKeyUsage) (t : Tables) : Tables :=
  {| videos := videos t; api_key_usage := us; search_cache := search_cache t |}.

Definition set_search_cache (cs : list SearchCache) (t : Tables) : Tables :=
  {| videos := videos t; api_key_usage := api_key_usage t; search_cache := cs |}.

(** [<Model>.query.filter_by(col=v).first()]: position and row of the first match. *)
Fixpoint first_index {A : Type} (p : A -> bool) (l : list A) : option (nat * A) :=
  match l with
  | [] => None
  | x :: rest =>
      if p x then Some (0%nat, x)
      else match first_index p rest with
           | Some (i, y) => Some (S i, y)
           | None => None
           end
  end.

End Models.
Import Models.

(* ===================================================================== *)
(** * The normalized item and the cached payloads                         *)
(* ===================================================================== *)

(** The [video_data] dict built by [fetch_videos]: nine keys always, and
    [duration]/[view_count] only after [video.update(details_map[...])]. *)
Record video_data : Type := {
  vd_video_id : string;
  vd_title : string;
  vd_description : string;
  vd_published_at : Z;
  vd_thumbnail_default : string;
  vd_thumbnail_medium : string;
  vd_thumbnail_high : string;
  vd_channel_id : string;
  vd_channel_title : string;
  vd_details : option (string * Z)      (* [(duration, view_count)] when merged *)
}.

(* ===================================================================== *)
(** * cache_service.py                                                    *)
(* ===================================================================== *)

Module CacheService.

(** The [results] object of a cached search: a JSON object that may have
    an ['items'] key and may have other keys. *)
Record results_dict : Type := {
  rd_items : option (list video_data);
  rd_other_keys : list string
}.

(** [bool(results)]: a dict is truthy iff it has a key. *)
Definition dict_truthy (r : results_dict) : bool :=
  match rd_items r, rd_other_keys r with
  | None, [] => false
  | _, _ => true
  end.

(** What [json.loads] of a stored value yields. [Malformed] is any value
    on which decoding or the field accesses of the reader raise. *)
Inductive cache_value : Type :=
| SkipMarker (last_attempt : Z) (new_videos : Z)
| SearchEntry (cached_at : Z) (results : results_dict)
| QuotaEntry (calls_today : Z) (quota_exhausted : bool)
| Malformed.

Record redis_entry : Type := {
  value : cache_value;
  expires_at : Z                      (* set by [setex] *)
}.

(** The Redis server: its keys, and whether commands reach it. *)
Record redis : Type := {
  store : gmap string redis_entry;
  reachable : bool
}.

(** [self.redis_client.get(key)] at time [now]. *)
Definition redis_get (r : redis) (now : Z) (key : string) : exn + option cache_value :=
  if reachable r then
    inr (match store r !! key with
         | Some e => if now <? expires_at e then Some (value e) else None
         | None => None
         end)
  else inl (OtherError "ConnectionError" "Error connecting to Redis").

(** [self.redis_client.setex(key, ttl, value)] at time [now]. *)
Definition redis_setex (r : redis) (now : Z) (key : string) (ttl : Z) (v : cache_value)
  : exn + redis :=
  if reachable r then
    inr {| store := <[key := {| value := v; expires_at := now + ttl |}]> (store r);
           reachable := true |}
  else inl (OtherError "ConnectionError" "Error connecting to Redis").

Section Keys.
(** [hashlib.md5(s.encode()).hexdigest()] and [str(d)] of a date. *)
Variable md5_hex : string -> string.
Variable date_str : Z -> string.

(** [_get_cache_key(prefix, query)] without extra parameters. *)
Definition _get_cache_key (prefix query : string) : string :=
  prefix +:+ ":" +:+ String.substring 0 8 (md5_hex (query +:+ ":")).

Definition skip_key (query : string) : string := "skip:" +:+ query.

Definition quota_key (api_key_index : nat) (now : Z) : string :=
  "quota:" +:+ pretty api_key_index +:+ ":" +:+ date_str (date now).

(** [get_cached_search_results(query)]; [cache] is [self.redis_client]. *)
Definition get_cached_search_results (cache : option redis) (now : Z) (query : string)
  : option results_dict :=
  match cache with
  | None => None
  | Some r =>
      match redis_get r now (_get_cache_key "search" query) with
      | inl _ => None
      | inr None => None
      | inr (Some (SearchEntry cached_at results)) =>
          if now - cached_at <? timedelta_hours 2 then Some results else None
      | inr (Some _) => None
      end
  end.

(** [cache_search_results(query, results, expiry_hours)]. *)
Definition cache_search_results (cache : option redis) (now : Z) (query : string)
    (results : results_dict) (expiry_hours : Z) : option redis :=
  match cache with
  | None => None
  | Some r =>
      match redis_setex r now (_get_cache_key "search" query)
              (timedelta_hours expiry_hours) (SearchEntry now results) with
      | inl _ => Some r
      | inr r' => Some r'
      end
  end.

(** [should_skip_query(query, hours_threshold)]. *)
Definition should_skip_query (cache : option redis) (now : Z) (query : string)
    (hours_threshold : Z) : bool :=
  match cache with
  | None => false
  | Some r =>
      match redis_get r now (skip_key query) with
      | inl _ => false
      | inr None => false
      | inr (Some (SkipMarker last_attempt new_videos)) =>
          (now - last_attempt <? timedelta_hours hours_threshold) && (new_videos =? 0)
      | inr (Some _) => false
      end
  end.

(** [mark_query_processed(query, new_videos_count)]. *)
Definition mark_query_processed (cache : option redis) (now : Z) (query : string)
    (new_videos_count : Z) : option redis :=
  match cache with
  | None => None
  | Some r =>
      match redis_setex r now (skip_key query) (timedelta_hours 6)
              (SkipMarker now new_videos_count) with
      | inl _ => Some r
      | inr r' => Some r'
      end
  end.

(** [get_quota_usage(api_key_index).get('quota_exhausted', False)]. *)
Definition quota_exhausted_in_cache (cache : option redis) (now : Z) (api_key_index : nat)
  : bool :=
  match cache with
  | None => false
  | Some r =>
      match redis_get r now (quota_key api_key_index now) with
      | inr (Some (QuotaEntry _ exhausted)) => exhausted
      | _ => false
      end
  end.
(** [_get_cache_key(prefix, query, **kwargs)]; [kwargs] in call order. *)
Definition _get_cache_key_kw (prefix query : string) (kwargs : list (string * string))
  : string :=
  let key_data :=
    query +:+ ":" +:+
    join ":" (map (fun kv => fst kv +:+ "=" +:+ snd kv) (sorted_items kwargs)) in
  prefix +:+ ":" +:+ String.substring 0 8 (md5_hex key_data).

(** The key of [cache_video_details] and [get_cached_video_details]. *)
Definition video_details_key (video_ids : list string) : string :=
  _get_cache_key "videos" (join "," (sorted_str video_ids)).

Definition default_quota : cache_value := QuotaEntry 0 false.

(** [get_quota_usage(api_key_index)]: the decoded object under the key of
    the day, or the default when there is none, when the text does not
    decode ([Malformed]) or when the backend fails. *)
Definition get_quota_usage (cache : option redis) (now : Z) (api_key_index : nat)
  : cache_value :=
  match cache with
  | None => default_quota
  | Some r =>
      match redis_get r now (quota_key api_key_index now) with
      | inr (Some Malformed) => default_quota
      | inr (Some v) => v
      | _ => default_quota
      end
  end.

(** [int((utcnow.replace(hour=23, minute=59, second=59) - utcnow).total_seconds())] *)
Definition seconds_until_midnight (now : Z) : Z :=
  86399 - (now mod usec_per_day) / 1000000.

(** [update_quota_usage(api_key_index, calls_made, quota_exhausted)]. An
    object without ['calls_today'] raises, and so does [setex] with an expiry
    of 0 seconds; both are caught and nothing is written. *)
Definition update_quota_usage (cache : option redis) (now : Z) (api_key_index : nat)
    (calls_made : Z) (exhausted : bool) : option redis :=
  match cache with
  | None => None
  | Some r =>
      match get_quota_usage (Some r) now api_key_index with
      | QuotaEntry calls _ =>
          if 0 <? seconds_until_midnight now then
            match redis_setex r now (quota_key api_key_index now)
                    (seconds_until_midnight now * 1000000)
                    (QuotaEntry (calls + calls_made) exhausted) with
            | inl _ => Some r
            | inr r' => Some r'
            end
          else Some r
      | _ => Some r
      end
  end.

(** How Redis matches a key against the pattern of [KEYS]. *)
Variable glob_match : string -> string -> bool.

End Keys.

End CacheService.
Import CacheService.

(* ===================================================================== *)
(** * youtube_service.py                                                  *)
(* ===================================================================== *)

Module YouTubeService.

(** ** Payloads of the remote API *)

(** [search_result['snippet']]; the nested [thumbnails.<size>.url] lookups
    are flattened to one optional field each. *)
Record snippet : Type := {
  sn_title : option string;
  sn_description : option string;
  sn_publishedAt : option (parsed Z);
  sn_thumbnail_default : option string;
  sn_thumbnail_medium : option string;
  sn_thumbnail_high : option string;
  sn_channelId : option string;
  sn_channelTitle : option string
}.

Record search_result : Type := {
  sr_id : option (option string);     (* ['id'], then ['videoId'] *)
  sr_snippet : option snippet
}.

Record search_response : Type := {
  resp_items : option (list search_result);
  resp_nextPageToken : option string;
  resp_totalResults : option Z        (* ['pageInfo']['totalResults'] *)
}.

Record video_detail : Type := {
  d_id : option string;
  d_duration : option string;         (* ['contentDetails']['duration'] *)
  d_viewCount : option (parsed Z)     (* ['statistics']['viewCount'] *)
}.

Record details_response : Type := {
  det_items : option (list video_detail)
}.

Record search_request : Type := {
  q : string;
  publishedAfter : Z;
  maxResults : Z;
  pageToken : option string
}.

(** What the outside can observe of a fetch: the remote calls with the
    developer key they were made with, and every commit with the tables it
    published. *)
Inductive event : Type :=
| EvSearch (developerKey : string) (req : search_request)
| EvVideosList (developerKey : string) (ids : list string)
| EvCommit (snapshot : Tables).

Definition is_remote (e : event) : bool :=
  match e with
  | EvSearch _ _ | EvVideosList _ _ => true
  | EvCommit _ => false
  end.

Definition is_search (e : event) : bool :=
  match e with EvSearch _ _ => true | _ => false end.

Definition is_videos_list (e : event) : bool :=
  match e with EvVideosList _ _ => true | _ => false end.

Definition is_commit (e : event) : bool :=
  match e with EvCommit _ => true | _ => false end.

(** The collaborators the code calls and this repository does not define:
    the two hash functions, date formatting, the client factory and the
    remote API. The remote answers may depend on the number of remote
    calls issued before, on the developer key of the client, and on the
    request. *)
Record World : Type := {
  sha256_hex : string -> string;
  md5_hex : string -> string;
  date_str : Z -> string;
  build_ok : string -> bool;
  search_list : nat -> string -> search_request -> exn + search_response;
  videos_list : nat -> string -> list string -> exn + details_response
}.

(** The service object together with the shared stores it reaches through
    the module-level [db] and [cache_service]. *)
Record State : Type := {
  api_keys : list string;
  current_key_index : nat;
  youtube : option string;            (* developer key of the built client *)
  db : DB;
  cache : option redis;               (* [cache_service.redis_client] *)
  trace : list event                  (* oldest first *)
}.

Definition set_current_key_index (i : nat) (s : State) : State :=
  {| api_keys := api_keys s; current_key_index := i; youtube := youtube s;
     db := db s; cache := cache s; trace := trace s |}.

Definition set_youtube (y : option string) (s : State) : State :=
  {| api_keys := api_keys s; current_key_index := current_key_index s; youtube := y;
     db := db s; cache := cache s; trace := trace s |}.

Definition set_db (d : DB) (s : State) : State :=
  {| api_keys := api_keys s; current_key_index := current_key_index s;
     youtube := youtube s; db := d; cache := cache s; trace := trace s |}.

Definition emit (e : event) (s : State) : State :=
  {| api_keys := api_keys s; current_key_index := current_key_index s;
     youtube := youtube s; db := db s; cache := cache s; trace := trace s ++ [e] |}.

(** ** The state-and-exception monad *)

Definition M (A : Type) : Type := State -> (exn + A) * State.

Definition ret {A : Type} (a : A) : M A := fun s => (inr a, s).

Definition raise {A : Type} (e : exn) : M A := fun s => (inl e, s).

Definition bind {A B : Type} (m : M A) (k : A -> M B) : M B :=
  fun s =>
    match m s with
    | (inr a, s1) => k a s1
    | (inl e, s1) => (inl e, s1)
    end.

Definition get : M State := fun s => (inr s, s).

Definition modify (f : State -> State) : M unit := fun s => (inr tt, f s).

Definition lift {A : Type} (r : exn + A) : M A := fun s => (r, s).

Notation "'let*' x ':=' m 'in' k" := (bind m (fun x => k))
  (at level 10, x name, m at level 100, k at level 200, only parsing).

(** [db.session.commit()] *)
Definition db_commit : M unit := fun s =>
  let d := commit (db s) in
  (inr tt, emit (EvCommit (committed d)) (set_db d s)).

(** Next value of an autoincrement primary key. *)
Definition next_id (ids : list nat) : nat := S (list_max ids).

Section WithWorld.
Variable w : World.

(** ** __init__ and the credential pool *)

(** [_initialize_youtube_client]: a failing [build] is logged and leaves
    the previous client in place. *)
Definition _initialize_youtube_client (s : State) : State :=
  match api_keys s !! current_key_index s with
  | Some api_key => if build_ok w api_key then set_youtube (Some api_key) s else s
  | None => s
  end.

(** [__init__]: the three environment variables, empty when unset. *)
Definition init (key_1 key_2 key_3 : string) (d : DB) (c : option redis) : State :=
  _initialize_youtube_client
    {| api_keys := List.filter (fun k => negb (String.eqb k "")) [key_1; key_2; key_3];
       current_key_index := 0; youtube := None; db := d; cache := c; trace := [] |}.

(** [_switch_api_key] *)
Definition _switch_api_key (s : State) : bool * State :=
  let s1 := set_current_key_index (S (current_key_index s)) s in
  if (current_key_index s1 <? length (api_keys s1))%nat
  then (true, _initialize_youtube_client s1)
  else (false, s1).

(** ** _track_api_usage *)

Definition needs_reset (now : Z) (usage : APIKeyUsage) : bool :=
  match last_reset usage with
  | None => true
  | Some t => date t <? date now
  end.

(** Lines 67-77 on the row object: daily reset, charge, threshold. *)
Definition touch_usage (now : Z) (quota_cost : Z) (usage : APIKeyUsage) : APIKeyUsage :=
  let usage1 :=
    if needs_reset now usage
    then {| u_id := u_id usage; api_key_hash := api_key_hash usage;
            quota_used := 0; last_reset := Some now; is_exhausted := false |}
    else usage in
  let used := quota_used usage1 + quota_cost in
  {| u_id := u_id usage1; api_key_hash := api_key_hash usage1;
     quota_used := used; last_reset := last_reset usage1;
     is_exhausted := if 9500 <=? used then true else is_exhausted usage1 |}.

Definition has_hash (h : string) (u : APIKeyUsage) : bool :=
  String.eqb (api_key_hash u) h.

(** Lines 58-77 on the table: look the row up by key hash, add it when absent. *)
Definition track_in_table (now : Z) (quota_cost : Z) (api_key : string)
    (tbl : list APIKeyUsage) : list APIKeyUsage :=
  let h := sha256_hex w api_key in
  match first_index (has_hash h) tbl with
  | Some (i, usage) => <[i := touch_usage now quota_cost usage]> tbl
  | None =>
      tbl ++ [touch_usage now quota_cost
                {| u_id := next_id (map u_id tbl); api_key_hash := h;
                   quota_used := 0; last_reset := None; is_exhausted := false |}]
  end.

Definition _track_api_usage (clk : clock) (quota_cost : Z) : M unit := fun s =>
  match api_keys s !! current_key_index s with
  | None => (inr tt, s)
  | Some api_key =>
      let d := with_session
                 (fun t => set_api_key_usage
                             (track_in_table (localnow clk) quota_cost api_key
                                (api_key_usage t)) t)
                 (db s) in
      db_commit (set_db d s)
  end.
End WithWorld.

(** ** Normalizing the search response (lines 132-159) *)

(** [d.get(key, '')] *)
Definition get_or_empty (o : option string) : string := default "" o.

Definition parse_search_result (sr : search_result) : exn + video_data :=
  match sr_id sr with
  | None => inl (KeyError "id")
  | Some None => inl (KeyError "videoId")
  | Some (Some vid) =>
      match sr_snippet sr with
      | None => inl (KeyError "snippet")
      | Some sn =>
          match sn_publishedAt sn with
          | None => inl (KeyError "publishedAt")
          | Some Unparsable => inl (ValueError "Invalid isoformat string")
          | Some (Parsed t) =>
              inr {| vd_video_id := vid;
                     vd_title := get_or_empty (sn_title sn);
                     vd_description := get_or_empty (sn_description sn);
                     vd_published_at := t;
                     vd_thumbnail_default := get_or_empty (sn_thumbnail_default sn);
                     vd_thumbnail_medium := get_or_empty (sn_thumbnail_medium sn);
                     vd_thumbnail_high := get_or_empty (sn_thumbnail_high sn);
                     vd_channel_id := get_or_empty (sn_channelId sn);
                     vd_channel_title := get_or_empty (sn_channelTitle sn);
                     vd_details := None |}
          end
      end
  end.

Fixpoint parse_items (srs : list search_result) : exn + list video_data :=
  match srs with
  | [] => inr []
  | sr :: rest =>
      match parse_search_result sr with
      | inl e => inl e
      | inr vd =>
          match parse_items rest with
          | inl e => inl e
          | inr vds => inr (vd :: vds)
          end
      end
  end.

(** ** Merging the details (lines 170-182) *)

Definition parse_detail (d : video_detail) : exn + (string * (string * Z)) :=
  match d_id d with
  | None => inl (KeyError "id")
  | Some vid =>
      match d_viewCount d with
      | Some Unparsable => inl (ValueError "invalid literal for int() with base 10")
      | Some (Parsed n) => inr (vid, (get_or_empty (d_duration d), n))
      | None => inr (vid, (get_or_empty (d_duration d), 0))
      end
  end.

Fixpoint build_details_map (ds : list video_detail) (m : gmap string (string * Z))
  : exn + gmap string (string * Z) :=
  match ds with
  | [] => inr m
  | d :: rest =>
      match parse_detail d with
      | inl e => inl e
      | inr (vid, det) => build_details_map rest (<[vid := det]> m)
      end
  end.

Definition set_details (det : option (string * Z)) (vd : video_data) : video_data :=
  {| vd_video_id := vd_video_id vd; vd_title := vd_title vd;
     vd_description := vd_description vd; vd_published_at := vd_published_at vd;
     vd_thumbnail_default := vd_thumbnail_default vd;
     vd_thumbnail_medium := vd_thumbnail_medium vd;
     vd_thumbnail_high := vd_thumbnail_high vd;
     vd_channel_id := vd_channel_id vd; vd_channel_title := vd_channel_title vd;
     vd_details := det |}.

(** [if video['video_id'] in details_map: video.update(details_map[...])] *)
Definition merge_details (m : gmap string (string * Z)) (vd : video_data) : video_data :=
  match m !! vd_video_id vd with
  | Some det => set_details (Some det) vd
  | None => vd
  end.

(** ** Storing the videos (lines 184-198) *)

#[global] Instance Video_eq_dec : EqDecision Video.
Proof. solve_decision. Defined.

(** The new [Video] row built from [video_data], as inserted at time [now]
    with primary key [row_id]; keys missing from the dict stay NULL. *)
Definition new_video (now : Z) (row_id : nat) (vd : video_data) : Video :=
  {| id := row_id;
     video_id := vd_video_id vd;
     title := vd_title vd;
     description := vd_description vd;
     published_at := vd_published_at vd;
     thumbnail_default := vd_thumbnail_default vd;
     thumbnail_medium := vd_thumbnail_medium vd;
     thumbnail_high := vd_thumbnail_high vd;
     channel_id := vd_channel_id vd;
     channel_title := vd_channel_title vd;
     duration := fst <$> vd_details vd;
     view_count := snd <$> vd_details vd;
     created_at := now;
     updated_at := now |}.

(** The [setattr] loop: every key of [video_data] but ['video_id']. *)
Definition assign_fields (vd : video_data) (existing : Video) : Video :=
  {| id := id existing;
     video_id := video_id existing;
     title := vd_title vd;
     description := vd_description vd;
     published_at := vd_published_at vd;
     thumbnail_default := vd_thumbnail_default vd;
     thumbnail_medium := vd_thumbnail_medium vd;
     thumbnail_high := vd_thumbnail_high vd;
     channel_id := vd_channel_id vd;
     channel_title := vd_channel_title vd;
     duration := match vd_details vd with
                 | Some det => Some (fst det)
                 | None => duration existing
                 end;
     view_count := match vd_details vd with
                   | Some det => Some (snd det)
                   | None => view_count existing
                   end;
     created_at := created_at existing;
     updated_at := updated_at existing |}.

Definition set_updated_at (t : Z) (v : Video) : Video :=
  {| id := id v; video_id := video_id v; title := title v; description := description v;
     published_at := published_at v; thumbnail_default := thumbnail_default v;
     thumbnail_medium := thumbnail_medium v; thumbnail_high := thumbnail_high v;
     channel_id := channel_id v; channel_title := channel_title v;
     duration := duration v; view_count := view_count v;
     created_at := created_at v; updated_at := t |}.

(** The row after the [setattr] loop is flushed: [onupdate] stamps
    [updated_at] when some column changed. *)
Definition update_video (now : Z) (vd : video_data) (existing : Video) : Video :=
  let v := assign_fields vd existing in
  if decide (v = existing) then existing else set_updated_at now v.

Definition has_video_id (vid : string) (v : Video) : bool :=
  String.eqb (video_id v) vid.

(** One pass of the loop body; the flag says whether a row was created.
    The session flushes before each query, so a row added earlier in the
    same batch is found. *)
Definition upsert (now : Z) (vd : video_data) (tbl : list Video) : list Video * bool :=
  match first_index (has_video_id (vd_video_id vd)) tbl with
  | None => (tbl ++ [new_video now (next_id (map id tbl)) vd], true)
  | Some (i, existing) => (<[i := update_video now vd existing]> tbl, false)
  end.

Fixpoint store_videos (now : Z) (vds : list video_data) (tbl : list Video)
    (stored_count : nat) : list Video * nat :=
  match vds with
  | [] => (tbl, stored_count)
  | vd :: rest =>
      let '(tbl1, created) := upsert now vd tbl in
      store_videos now rest tbl1 (if created then S stored_count else stored_count)
  end.

(** ** The query-fetch state (lines 200-210) *)

Definition has_query (qr : string) (c : SearchCache) : bool :=
  String.eqb (query c) qr.

Definition update_search_cache (now : Z) (qr : string) (total : Z)
    (token : option string) (tbl : list SearchCache) : list SearchCache :=
  match first_index (has_query qr) tbl with
  | Some (i, c) =>
      <[i := {| c_id := c_id c; query := query c; last_fetched := now;
                total_results := total; next_page_token := token |}]> tbl
  | None =>
      tbl ++ [{| c_id := next_id (map c_id tbl); query := qr; last_fetched := now;
                 total_results := total; next_page_token := token |}]
  end.

(** [_should_fetch_new_videos(query, cache_duration_minutes)] *)
Definition _should_fetch_new_videos (now : Z) (qr : string)
    (cache_duration_minutes : Z) (d : DB) : bool :=
  match first_index (has_query qr) (search_cache (session d)) with
  | None => true
  | Some (_, c) => timedelta_minutes cache_duration_minutes <? now - last_fetched c
  end.

(** ** fetch_videos *)

(** The dict returned by [fetch_videos]. ['cached'] and ['skipped'] are
    only ever present with value [True]; ['totalResults'] and
    ['stored_count'] are present on a remote fetch only. *)
Record fetch_result : Type := {
  items : list video_data;
  nextPageToken : option string;
  cached : bool;
  skipped : bool;
  totalResults : option Z;
  stored_count : option nat
}.

Definition skipped_result : fetch_result :=
  {| items := []; nextPageToken := None; cached := true; skipped := true;
     totalResults := None; stored_count := None |}.

Definition cached_result (r : results_dict) : fetch_result :=
  {| items := default [] (rd_items r); nextPageToken := None; cached := true;
     skipped := false; totalResults := None; stored_count := None |}.

Definition count_events (p : event -> bool) (tr : list event) : nat :=
  length (List.filter p tr).

Section Fetch.
Variable w : World.

(** Lines 98-107: the two first-page exits. *)
Definition first_page_shortcut (now : Z) (c : option redis) (qr : string)
    (page_token : option string) : option fetch_result :=
  if truthy_str page_token then None
  else if should_skip_query c now qr 6 then Some skipped_result
  else match get_cached_search_results (md5_hex w) c now qr with
       | Some r => if dict_truthy r then Some (cached_result r) else None
       | None => None
       end.

(** Lines 110-114: the quota mirror of the active key. *)
Definition check_quota_mirror (now : Z) : M unit := fun s =>
  if quota_exhausted_in_cache (date_str w) (cache s) now (current_key_index s) then
    let '(ok, s1) := _switch_api_key w s in
    if ok then (inr tt, s1)
    else (inl (Exception "All API keys exhausted"), s1)
  else (inr tt, s).

(** [self.youtube.search().list(...).execute()] *)
Definition call_search (req : search_request) : M search_response := fun s =>
  match youtube s with
  | None => (inl (OtherError "AttributeError" "'NoneType' object has no attribute 'search'"), s)
  | Some key =>
      (search_list w (count_events is_remote (trace s)) key req, emit (EvSearch key req) s)
  end.

(** [self.youtube.videos().list(part=..., id=','.join(video_ids)).execute()] *)
Definition call_videos_list (ids : list string) : M details_response := fun s =>
  match youtube s with
  | None => (inl (OtherError "AttributeError" "'NoneType' object has no attribute 'videos'"), s)
  | Some key =>
      (videos_list w (count_events is_remote (trace s)) key ids, emit (EvVideosList key ids) s)
  end.

(** Lines 162-182 *)
Definition fetch_details (clk : clock) (vds : list video_data) : M (list video_data) :=
  match vds with
  | [] => ret vds
  | _ :: _ =>
      let* video_details := call_videos_list (map vd_video_id vds) in
      let* _ := _track_api_usage w clk 1 in
      let* details_map :=
        lift (build_details_map (default [] (det_items video_details)) ∅) in
      ret (map (merge_details details_map) vds)
  end.

(** Lines 185-196: the upsert loop, on the session. *)
Definition store_batch (now : Z) (vds : list video_data) : M nat := fun s =>
  let '(tbl, n) := store_videos now vds (videos (session (db s))) 0%nat in
  (inr n, set_db (with_session (set_videos tbl) (db s)) s).

(** Lines 201-209 *)
Definition record_fetch_state (now : Z) (qr : string) (total : Z)
    (token : option string) : M unit :=
  modify (fun s =>
    set_db (with_session
              (fun t => set_search_cache
                          (update_search_cache now qr total token (search_cache t)) t)
              (db s)) s).

(** Lines 109-182: the quota check and the remote calls. *)
Definition fetch_remote (clk : clock) (qr : string) (max_results : Z)
    (page_token : option string) : M (search_response * list video_data) :=
  let now := utcnow clk in
  let* _ := check_quota_mirror now in
  let* search_response :=
    call_search {| q := qr;
                   publishedAfter := now - timedelta_days 7;
                   maxResults := Z.min max_results 50;
                   pageToken := page_token |} in
  let* _ := _track_api_usage w clk 100 in
  let* parsed_videos := lift (parse_items (default [] (resp_items search_response))) in
  let* vds := fetch_details clk parsed_videos in
  ret (search_response, vds).

(** Lines 184-219: the store writes and the result. *)
Definition persist (now : Z) (qr : string) (search_response : search_response)
    (vds : list video_data) : M fetch_result :=
  let* stored := store_batch now vds in
  let* _ := db_commit in
  let* _ := record_fetch_state now qr (Z.of_nat (length vds))
              (resp_nextPageToken search_response) in
  let* _ := db_commit in
  ret {| items := vds;
         nextPageToken := resp_nextPageToken search_response;
         cached := false; skipped := false;
         totalResults := Some (default 0 (resp_totalResults search_response));
         stored_count := Some stored |}.

(** The body of the [try] block. *)
Definition fetch_try (clk : clock) (qr : string) (max_results : Z)
    (page_token : option string) : M fetch_result :=
  let* s := get in
  match first_page_shortcut (utcnow clk) (cache s) qr page_token with
  | Some r => ret r
  | None =>
      let* fetched := fetch_remote clk qr max_results page_token in
      persist (utcnow clk) qr (fst fetched) (snd fetched)
  end.

(** How one activation of [fetch_videos] ends: it returns, it raises, or
    it tail-calls itself ([return self.fetch_videos(...)]). *)
Inductive outcome : Type :=
| Return (r : fetch_result)
| Raise (e : exn)
| Retry.

(** One activation: the client check, the [try] block and its handlers. *)
Definition fetch_attempt (clk : clock) (qr : string) (max_results : Z)
    (page_token : option string) (s : State) : outcome * State :=
  match youtube s with
  | None => (Raise (Exception "YouTube API client not initialized"), s)
  | Some _ =>
      match fetch_try clk qr max_results page_token s with
      | (inr r, s1) => (Return r, s1)
      | (inl (HttpError status text), s1) =>
          if (status =? 403) && str_in "quotaExceeded" text then
            let '(ok, s2) := _switch_api_key w s1 in
            if ok then (Retry, s2)
            else (Raise (Exception "All API keys exhausted"), s2)
          else (Raise (Exception ("YouTube API error: " +:+ text)), s1)
      | (inl e, s1) => (Raise e, s1)
      end
  end.

(** The recursion, with one unit of fuel per activation. *)
Fixpoint fetch_videos_rec (fuel : nat) (clk : clock) (qr : string) (max_results : Z)
    (page_token : option string) (s : State) : option ((exn + fetch_result) * State) :=
  match fuel with
  | O => None
  | S fuel' =>
      match fetch_attempt clk qr max_results page_token s with
      | (Return r, s1) => Some (inr r, s1)
      | (Raise e, s1) => Some (inl e, s1)
      | (Retry, s1) => fetch_videos_rec fuel' clk qr max_results page_token s1
      end
  end.

(** Activations a call can need: one, plus one per key left after the
    active one. *)
Definition attempts_left (s : State) : nat :=
  S (length (api_keys s) - current_key_index s).

(** [fetch_videos]. The fuel given is always enough
    ([fetch_videos_rec_enough] below), so the last branch is never taken. *)
Definition fetch_videos (clk : clock) (qr : string) (max_results : Z)
    (page_token : option string) (s : State) : (exn + fetch_result) * State :=
  match fetch_videos_rec (attempts_left s) clk qr max_results page_token s with
  | Some r => r
  | None => (inl (OtherError "RecursionError" "maximum recursion depth exceeded"), s)
  end.
End Fetch.

End YouTubeService.
Import YouTubeService.

(* ===================================================================== *)
(** * background_fetcher.py                                               *)
(* ===================================================================== *)

Module BackgroundFetcher.

(** [BackgroundVideoFetcher]. [workers] lists every worker thread this
    object has created, in creation order, with whether it is alive;
    [thread] is the handle (position) of the last one. *)
Record fetcher : Type := {
  search_queries : list string;
  fetch_interval : Z;
  youtube_service : State;
  running : bool;
  thread : option nat;
  workers : list bool
}.

Definition default_queries : list string :=
  ["programming"; "technology"; "coding"; "software development"].

(** [__init__(search_queries=None, fetch_interval=10)]: an empty list is
    falsy and gets the defaults too. *)
Definition init (queries : option (list string)) (interval : Z) (svc : State) : fetcher :=
  {| search_queries := match queries with
                       | Some (qr :: rest) => qr :: rest
                       | _ => default_queries
                       end;
     fetch_interval := interval;
     youtube_service := svc;
     running := false;
     thread := None;
     workers := [] |}.

(** [start()] *)
Definition start (f : fetcher) : fetcher :=
  if running f then f
  else {| search_queries := search_queries f; fetch_interval := fetch_interval f;
          youtube_service := youtube_service f;
          running := true;
          thread := Some (length (workers f));
          workers := workers f ++ [true] |}.

(** [stop()]: [join] returns once the worker has left its loop. *)
Definition stop (f : fetcher) : fetcher :=
  {| search_queries := search_queries f; fetch_interval := fetch_interval f;
     youtube_service := youtube_service f;
     running := false;
     thread := thread f;
     workers := match thread f with
                | Some t => <[t := false]> (workers f)
                | None => workers f
                end |}.

(** The worker thread ends on its own, by an exception that leaves
    [_fetch_loop]; nothing resets [running]. *)
Definition worker_ends (f : fetcher) : fetcher :=
  {| search_queries := search_queries f; fetch_interval := fetch_interval f;
     youtube_service := youtube_service f;
     running := running f;
     thread := thread f;
     workers := match thread f with
                | Some t => <[t := false]> (workers f)
                | None => workers f
                end |}.

(** What can happen to a scheduler, one thing at a time. *)
Inductive op : Type := Start | Stop | WorkerEnds.

Definition apply_op (f : fetcher) (o : op) : fetcher :=
  match o with
  | Start => start f
  | Stop => stop f
  | WorkerEnds => worker_ends f
  end.

Definition alive_workers (f : fetcher) : nat :=
  length (List.filter (fun a : bool => a) (workers f)).

(** ** The polling loop *)

Inductive loop_event : Type :=
| Fetch (qr : string) (max_results : Z)   (* call of [fetch_videos] *)
| LogError (e : exn)
| Sleep (seconds : Z)
| Died.                                   (* an exception left the loop *)

(** The test of the [except] clause, on [str(e).lower()]. *)
Definition is_quota_error (e : exn) : bool :=
  let error_msg := lower (exn_str e) in
  str_in "exhausted" error_msg || str_in "quota" error_msg.

(** Leaving [with app.app_context()] removes the scoped session, which
    drops whatever it had not committed. *)
Definition teardown_appcontext (s : State) : State :=
  set_db {| committed := committed (db s); session := committed (db s) |} s.

Section Loop.
Variable w : World.
Variable queries : list string.
Variable interval : Z.

(** One pass through the body of [while self.running]. The second
    component is the next [query_index] and the service afterwards, or
    [None] when the worker thread died. With no query at all the modulo
    raises and the handler's log line then fails on the unbound
    [current_query]. *)
Definition loop_body (clk : clock) (query_index : nat) (svc : State)
  : list loop_event * option (nat * State) :=
  match queries !! (query_index mod length queries)%nat with
  | None => ([Died], None)
  | Some current_query =>
      let query_index := S query_index in
      match fetch_videos w clk current_query 25 None svc with
      | (inr _, svc1) =>
          ([Fetch current_query 25; Sleep interval],
           Some (query_index, teardown_appcontext svc1))
      | (inl e, svc1) =>
          if is_quota_error e then
            ([Fetch current_query 25; Sleep 3600],
             Some (query_index, teardown_appcontext svc1))
          else
            ([Fetch current_query 25; LogError e; Sleep interval],
             Some (query_index, teardown_appcontext svc1))
      end
  end.

(** The [while] loop from a given cursor, run against what the worker
    observes at the top of each iteration: the value of [self.running] and
    the clocks. The result is the events so far, the cursor and the service. *)
Fixpoint fetch_loop_from (obs : list (bool * clock)) (query_index : nat) (svc : State)
  : list loop_event * (nat * State) :=
  match obs with
  | [] => ([], (query_index, svc))
  | (false, _) :: _ => ([], (query_index, svc))
  | (true, clk) :: rest =>
      match loop_body clk query_index svc with
      | (evs, None) => (evs, (query_index, svc))
      | (evs, Some (query_index1, svc1)) =>
          let '(evs', final) := fetch_loop_from rest query_index1 svc1 in
          (evs ++ evs', final)
      end
  end.
End Loop.

(** [_fetch_loop]: the cursor starts at 0. *)
Definition _fetch_loop (w : World) (f : fetcher) (obs : list (bool * clock))
  : list loop_event * (nat * State) :=
  fetch_loop_from w (search_queries f) (fetch_interval f) obs 0 (youtube_service f).

(** ** The module-level scheduler *)

(** The list built by [start_background_fetching]. *)
Definition background_queries : list string :=
  ["programming"; "coding tutorial"; "software development"; "tech news";
   "python programming"; "javascript tutorial"; "react js"; "machine learning";
   "artificial intelligence"; "web development"; "football"; "cricket"; "basketball";
   "soccer highlights"; "tennis"; "fitness workout"; "gym training"; "yoga";
   "music videos"; "movie trailers"; "comedy"; "gaming"; "funny videos";
   "stand up comedy"; "video games"; "entertainment news"; "breaking news";
   "world news"; "politics"; "economics"; "current events"; "news today"; "cooking";
   "travel"; "fashion"; "beauty"; "food recipes"; "lifestyle"; "vlog"; "tutorial";
   "education"; "science"; "history"; "documentary"; "how to"; "diy"; "learning";
   "explainer"; "music"; "songs"; "cover songs"; "live performance"; "concert";
   "art tutorial"; "drawing"; "viral videos"; "trending"; "memes"; "tiktok";
   "social media"; "influencer"; "health tips"; "mental health"; "meditation";
   "wellness"; "nutrition"].

(** [start_background_fetching()], on the global [background_fetcher];
    [svc] is the service a new scheduler constructs for itself. *)
Definition start_background_fetching (svc : State) (g : option fetcher) : option fetcher :=
  match g with
  | None => Some (start (init (Some background_queries) 10 svc))
  | Some f => Some (start f)
  end.

(** [stop_background_fetching()] *)
Definition stop_background_fetching (g : option fetcher) : option fetcher :=
  match g with
  | Some f => Some (stop f)
  | None => None
  end.

Definition fetched_queries (evs : list loop_event) : list string :=
  omap (fun e => match e with Fetch qr _ => Some qr | _ => None end) evs.

Definition sleeps (evs : list loop_event) : list Z :=
  omap (fun e => match e with Sleep n => Some n | _ => None end) evs.

End BackgroundFetcher.
Import BackgroundFetcher.

(* ===================================================================== *)
(** * api_routes.py                                                       *)
(* ===================================================================== *)

Module ApiRoutes.





End ApiRoutes.
Import ApiRoutes.

(* ===================================================================== *)
(** * Derived notions used in the statements                              *)
(* ===================================================================== *)

(** [_track_api_usage(quota_cost)] called once per clock reading. *)
Fixpoint track_times (w : World) (clks : list clock) (quota_cost : Z) (s : State) : State :=
  match clks with
  | [] => s
  | clk :: rest => track_times w rest quota_cost (snd (_track_api_usage w clk quota_cost s))
  end.

(** The ledger row of the active credential, as a query in the session sees it. *)
Definition active_usage (w : World) (s : State) : option APIKeyUsage :=
  match api_keys s !! current_key_index s with
  | Some api_key =>
      snd <$> first_index (has_hash (sha256_hex w api_key)) (api_key_usage (session (db s)))
  | None => None
  end.

Definition empty_redis : redis := {| store := ∅; reachable := true |}.

(** The row a query by external id returns, and how many rows carry the id. *)
Definition lookup_video (vid : string) (tbl : list Video) : option Video :=
  snd <$> first_index (has_video_id vid) tbl.

Definition rows_with (vid : string) (tbl : list Video) : nat :=
  length (List.filter (has_video_id vid) tbl).

(** The row holds the item's value in each of the nine columns that every
    item carries. *)
Definition holds_item (vd : video_data) (v : Video) : Prop :=
  video_id v = vd_video_id vd /\
  title v = vd_title vd /\
  description v = vd_description vd /\
  published_at v = vd_published_at vd /\
  thumbnail_default v = vd_thumbnail_default vd /\
  thumbnail_medium v = vd_thumbnail_medium vd /\
  thumbnail_high v = vd_thumbnail_high vd /\
  channel_id v = vd_channel_id vd /\
  channel_title v = vd_channel_title vd.

(** The two detail columns after an item met a stored row: the item's
    values when it carries them, the stored ones otherwise. *)
Definition merged_duration (vd : video_data) (stored : option string) : option string :=
  match vd_details vd with
  | Some det => Some (fst det)
  | None => stored
  end.

Definition merged_view_count (vd : video_data) (stored : option Z) : option Z :=
  match vd_details vd with
  | Some det => Some (snd det)
  | None => stored
  end.

(** The reading of the specification: after re-ingestion every column but
    the external id and the created timestamp holds the new item's value,
    the two detail columns included (NULL when the item has none, as on
    insertion). *)
Definition overwritten_with (vd : video_data) (v : Video) : Prop :=
  holds_item vd v /\
  duration v = fst <$> vd_details vd /\
  view_count v = snd <$> vd_details vd.

(** A stored row with details, and a later item for the same id whose
    details were not returned by the detail call. *)
Definition stored_row : Video :=
  {| id := 1; video_id := "v1"; title := "old title"; description := "old text";
     published_at := 50; thumbnail_default := "d0"; thumbnail_medium := "m0";
     thumbnail_high := "h0"; channel_id := "c1"; channel_title := "channel";
     duration := Some "PT4M13S"; view_count := Some 1000;
     created_at := 100; updated_at := 100 |}.

Definition item_without_details : video_data :=
  {| vd_video_id := "v1"; vd_title := "new title"; vd_description := "new text";
     vd_published_at := 50; vd_thumbnail_default := "d1"; vd_thumbnail_medium := "m1";
     vd_thumbnail_high := "h1"; vd_channel_id := "c1"; vd_channel_title := "channel";
     vd_details := None |}.

Definition item_with_details : video_data :=
  set_details (Some ("PT9M", 7)) item_without_details.

(** Number of remote search calls issued so far. *)
Definition searches (s : State) : nat := count_events is_search (trace s).

(** What no step of a fetch undoes: the key list and the cache stay, the
    key index never decreases, a built client stays built. *)
Record frame (s s' : State) : Prop := {
  frame_keys : api_keys s' = api_keys s;
  frame_cache : cache s' = cache s;
  frame_index : (current_key_index s <= current_key_index s')%nat;
  frame_client : is_Some (youtube s) -> is_Some (youtube s')
}.

(** At most [n] more search calls. *)
Definition within (n : nat) (s s' : State) : Prop :=
  (searches s' <= searches s + n)%nat.

(** The session holds nothing uncommitted. *)
Definition clean (s : State) : Prop := session (db s) = committed (db s).

(** A commit event that publishes the video table [vs]. *)
Definition commit_shows (vs : list Video) (e : event) : Prop :=
  match e with
  | EvCommit t => videos t = vs
  | _ => True
  end.

(** From a clean session: the video table was neither written nor
    published anew, and the session is clean again. *)
Definition video_quiet (s s' : State) : Prop :=
  clean s ->
  clean s' /\
  videos (session (db s')) = videos (session (db s)) /\
  exists evs,
    trace s' = trace s ++ evs /\
    Forall (commit_shows (videos (session (db s)))) evs.

(** From a clean session: the commits first publish the old video table,
    then the final one, and the session is clean again. *)
Definition video_split (s s' : State) : Prop :=
  clean s ->
  clean s' /\
  exists before after,
    trace s' = trace s ++ before ++ after /\
    Forall (commit_shows (videos (session (db s)))) before /\
    Forall (commit_shows (videos (session (db s')))) after.

(** From a clean session: a result that carries a stored count comes with
    the committed video table being the old one after the upsert loop over
    the returned items, the count being the loop's counter; any other result,
    and any error, comes with the committed video table unchanged. *)
Definition batch_stored (now : Z) (s : State) (r : exn + fetch_result) (s' : State)
  : Prop :=
  clean s ->
  match r with
  | inr res =>
      match stored_count res with
      | Some n =>
          store_videos now (items res) (videos (committed (db s))) 0
          = (videos (committed (db s')), n)
      | None => videos (committed (db s')) = videos (committed (db s))
      end
  | inl _ => videos (committed (db s')) = videos (committed (db s))
  end.

(** Every run of [m] relates the states before and after by [R]. *)
Definition preserves {A : Type} (R : State -> State -> Prop) (m : M A) : Prop :=
  forall s r s', m s = (r, s') -> R s s'.

(** Activations a call started in [s] can go through. *)
Definition activations (s : State) : nat :=
  Nat.max 1 (length (api_keys s) - current_key_index s).

(** A client is only ever built from a key of the list. *)
Definition client_has_keys (s : State) : Prop :=
  is_Some (youtube s) -> api_keys s <> [].

(** ** Scenarios: small worlds to run the code in *)

Definition empty_db : DB :=
  let t := {| videos := []; api_key_usage := []; search_cache := [] |} in
  {| committed := t; session := t |}.

Definition noon : clock := {| utcnow := 43200000000; localnow := 43200000000 |}.

Definition sample_result (vid ttl : string) : search_result :=
  {| sr_id := Some (Some vid);
     sr_snippet :=
       Some {| sn_title := Some ttl; sn_description := None;
               sn_publishedAt := Some (Parsed 1000);
               sn_thumbnail_default := None; sn_thumbnail_medium := None;
               sn_thumbnail_high := None;
               sn_channelId := Some "c1"; sn_channelTitle := Some "channel" |} |}.

Definition sample_detail (vid : string) : video_detail :=
  {| d_id := Some vid; d_duration := Some "PT5M"; d_viewCount := Some (Parsed 42) |}.

Definition response_of (srs : list search_result) : search_response :=
  {| resp_items := Some srs; resp_nextPageToken := None;
     resp_totalResults := Some (Z.of_nat (length srs)) |}.

(** A world given by the answers of the two remote endpoints; hashes are
    stand-ins, every client can be built. *)
Definition world_of (search : string -> exn + search_response)
    (details : string -> list string -> exn + details_response) : World :=
  {| sha256_hex := fun k => "sha256/" +:+ k;
     md5_hex := fun k => "md5/" +:+ k;
     date_str := fun d => pretty d;
     build_ok := fun _ => true;
     search_list := fun _ key _ => search key;
     videos_list := fun _ key ids => details key ids |}.

Definition quota_exceeded_error : exn :=
  HttpError 403 "<HttpError 403 when requesting search returned quotaExceeded>".

(** Key k1 is out of quota, every other key finds nothing new. *)
Definition world_one_key_out : World :=
  world_of (fun key => if String.eqb key "k1" then inl quota_exceeded_error
                       else inr (response_of []))
           (fun _ _ => inr {| det_items := Some [] |}).

(** Every key is out of quota. *)
Definition world_all_keys_out : World :=
  world_of (fun _ => inl quota_exceeded_error)
           (fun _ _ => inr {| det_items := Some [] |}).

(** The search finds two videos and the detail call describes both. *)
Definition world_two_videos : World :=
  world_of (fun _ => inr (response_of [sample_result "v1" "one"; sample_result "v2" "two"]))
           (fun _ ids => inr {| det_items := Some (map sample_detail ids) |}).

(** The search finds a video and the detail call then fails. *)
Definition world_details_down : World :=
  world_of (fun _ => inr (response_of [sample_result "v1" "one"]))
           (fun _ _ => inl (HttpError 500 "<HttpError 500 when requesting videos>")).

(** Developer keys of the search calls, and the id batches of the detail
    calls, in the order they were issued. *)
Definition search_keys (tr : list event) : list string :=
  omap (fun e => match e with EvSearch key _ => Some key | _ => None end) tr.

Definition detail_batches (tr : list event) : list (list string) :=
  omap (fun e => match e with EvVideosList _ ids => Some ids | _ => None end) tr.

(** The service as [__init__] leaves it, over an empty database and an
    empty, reachable cache. *)
Definition fresh_service (w : World) (key_1 key_2 : string) : State :=
  YouTubeService.init w key_1 key_2 "" empty_db (Some empty_redis).

(** ** The scheduler *)

(** The queries a worker picks from cursor [start] on, one per iteration. *)
Definition rotation (queries : list string) (start n : nat) : list string :=
  omap (fun i => queries !! (i mod length queries)%nat) (seq start n).

(** The worker saw [self.running] true at the top of every iteration. *)
Definition all_running (obs : list (bool * clock)) : Prop :=
  Forall (fun o => fst o = true) obs.

Definition run_ops (ops : list op) (f : fetcher) : fetcher :=
  fold_left apply_op ops f.

(** The shape of the worker list at any time: every worker but the last
    one created has ended, the last one can only be alive while [running]
    holds, and [thread] is its handle. *)
Inductive worker_shape (f : fetcher) : Prop :=
| shape_never_started :
    workers f = [] -> thread f = None -> running f = false -> worker_shape f
| shape_started (n : nat) (alive : bool) :
    workers f = replicate n false ++ [alive] -> thread f = Some n ->
    (alive = true -> running f = true) -> worker_shape f.

(** The search answers with a rate-limit error that mentions the word
    quota but is not the quotaExceeded condition. *)
Definition rate_limit_error : exn :=
  HttpError 429 "<HttpError 429 when requesting search returned Quota exceeded for quota metric Queries per minute>".

Definition world_rate_limited : World :=
  world_of (fun _ => inl rate_limit_error)
           (fun _ _ => inr {| det_items := Some [] |}).

(** ** States for the scenarios *)

Definition set_cache (c : option redis) (s : State) : State :=
  {| api_keys := api_keys s; current_key_index := current_key_index s;
     youtube := youtube s; db := db s; cache := c; trace := trace s |}.

Definition early : clock := {| utcnow := 1000; localnow := 1000 |}.

Definition next_day : clock :=
  {| utcnow := utcnow noon + usec_per_day; localnow := localnow noon + usec_per_day |}.

(** A service whose cache holds a skip marker for "cats" written at time 0
    with no new video. *)
Definition service_with_marker : State :=
  set_cache (mark_query_processed (Some empty_redis) 0 "cats" 0)
    (fresh_service world_two_videos "k1" "").

Definition cached_cats : results_dict :=
  {| rd_items := Some [item_with_details]; rd_other_keys := ["nextPageToken"] |}.

(** A service whose cache holds search results for "cats" cached at time 0. *)
Definition service_with_results : State :=
  set_cache (cache_search_results (md5_hex world_two_videos) (Some empty_redis) 0 "cats"
               cached_cats 2)
    (fresh_service world_two_videos "k1" "").

(** A service configured without any key, so without a client, whose
    cache holds the same skip marker. *)
Definition service_without_client : State :=
  set_cache (mark_query_processed (Some empty_redis) 0 "cats" 0)
    (YouTubeService.init world_two_videos "" "" "" empty_db (Some empty_redis)).

(** A service whose cache holds, for "cats", a fresh entry whose results
    object is empty. *)
Definition no_results : results_dict := {| rd_items := None; rd_other_keys := [] |}.

Definition service_with_empty_results : State :=
  set_cache (cache_search_results (md5_hex world_two_videos) (Some empty_redis) 0 "cats"
               no_results 2)
    (fresh_service world_two_videos "k1" "").

Definition fresh_usage : APIKeyUsage :=
  {| u_id := 1; api_key_hash := "sha256/k1"; quota_used := 0;
     last_reset := Some (localnow noon); is_exhausted := false |}.

(** A service whose ledger has a fresh row for its only key. *)
Definition service_with_ledger : State :=
  let t := {| videos := []; api_key_usage := [fresh_usage]; search_cache := [] |} in
  set_db {| committed := t; session := t |} (fresh_service world_two_videos "k1" "").

(** ** Notions for the further properties *)


(** The row stems from the row [old]: same primary key, same created
    timestamp. *)
Definition same_row (old row : Video) : Prop :=
  id row = id old /\ video_id row = video_id old /\ created_at row = created_at old.

(** The row holds the item, details included when the item carries them. *)
Definition stores_item (vd : video_data) (row : Video) : Prop :=
  holds_item vd row /\
  forall det, vd_details vd = Some det ->
    duration row = Some (fst det) /\ view_count row = Some (snd det).

(** The usage ledger as a query in the session sees it. *)
Definition ledger (s : State) : list APIKeyUsage := api_key_usage (session (db s)).

(** Besides [frame]: once the key index is past the last key, the ledger
    is not written. *)
Record uncharged (s s' : State) : Prop := {
  uncharged_frame : frame s s';
  uncharged_ledger :
    (length (api_keys s) <= current_key_index s)%nat -> ledger s' = ledger s
}.

(** A client, if built, was built from a key of the list. *)
Definition client_from_keys (s : State) : Prop :=
  forall key, youtube s = Some key -> key ∈ api_keys s.

(** What a call for the request [req] may put on the wire with the keys
    [keys]: searches for [req], and detail calls for at least one id. *)
Definition sends (keys : list string) (req : search_request) (e : event) : Prop :=
  match e with
  | EvSearch key r => key ∈ keys /\ r = req
  | EvVideosList key ids => key ∈ keys /\ ids <> []
  | EvCommit _ => True
  end.

Definition sends_only (req : search_request) (s s' : State) : Prop :=
  client_from_keys s ->
  client_from_keys s' /\ api_keys s' = api_keys s /\
  exists evs, trace s' = trace s ++ evs /\ Forall (sends (api_keys s) req) evs.

(** The request [fetch_videos] builds from its arguments (lines 117-128). *)
Definition request_of (clk : clock) (qr : string) (max_results : Z)
    (page_token : option string) : search_request :=
  {| q := qr; publishedAfter := utcnow clk - timedelta_days 7;
     maxResults := Z.min max_results 50; pageToken := page_token |}.

(** The query-fetch table of the session keeps one row per query. *)
Definition one_row_per_query (s s' : State) : Prop :=
  NoDup (map query (search_cache (session (db s)))) ->
  NoDup (map query (search_cache (session (db s')))).

(** The row of the query-fetch table a query by [qr] returns. *)
Definition lookup_query (qr : string) (tbl : list SearchCache) : option SearchCache :=
  snd <$> first_index (has_query qr) tbl.

(** The key k1 is out of quota on the first call only. *)
Definition world_recovering : World :=
  {| sha256_hex := fun k => "sha256/" +:+ k;
     md5_hex := fun k => "md5/" +:+ k;
     date_str := fun d => pretty d;
     build_ok := fun _ => true;
     search_list := fun calls _ _ =>
       match calls with
       | O => inl quota_exceeded_error
       | S _ => inr (response_of [sample_result "v1" "one"])
       end;
     videos_list := fun _ _ ids => inr {| det_items := Some (map sample_detail ids) |} |}.

(** The service with its single key k1 after a first fetch found it out of
    quota: the key index is past the end, the client is still there. *)
Definition service_past_the_end : State :=
  snd (fetch_videos world_recovering noon "cats" 10 None
         (fresh_service world_recovering "k1" "")).

(** A cache that answers nothing: no client, or a backend that cannot be
    reached. *)
Definition silent (c : option redis) : Prop :=
  match c with
  | None => True
  | Some r => reachable r = false
  end.

(** Two services that differ at most in their cache, both caches silent. *)
Record cache_blind (s1 s2 : State) : Prop := {
  blind_keys : api_keys s1 = api_keys s2;
  blind_index : current_key_index s1 = current_key_index s2;
  blind_client : youtube s1 = youtube s2;
  blind_db : db s1 = db s2;
  blind_trace : trace s1 = trace s2;
  blind_left : silent (cache s1);
  blind_right : silent (cache s2)
}.

(** A computation that cannot tell such services apart. *)
Definition blind {A : Type} (m : M A) : Prop :=
  forall s1 s2, cache_blind s1 s2 ->
    fst (m s1) = fst (m s2) /\ cache_blind (snd (m s1)) (snd (m s2)).

Definition unreachable_redis : redis := {| store := ∅; reachable := false |}.

(** The key index, counted up to the end of the key list. *)
Definition capped_index (s : State) : nat :=
  Nat.min (current_key_index s) (length (api_keys s)).

(** Besides [frame]: at most [n] searches more than keys were given up. *)
Definition budget (n : nat) (s s' : State) : Prop :=
  frame s s' /\
  (searches s' + capped_index s <= searches s + n + capped_index s')%nat.

(** What can happen to the module-level scheduler, one thing at a time:
    the two module functions, and the worker ending on its own. *)
Inductive gop : Type :=
| GStart (svc : State)     (* [svc] is what [YouTubeService()] would build *)
| GStop
| GWorkerEnds.

Definition apply_gop (g : option fetcher) (o : gop) : option fetcher :=
  match o with
  | GStart svc => start_background_fetching svc g
  | GStop => stop_background_fetching g
  | GWorkerEnds => worker_ends <$> g
  end.

Definition run_gops (ops : list gop) (g : option fetcher) : option fetcher :=
  fold_left apply_gop ops g.

Definition not_initialized : exn := Exception "YouTube API client not initialized".

(** No client can be built from any key. *)
Definition world_no_client : World :=
  {| sha256_hex := fun k => "sha256/" +:+ k;
     md5_hex := fun k => "md5/" +:+ k;
     date_str := fun d => pretty d;
     build_ok := fun _ => false;
     search_list := fun _ _ _ => inr (response_of []);
     videos_list := fun _ _ _ => inr {| det_items := Some [] |} |}.

(** The ledger row a query by key hash returns. *)
Definition lookup_usage (h : string) (tbl : list APIKeyUsage) : option APIKeyUsage :=
  snd <$> first_index (has_hash h) tbl.

(** The ledger after [_track_api_usage(cost)] by the service [s]: the row
    of the active key is charged, and nothing when the key index is past
    the end. *)
Definition charge (w : World) (clk : clock) (cost : Z) (s : State)
    (tbl : list APIKeyUsage) : list APIKeyUsage :=
  match api_keys s !! current_key_index s with
  | Some api_key => track_in_table w (localnow clk) cost api_key tbl
  | None => tbl
  end.

(** The row with which a key starts, before its first charge. *)
Definition blank_usage (row_id : nat) (h : string) : APIKeyUsage :=
  {| u_id := row_id; api_key_hash := h; quota_used := 0; last_reset := None;
     is_exhausted := false |}.

(** The pair [merge_details] attaches for a detail item: its duration, or
    the empty string, and its view count, or 0. *)
Definition detail_pair (d : video_detail) : string * Z :=
  (get_or_empty (d_duration d),
   match d_viewCount d with
   | Some (Parsed n) => n
   | _ => 0
   end).


(* ===================================================================== *)
(** * Table lookups                                                      *)
(* ===================================================================== *)

Section FirstIndex.
Context {A : Type} (p : A -> bool).

Lemma first_index_None (l : list A) :
  first_index p l = None <-> List.filter p l = [].
Proof.
  induction l as [|x l IH]; simpl; [tauto|].
  destruct (p x) eqn:Hx.
  - split; discriminate.
  - destruct (first_index p l) as [[i y]|].
    + split; [discriminate|]. intros H. apply IH in H. discriminate.
    + tauto.
Qed.

Lemma first_index_Some (l : list A) (i : nat) (x : A) :
  first_index p l = Some (i, x) ->
  l !! i = Some x /\ p x = true /\ List.filter p (take i l) = [].
Proof.
  revert i. induction l as [|y l IH]; intros i; simpl; [discriminate|].
  destruct (p y) eqn:Hy.
  - intros [= <- <-]. auto.
  - destruct (first_index p l) as [[j z]|] eqn:Hf; [|discriminate].
    intros [= <- <-]. destruct (IH j eq_refl) as (Hl & Hp & Ht).
    simpl. rewrite Hy. auto.
Qed.

(** Replacing the first match by another match keeps it first. *)
Lemma first_index_insert (l : list A) (i : nat) (x y : A) :
  first_index p l = Some (i, x) -> p y = true ->
  first_index p (<[i := y]> l) = Some (i, y).
Proof.
  revert i. induction l as [|z l IH]; intros i; simpl; [discriminate|].
  destruct (p z) eqn:Hz.
  - intros [= <- <-] Hy. simpl. by rewrite Hy.
  - destruct (first_index p l) as [[j u]|] eqn:Hf; [|discriminate].
    intros [= <- <-] Hy. simpl. rewrite Hz. by rewrite (IH j eq_refl Hy).
Qed.

(** A row appended to a table without a match becomes the first match. *)
Lemma first_index_app_new (l : list A) (y : A) :
  first_index p l = None -> p y = true ->
  first_index p (l ++ [y]) = Some (length l, y).
Proof.
  induction l as [|z l IH]; simpl; intros Hn Hy.
  - by rewrite Hy.
  - destruct (p z); [discriminate|].
    destruct (first_index p l) as [[j u]|]; [discriminate|].
    by rewrite (IH eq_refl Hy).
Qed.
End FirstIndex.

(* ===================================================================== *)
(** * The skip marker                                                    *)
(* ===================================================================== *)

(** C4. [should_skip_query] answers [True] exactly when the cache backend
    hands back a skip marker for the query whose age is strictly below the
    threshold and whose recorded count of new videos is 0. Hence it answers
    [False] without a client, when the backend raises, without a marker, at
    an age equal to the threshold, and for a nonzero count. *)
Theorem should_skip_query_iff (c : option redis) (now : Z) (qr : string) (hours : Z) :
  should_skip_query c now qr hours = true <->
  exists r last_attempt new_videos,
    c = Some r /\
    redis_get r now (skip_key qr) = inr (Some (SkipMarker last_attempt new_videos)) /\
    now - last_attempt < timedelta_hours hours /\
    new_videos = 0.
Proof.
  unfold should_skip_query. split.
  - destruct c as [r|]; [|discriminate].
    destruct (redis_get r now (skip_key qr)) as [e|[[la nv| | |]|]] eqn:Hget;
      try discriminate.
    intros [Hage Hcnt]%andb_prop.
    exists r, la, nv.
    split; [reflexivity|]. split; [exact Hget|].
    split; [apply Z.ltb_lt, Hage | apply Z.eqb_eq, Hcnt].
  - intros (r & la & nv & -> & -> & Hage & ->).
    apply andb_true_intro. split; [by apply Z.ltb_lt | reflexivity].
Qed.

(** The boundary cases named by the specification, on a marker written by
    [mark_query_processed] at time 0 into an empty, reachable cache. *)
Example skip_just_inside :
  should_skip_query (mark_query_processed (Some empty_redis) 0 "cats" 0)
    (timedelta_hours 6 - 1) "cats" 6 = true.
Proof. vm_compute. reflexivity. Qed.

Example skip_at_boundary :
  should_skip_query (mark_query_processed (Some empty_redis) 0 "cats" 0)
    (timedelta_hours 6) "cats" 6 = false.
Proof. vm_compute. reflexivity. Qed.

Example skip_count_one :
  should_skip_query (mark_query_processed (Some empty_redis) 0 "cats" 1)
    1 "cats" 6 = false.
Proof. vm_compute. reflexivity. Qed.

Example skip_backend_down :
  should_skip_query None 1 "cats" 6 = false /\
  should_skip_query
    (Some {| store := store empty_redis; reachable := false |}) 1 "cats" 6 = false.
Proof. split; reflexivity. Qed.

(* ===================================================================== *)
(** * The usage ledger                                                    *)
(* ===================================================================== *)

Section Ledger.
Variable w : World.

Lemma touch_usage_hash (now cost : Z) (u : APIKeyUsage) :
  api_key_hash (touch_usage now cost u) = api_key_hash u.
Proof. unfold touch_usage. by destruct (needs_reset now u). Qed.

(** One call rewrites the active row in place, and nothing else of the lookup. *)
Lemma track_active_usage (clk : clock) (cost : Z) (s : State) (row : APIKeyUsage) :
  active_usage w s = Some row ->
  active_usage w (snd (_track_api_usage w clk cost s))
  = Some (touch_usage (localnow clk) cost row).
Proof.
  unfold active_usage, _track_api_usage.
  destruct (api_keys s !! current_key_index s) as [api_key|] eqn:Hkey; [|discriminate].
  simpl. rewrite Hkey. unfold track_in_table.
  destruct (first_index _ (api_key_usage (session (db s)))) as [[i u]|] eqn:Hf;
    [|discriminate].
  intros [= ->]. simpl.
  erewrite first_index_insert; eauto.
  unfold has_hash. rewrite touch_usage_hash.
  by apply first_index_Some in Hf as (_ & Hp & _).
Qed.

Lemma touch_usage_same_day (now cost : Z) (u : APIKeyUsage) (t : Z) :
  last_reset u = Some t -> date now = date t ->
  touch_usage now cost u =
    {| u_id := u_id u; api_key_hash := api_key_hash u;
       quota_used := quota_used u + cost; last_reset := Some t;
       is_exhausted := if 9500 <=? quota_used u + cost then true else is_exhausted u |}.
Proof.
  intros Hl Hd. unfold touch_usage, needs_reset. rewrite Hl.
  replace (date t <? date now) with false by (symmetry; apply Z.ltb_ge; lia).
  by rewrite Hl.
Qed.

Lemma touch_usage_new_day (now cost : Z) (u : APIKeyUsage) (t : Z) :
  last_reset u = Some t -> date t < date now ->
  touch_usage now cost u =
    {| u_id := u_id u; api_key_hash := api_key_hash u;
       quota_used := cost; last_reset := Some now;
       is_exhausted := 9500 <=? cost |}.
Proof.
  intros Hl Hd. unfold touch_usage, needs_reset. rewrite Hl.
  replace (date t <? date now) with true by (symmetry; by apply Z.ltb_lt).
  cbn -[Z.leb]. rewrite Z.add_0_l. by destruct (9500 <=? cost).
Qed.

(** The invariant carried along [track_times]: after [m] calls of cost
    [C] on one day the row holds [m * C]. *)
Lemma track_times_same_day (clks : list clock) (C t0 : Z) :
  forall (m : nat) (s : State) (row : APIKeyUsage),
    active_usage w s = Some row ->
    quota_used row = Z.of_nat m * C ->
    is_exhausted row = (9500 <=? Z.of_nat m * C) ->
    last_reset row = Some t0 ->
    Forall (fun clk => date (localnow clk) = date t0) clks ->
    exists row',
      active_usage w (track_times w clks C s) = Some row' /\
      quota_used row' = Z.of_nat (m + length clks) * C /\
      is_exhausted row' = (9500 <=? Z.of_nat (m + length clks) * C) /\
      last_reset row' = Some t0.
Proof.
  induction clks as [|clk clks IH]; intros m s row Hrow Hq He Hl Hall.
  - exists row. simpl. rewrite Nat.add_0_r. auto.
  - apply Forall_cons in Hall as [Hd Hall]. simpl.
    pose proof (track_active_usage clk C s row Hrow) as Hrow1.
    rewrite (touch_usage_same_day _ _ _ t0 Hl Hd) in Hrow1.
    destruct (IH (S m) _ _ Hrow1) as (row' & H1 & H2 & H3 & H4); simpl; auto.
    + rewrite Hq. lia.
    + rewrite He, Hq.
      destruct (9500 <=? Z.of_nat m * C + C) eqn:E1;
        destruct (9500 <=? Z.of_nat m * C) eqn:E2;
        destruct (9500 <=? Z.of_nat (S m) * C) eqn:E3; try reflexivity;
        rewrite ?Z.leb_le, ?Z.leb_gt in *; nia.
    + exists row'. replace (m + S (length clks))%nat with (S m + length clks)%nat by lia.
      auto.
Qed.
End Ledger.

(** C3. On a ledger row of the active credential that starts fresh (zero
    usage, not exhausted, last reset today), [N] calls of [_track_api_usage]
    with cost [C] on that day leave usage exactly [N * C] and the exhausted
    flag set iff [N * C >= 9500]. And a call on a row whose last-reset date is
    before the current date stores exactly the new cost (usage was reset to 0
    first), with the flag recomputed from a cleared one and the reset
    timestamp moved to now. *)
Theorem track_usage_ledger (w : World) :
  (forall (s : State) (row : APIKeyUsage) (t0 : Z) (clks : list clock) (C : Z),
      active_usage w s = Some row ->
      quota_used row = 0 -> is_exhausted row = false -> last_reset row = Some t0 ->
      Forall (fun clk => date (localnow clk) = date t0) clks ->
      exists row',
        active_usage w (track_times w clks C s) = Some row' /\
        quota_used row' = Z.of_nat (length clks) * C /\
        (is_exhausted row' = true <-> Z.of_nat (length clks) * C >= 9500)) /\
  (forall (s : State) (row : APIKeyUsage) (t : Z) (clk : clock) (C : Z),
      active_usage w s = Some row ->
      last_reset row = Some t -> date t < date (localnow clk) ->
      exists row',
        active_usage w (snd (_track_api_usage w clk C s)) = Some row' /\
        quota_used row' = 0 + C /\
        (is_exhausted row' = true <-> C >= 9500) /\
        last_reset row' = Some (localnow clk)).
Proof.
  split.
  - intros s row t0 clks C Hrow Hq He Hl Hall.
    destruct (track_times_same_day w clks C t0 0%nat s row) as (row' & H1 & H2 & H3 & _);
      auto.
    exists row'. simpl in *. split; [exact H1|]. split; [exact H2|].
    rewrite H3, Z.leb_le. lia.
  - intros s row t clk C Hrow Hl Hd.
    exists (touch_usage (localnow clk) C row).
    split; [by apply track_active_usage|].
    rewrite (touch_usage_new_day _ _ _ t Hl Hd). simpl.
    rewrite Z.leb_le. repeat split; auto; lia.
Qed.

Lemma track_usage_ledger_witness :
  active_usage world_two_videos service_with_ledger = Some fresh_usage /\
  quota_used fresh_usage = 0 /\
  is_exhausted fresh_usage = false /\
  last_reset fresh_usage = Some (localnow noon) /\
  Forall (fun clk => date (localnow clk) = date (localnow noon)) [noon; noon; noon] /\
  date (localnow noon) < date (localnow next_day) /\
  (exists row',
      active_usage world_two_videos
        (track_times world_two_videos [noon; noon; noon] 4000 service_with_ledger)
      = Some row' /\
      quota_used row' = Z.of_nat (length [noon; noon; noon]) * 4000 /\
      (is_exhausted row' = true <-> Z.of_nat (length [noon; noon; noon]) * 4000 >= 9500)) /\
  (exists row',
      active_usage world_two_videos
        (snd (_track_api_usage world_two_videos next_day 7 service_with_ledger))
      = Some row' /\
      quota_used row' = 0 + 7 /\
      (is_exhausted row' = true <-> 7 >= 9500) /\
      last_reset row' = Some (localnow next_day)).
Proof.
  assert (H1 : active_usage world_two_videos service_with_ledger = Some fresh_usage)
    by reflexivity.
  assert (H2 : Forall (fun clk => date (localnow clk) = date (localnow noon))
                 [noon; noon; noon]) by (repeat constructor).
  assert (H3 : date (localnow noon) < date (localnow next_day)) by (vm_compute; reflexivity).
  split; [exact H1|]. split; [reflexivity|]. split; [reflexivity|]. split; [reflexivity|].
  split; [exact H2|]. split; [exact H3|]. split.
  - exact (proj1 (track_usage_ledger world_two_videos) service_with_ledger fresh_usage
             (localnow noon) [noon; noon; noon] 4000 H1 eq_refl eq_refl eq_refl H2).
  - exact (proj2 (track_usage_ledger world_two_videos) service_with_ledger fresh_usage
             (localnow noon) next_day 7 H1 eq_refl H3).
Defined.

(* ===================================================================== *)
(** * The upsert store                                                    *)
(* ===================================================================== *)

Section MoreLookups.
Context {A : Type} (p : A -> bool).

Lemma first_index_insert_other (l : list A) (i : nat) (x y : A) :
  l !! i = Some x -> p x = false -> p y = false ->
  first_index p (<[i := y]> l) = first_index p l.
Proof.
  revert i. induction l as [|z l IH]; intros [|i]; simpl; try discriminate.
  - intros [= ->] Hx Hy. by rewrite Hx, Hy.
  - intros Hl Hx Hy. by rewrite (IH i Hl Hx Hy).
Qed.

Lemma first_index_app_other (l : list A) (y : A) :
  p y = false -> first_index p (l ++ [y]) = first_index p l.
Proof.
  intros Hy. induction l as [|z l IH]; simpl.
  - by rewrite Hy.
  - by rewrite IH.
Qed.

Lemma filter_insert_other (l : list A) (i : nat) (x y : A) :
  l !! i = Some x -> p x = p y ->
  length (List.filter p (<[i := y]> l)) = length (List.filter p l).
Proof.
  revert i. induction l as [|z l IH]; intros [|i]; simpl; try discriminate.
  - intros [= ->] ->. by destruct (p y).
  - intros Hl Hxy. destruct (p z); simpl; by rewrite (IH i Hl Hxy).
Qed.
End MoreLookups.

Section Upsert.

Lemma has_video_id_true (vid : string) (v : Video) :
  has_video_id vid v = true <-> video_id v = vid.
Proof. unfold has_video_id. apply String.eqb_eq. Qed.

Lemma has_video_id_false (vid : string) (v : Video) :
  has_video_id vid v = false <-> video_id v <> vid.
Proof. unfold has_video_id. apply String.eqb_neq. Qed.

Lemma lookup_video_None (vid : string) (tbl : list Video) :
  lookup_video vid tbl = None <-> vid ∉ map video_id tbl.
Proof.
  unfold lookup_video. rewrite fmap_None, first_index_None.
  induction tbl as [|v tbl IH]; simpl.
  - split; [intros _; apply not_elem_of_nil | done].
  - rewrite not_elem_of_cons. destruct (has_video_id vid v) eqn:Hv.
    + apply has_video_id_true in Hv. split; [discriminate | intros [? _]; congruence].
    + apply has_video_id_false in Hv. rewrite IH. split; [split; [congruence|tauto] | tauto].
Qed.

(** Under the unique constraint the rows carrying an id are at most the
    one that the lookup returns. *)
Lemma rows_with_unique (vid : string) (tbl : list Video) :
  NoDup (map video_id tbl) ->
  rows_with vid tbl = match lookup_video vid tbl with Some _ => 1%nat | None => 0%nat end.
Proof.
  unfold rows_with, lookup_video. induction tbl as [|v tbl IH]; simpl; [done|].
  intros [Hnotin Hnd]%NoDup_cons. destruct (has_video_id vid v) eqn:Hv; simpl.
  - apply has_video_id_true in Hv. subst vid.
    apply lookup_video_None in Hnotin. unfold lookup_video in Hnotin.
    apply fmap_None, first_index_None in Hnotin. by rewrite Hnotin.
  - rewrite (IH Hnd). by destruct (first_index _ tbl) as [[j u]|].
Qed.

Lemma update_video_keeps (now : Z) (vd : video_data) (old : Video) :
  vd_video_id vd = video_id old ->
  let row := update_video now vd old in
  holds_item vd row /\ id row = id old /\ created_at row = created_at old /\
  duration row = merged_duration vd (duration old) /\
  view_count row = merged_view_count vd (view_count old).
Proof.
  intros Hid. unfold update_video. case_decide as Heq.
  - pose proof (f_equal title Heq). pose proof (f_equal description Heq).
    pose proof (f_equal published_at Heq). pose proof (f_equal thumbnail_default Heq).
    pose proof (f_equal thumbnail_medium Heq). pose proof (f_equal thumbnail_high Heq).
    pose proof (f_equal channel_id Heq). pose proof (f_equal channel_title Heq).
    pose proof (f_equal duration Heq) as Hd. pose proof (f_equal view_count Heq) as Hv.
    unfold holds_item, merged_duration, merged_view_count. simpl in *.
    repeat split; try done; by destruct (vd_details vd).
  - unfold holds_item, merged_duration, merged_view_count. simpl.
    by destruct (vd_details vd).
Qed.

Lemma map_insert_same {A B : Type} (f : A -> B) (l : list A) (i : nat) (x y : A) :
  l !! i = Some x -> f y = f x -> map f (<[i := y]> l) = map f l.
Proof.
  revert i. induction l as [|z l IH]; intros [|i]; simpl; try discriminate.
  - intros [= ->] ->. reflexivity.
  - intros Hl Hf. by rewrite (IH i Hl Hf).
Qed.

(** What one pass of the loop body does to a table that satisfies the
    unique constraint on [video_id]. *)
Lemma upsert_spec (now : Z) (vd : video_data) (tbl : list Video) :
  NoDup (map video_id tbl) ->
  NoDup (map video_id (fst (upsert now vd tbl))) /\
  rows_with (vd_video_id vd) (fst (upsert now vd tbl)) = 1%nat /\
  (forall vid, vid <> vd_video_id vd ->
     lookup_video vid (fst (upsert now vd tbl)) = lookup_video vid tbl) /\
  exists row,
    lookup_video (vd_video_id vd) (fst (upsert now vd tbl)) = Some row /\
    holds_item vd row /\
    match lookup_video (vd_video_id vd) tbl with
    | None =>
        snd (upsert now vd tbl) = true /\
        length (fst (upsert now vd tbl)) = S (length tbl) /\
        duration row = fst <$> vd_details vd /\
        view_count row = snd <$> vd_details vd /\
        created_at row = now
    | Some old =>
        snd (upsert now vd tbl) = false /\
        length (fst (upsert now vd tbl)) = length tbl /\
        id row = id old /\
        created_at row = created_at old /\
        duration row = merged_duration vd (duration old) /\
        view_count row = merged_view_count vd (view_count old)
    end.
Proof.
  intros Hnd.
  assert (Hold : lookup_video (vd_video_id vd) tbl
                 = snd <$> first_index (has_video_id (vd_video_id vd)) tbl) by done.
  rewrite Hold. clear Hold. unfold upsert.
  destruct (first_index (has_video_id (vd_video_id vd)) tbl) as [[i old]|] eqn:Hf; simpl.
  - destruct (first_index_Some _ _ _ _ Hf) as (Hi & Hp & _).
    apply has_video_id_true in Hp.
    destruct (update_video_keeps now vd old (eq_sym Hp)) as (Hh & Hid & Hc & Hd & Hv).
    set (row := update_video now vd old) in *.
    assert (Hrow : video_id row = video_id old) by (destruct Hh as [-> _]; done).
    assert (Hnd' : NoDup (map video_id (<[i := row]> tbl)))
      by (by rewrite (map_insert_same video_id tbl i old row Hi Hrow)).
    assert (Hlk : lookup_video (vd_video_id vd) (<[i := row]> tbl) = Some row).
    { unfold lookup_video. erewrite first_index_insert; eauto.
      apply has_video_id_true. congruence. }
    split; [exact Hnd'|]. split; [by rewrite rows_with_unique, Hlk|].
    split.
    + intros vid Hne. unfold lookup_video.
      rewrite (first_index_insert_other _ tbl i old row Hi); auto;
        apply has_video_id_false; congruence.
    + exists row. rewrite length_insert. auto 10.
  - set (row := new_video now (next_id (map id tbl)) vd).
    assert (Hnone : vd_video_id vd ∉ map video_id tbl).
    { apply lookup_video_None. unfold lookup_video. by rewrite Hf. }
    assert (Hnd' : NoDup (map video_id (tbl ++ [row]))).
    { rewrite map_app. apply NoDup_app. split; [exact Hnd|]. split.
      - intros x Hx [->|[]%elem_of_nil]%elem_of_cons. by apply Hnone.
      - apply NoDup_singleton. }
    assert (Hlk : lookup_video (vd_video_id vd) (tbl ++ [row]) = Some row).
    { unfold lookup_video. rewrite first_index_app_new; auto.
      by apply has_video_id_true. }
    split; [exact Hnd'|]. split; [by rewrite rows_with_unique, Hlk|].
    split.
    + intros vid Hne. unfold lookup_video. rewrite first_index_app_other; auto.
      apply has_video_id_false. simpl. congruence.
    + exists row. rewrite length_app, Nat.add_1_r. unfold holds_item. simpl. auto 15.
Qed.

Lemma upsert_length (now : Z) (vd : video_data) (tbl : list Video) :
  length (fst (upsert now vd tbl))
  = (length tbl + if snd (upsert now vd tbl) then 1 else 0)%nat.
Proof.
  unfold upsert.
  destruct (first_index (has_video_id (vd_video_id vd)) tbl) as [[i old]|]; simpl.
  - rewrite length_insert. lia.
  - by rewrite length_app.
Qed.

(** The counter of the loop grows by one exactly when a row is created. *)
Lemma store_videos_count (now : Z) (vds : list video_data) :
  forall (tbl : list Video) (n : nat),
    (length (fst (store_videos now vds tbl n)) + n
     = length tbl + snd (store_videos now vds tbl n))%nat.
Proof.
  induction vds as [|vd vds IH]; intros tbl n; simpl; [lia|].
  pose proof (upsert_length now vd tbl) as Hlen.
  destruct (upsert now vd tbl) as [tbl1 created]. simpl in Hlen.
  specialize (IH tbl1 (if created then S n else n)).
  destruct created; lia.
Qed.
End Upsert.


(* ===================================================================== *)
(** * The first-page exits of fetch_videos                                *)
(* ===================================================================== *)

Section ShortCircuit.
Variable w : World.

(** A first-page exit ends the call at once, in the state it started in. *)
Lemma fetch_videos_shortcut (clk : clock) (qr : string) (max_results : Z)
    (page_token : option string) (s : State) (r : fetch_result) :
  is_Some (youtube s) ->
  first_page_shortcut w (utcnow clk) (cache s) qr page_token = Some r ->
  fetch_videos w clk qr max_results page_token s = (inr r, s).
Proof.
  intros [key Hkey] Hshort.
  unfold fetch_videos, attempts_left. simpl.
  unfold fetch_attempt. rewrite Hkey.
  unfold fetch_try, bind, get. by rewrite Hshort.
Qed.
End ShortCircuit.

(** C7 as stated fails. Without a client the call raises before it looks
    at the cache, although the skip marker is set; and a fresh cache entry
    whose results object is empty does not end the call: the search is
    issued and charged, and the result is not flagged cached. *)
Lemma short_circuit_needs_client :
  (truthy_str None = false /\
   should_skip_query (cache service_without_client) (utcnow early) "cats" 6 = true /\
   fetch_videos world_two_videos early "cats" 25 None service_without_client
   = (inl (Exception "YouTube API client not initialized"), service_without_client)) /\
  (should_skip_query (cache service_with_empty_results) (utcnow early) "cats" 6 = false /\
   get_cached_search_results (md5_hex world_two_videos)
     (cache service_with_empty_results) (utcnow early) "cats" = Some no_results /\
   exists (res : fetch_result) (s' : State),
     fetch_videos world_two_videos early "cats" 25 None service_with_empty_results
     = (inr res, s') /\
     cached res = false /\
     search_keys (trace s') = ["k1"] /\
     map quota_used (api_key_usage (committed (db s'))) = [101]).
Proof.
  split.
  - split; [reflexivity|]. split; vm_compute; reflexivity.
  - split; [vm_compute; reflexivity|]. split; [vm_compute; reflexivity|].
    eexists _, _. split; [vm_compute; reflexivity|].
    vm_compute. repeat split; reflexivity.
Qed.

(** C7, as amended. On a service whose client is initialised, a call
    without a continuation token whose skip check answers yes returns the
    empty result flagged skipped and cached; otherwise, when the search cache
    hands back a fresh entry whose results object is not empty, the call
    returns its items flagged cached. In both cases the state after the call
    is the state before it: no remote call was issued, no quota was charged,
    neither the tables nor the query-fetch state nor the cache were
    written. *)
Theorem first_page_short_circuit (w : World) (clk : clock) (qr : string)
    (max_results : Z) (page_token : option string) (s : State) :
  is_Some (youtube s) ->
  truthy_str page_token = false ->
  (should_skip_query (cache s) (utcnow clk) qr 6 = true ->
   fetch_videos w clk qr max_results page_token s = (inr skipped_result, s) /\
   items skipped_result = [] /\ skipped skipped_result = true) /\
  (should_skip_query (cache s) (utcnow clk) qr 6 = false ->
   forall r : results_dict,
     get_cached_search_results (md5_hex w) (cache s) (utcnow clk) qr = Some r ->
     dict_truthy r = true ->
     fetch_videos w clk qr max_results page_token s = (inr (cached_result r), s) /\
     items (cached_result r) = default [] (rd_items r) /\
     cached (cached_result r) = true).
Proof.
  intros Hclient Htoken. split.
  - intros Hskip. split; [|done].
    apply fetch_videos_shortcut; [done|].
    unfold first_page_shortcut. by rewrite Htoken, Hskip.
  - intros Hskip r Hcached Htruthy. split; [|done].
    apply fetch_videos_shortcut; [done|].
    unfold first_page_shortcut. by rewrite Htoken, Hskip, Hcached, Htruthy.
Qed.

Lemma first_page_short_circuit_witness :
  is_Some (youtube service_with_marker) /\
  is_Some (youtube service_with_results) /\
  truthy_str None = false /\
  should_skip_query (cache service_with_marker) (utcnow early) "cats" 6 = true /\
  should_skip_query (cache service_with_results) (utcnow early) "cats" 6 = false /\
  get_cached_search_results (md5_hex world_two_videos) (cache service_with_results)
    (utcnow early) "cats" = Some cached_cats /\
  dict_truthy cached_cats = true /\
  fetch_videos world_two_videos early "cats" 25 None service_with_marker
  = (inr skipped_result, service_with_marker) /\
  fetch_videos world_two_videos early "cats" 25 None service_with_results
  = (inr (cached_result cached_cats), service_with_results).
Proof.
  assert (H1 : is_Some (youtube service_with_marker)) by (by eexists).
  assert (H2 : is_Some (youtube service_with_results)) by (by eexists).
  assert (H3 : should_skip_query (cache service_with_marker) (utcnow early) "cats" 6
               = true) by (vm_compute; reflexivity).
  assert (H4 : should_skip_query (cache service_with_results) (utcnow early) "cats" 6
               = false) by (vm_compute; reflexivity).
  assert (H5 : get_cached_search_results (md5_hex world_two_videos)
                 (cache service_with_results) (utcnow early) "cats" = Some cached_cats)
    by (vm_compute; reflexivity).
  split; [exact H1|]. split; [exact H2|]. split; [reflexivity|]. split; [exact H3|].
  split; [exact H4|]. split; [exact H5|]. split; [reflexivity|]. split.
  - exact (proj1 (proj1 (first_page_short_circuit world_two_videos early "cats" 25 None
                           service_with_marker H1 eq_refl) H3)).
  - exact (proj1 (proj2 (first_page_short_circuit world_two_videos early "cats" 25 None
                           service_with_results H2 eq_refl) H4 cached_cats H5 eq_refl)).
Defined.

(* ===================================================================== *)
(** * Reasoning about monadic code                                        *)
(* ===================================================================== *)

Section Preserves.
Context (R : State -> State -> Prop) `{!PreOrder R}.

Lemma preserves_ret {A : Type} (a : A) : preserves R (ret a).
Proof. intros s r s' [= <- <-]. reflexivity. Qed.

Lemma preserves_raise {A : Type} (e : exn) : preserves R (@raise A e).
Proof. intros s r s' [= <- <-]. reflexivity. Qed.

Lemma preserves_lift {A : Type} (x : exn + A) : preserves R (lift x).
Proof. intros s r s' [= <- <-]. reflexivity. Qed.

Lemma preserves_get : preserves R get.
Proof. intros s r s' [= <- <-]. reflexivity. Qed.

Lemma preserves_bind {A B : Type} (m : M A) (k : A -> M B) :
  preserves R m -> (forall a, preserves R (k a)) -> preserves R (bind m k).
Proof.
  intros Hm Hk s r s' Hrun. unfold bind in Hrun.
  destruct (m s) as [[e|a] s1] eqn:Hms.
  - injection Hrun as <- <-. by eapply Hm.
  - etransitivity; [by eapply Hm | by eapply Hk].
Qed.
End Preserves.

#[local] Instance frame_preorder : PreOrder frame.
Proof.
  split.
  - intros s. by split.
  - intros s1 s2 s3 [] []. split; try congruence; [lia | auto].
Qed.

#[local] Instance video_quiet_preorder : PreOrder video_quiet.
Proof.
  split.
  - intros s Hc. split; [done|]. split; [done|]. exists []. by rewrite app_nil_r.
  - intros s1 s2 s3 H12 H23 Hc.
    destruct (H12 Hc) as (Hc2 & Hv2 & evs2 & Ht2 & Hf2).
    destruct (H23 Hc2) as (Hc3 & Hv3 & evs3 & Ht3 & Hf3).
    split; [done|]. split; [congruence|].
    exists (evs2 ++ evs3). split; [by rewrite Ht3, Ht2, app_assoc|].
    apply Forall_app. split; [done|]. by rewrite <- Hv2.
Qed.

#[local] Instance within_0_preorder : PreOrder (within 0).
Proof.
  split.
  - intros s. unfold within. lia.
  - intros s1 s2 s3. unfold within. lia.
Qed.

Lemma within_bind {A B : Type} (a b : nat) (m : M A) (k : A -> M B) :
  preserves (within a) m -> (forall x, preserves (within b) (k x)) ->
  preserves (within (a + b)) (bind m k).
Proof.
  intros Hm Hk s r s' Hrun. unfold bind in Hrun.
  destruct (m s) as [[e|x] s1] eqn:Hms.
  - injection Hrun as <- <-. apply Hm in Hms. unfold within in *. lia.
  - apply Hm in Hms. apply Hk in Hrun. unfold within in *. lia.
Qed.

Lemma searches_emit (e : event) (s : State) :
  searches (emit e s) = (searches s + if is_search e then 1 else 0)%nat.
Proof.
  unfold searches, count_events. simpl. rewrite List.filter_app, length_app. simpl.
  by destruct (is_search e).
Qed.

(* ===================================================================== *)
(** * The steps of fetch_videos                                           *)
(* ===================================================================== *)

Section Steps.
Variable w : World.

Lemma initialize_fields (s : State) :
  let s' := _initialize_youtube_client w s in
  api_keys s' = api_keys s /\ current_key_index s' = current_key_index s /\
  db s' = db s /\ cache s' = cache s /\ trace s' = trace s /\
  (is_Some (youtube s) -> is_Some (youtube s')).
Proof.
  unfold _initialize_youtube_client.
  destruct (api_keys s !! current_key_index s) as [api_key|]; [|done].
  destruct (build_ok w api_key); simpl; auto 10.
Qed.

Lemma switch_fields (s : State) :
  let s' := snd (_switch_api_key w s) in
  api_keys s' = api_keys s /\ current_key_index s' = S (current_key_index s) /\
  db s' = db s /\ cache s' = cache s /\ trace s' = trace s /\
  (is_Some (youtube s) -> is_Some (youtube s')) /\
  (fst (_switch_api_key w s) = true <->
   (S (current_key_index s) < length (api_keys s))%nat).
Proof.
  unfold _switch_api_key. simpl.
  destruct (S (current_key_index s) <? length (api_keys s))%nat eqn:Hlt; simpl.
  - apply Nat.ltb_lt in Hlt.
    destruct (initialize_fields (set_current_key_index (S (current_key_index s)) s))
      as (? & ? & ? & ? & ? & ?).
    repeat split; auto.
  - apply Nat.ltb_ge in Hlt. repeat split; auto; try discriminate. lia.
Qed.

Lemma switch_frame (s : State) : frame s (snd (_switch_api_key w s)).
Proof.
  destruct (switch_fields s) as (? & ? & ? & ? & ? & ? & ?). split; auto. lia.
Qed.

Lemma switch_quiet (s : State) : video_quiet s (snd (_switch_api_key w s)).
Proof.
  destruct (switch_fields s) as (_ & _ & Hdb & _ & Htr & _).
  intros Hc. unfold clean in *. rewrite Hdb, Htr.
  split; [done|]. split; [done|]. exists []. by rewrite app_nil_r.
Qed.

Lemma switch_within (s : State) : within 0 s (snd (_switch_api_key w s)).
Proof.
  destruct (switch_fields s) as (_ & _ & _ & _ & Htr & _).
  unfold within, searches. rewrite Htr. lia.
Qed.

(** *** check_quota_mirror *)

Lemma check_quota_mirror_run (R : State -> State -> Prop) `{!PreOrder R} (now : Z) :
  (forall s, R s (snd (_switch_api_key w s))) ->
  preserves R (check_quota_mirror w now).
Proof.
  intros Hsw s r s' Hrun. unfold check_quota_mirror in Hrun.
  destruct (quota_exhausted_in_cache _ _ _ _).
  - specialize (Hsw s). destruct (_switch_api_key w s) as [[|] s1];
      injection Hrun as <- <-; exact Hsw.
  - injection Hrun as <- <-. reflexivity.
Qed.

(** *** The remote calls *)

Lemma emit_frame (e : event) (s : State) : frame s (emit e s).
Proof. by split. Qed.

Lemma emit_remote_quiet (e : event) (s : State) :
  is_commit e = false -> video_quiet s (emit e s).
Proof.
  intros He Hc. split; [done|]. split; [done|].
  exists [e]. split; [done|]. apply Forall_singleton. by destruct e.
Qed.

Lemma call_search_frame (req : search_request) : preserves frame (call_search w req).
Proof.
  intros s r s' Hrun. unfold call_search in Hrun.
  destruct (youtube s); injection Hrun as <- <-; [apply emit_frame | reflexivity].
Qed.

Lemma call_search_quiet (req : search_request) :
  preserves video_quiet (call_search w req).
Proof.
  intros s r s' Hrun. unfold call_search in Hrun.
  destruct (youtube s); injection Hrun as <- <-;
    [by apply emit_remote_quiet | reflexivity].
Qed.

Lemma call_search_within (req : search_request) :
  preserves (within 1) (call_search w req).
Proof.
  intros s r s' Hrun. unfold call_search in Hrun. unfold within.
  destruct (youtube s); injection Hrun as <- <-; [|lia].
  rewrite searches_emit. simpl. lia.
Qed.

Lemma call_videos_list_frame (ids : list string) :
  preserves frame (call_videos_list w ids).
Proof.
  intros s r s' Hrun. unfold call_videos_list in Hrun.
  destruct (youtube s); injection Hrun as <- <-; [apply emit_frame | reflexivity].
Qed.

Lemma call_videos_list_quiet (ids : list string) :
  preserves video_quiet (call_videos_list w ids).
Proof.
  intros s r s' Hrun. unfold call_videos_list in Hrun.
  destruct (youtube s); injection Hrun as <- <-;
    [by apply emit_remote_quiet | reflexivity].
Qed.

Lemma call_videos_list_within (ids : list string) :
  preserves (within 0) (call_videos_list w ids).
Proof.
  intros s r s' Hrun. unfold call_videos_list in Hrun. unfold within.
  destruct (youtube s); injection Hrun as <- <-; [|lia].
  rewrite searches_emit. simpl. lia.
Qed.

(** *** Commits and the ledger *)

Lemma db_commit_run (s : State) :
  db_commit s
  = (inr tt, emit (EvCommit (session (db s))) (set_db (commit (db s)) s)).
Proof. reflexivity. Qed.

Lemma track_frame (clk : clock) (cost : Z) : preserves frame (_track_api_usage w clk cost).
Proof.
  intros s r s' Hrun. unfold _track_api_usage in Hrun.
  destruct (api_keys s !! current_key_index s); injection Hrun as <- <-; by split.
Qed.

Lemma track_within (clk : clock) (cost : Z) :
  preserves (within 0) (_track_api_usage w clk cost).
Proof.
  intros s r s' Hrun. unfold _track_api_usage in Hrun. unfold within.
  destruct (api_keys s !! current_key_index s); injection Hrun as <- <-; [|lia].
  rewrite searches_emit. simpl. unfold searches. simpl. lia.
Qed.

(** A charge is committed at once and leaves the video table alone. *)
Lemma track_quiet (clk : clock) (cost : Z) :
  preserves video_quiet (_track_api_usage w clk cost).
Proof.
  intros s r s' Hrun. unfold _track_api_usage in Hrun.
  destruct (api_keys s !! current_key_index s); injection Hrun as <- <-;
    [|reflexivity].
  intros Hc. split; [done|]. split; [done|].
  eexists [_]. split; [done|]. by apply Forall_singleton.
Qed.

(** *** The remote part *)

Lemma fetch_details_run (R : State -> State -> Prop) `{!PreOrder R}
    (clk : clock) (vds : list video_data) :
  (forall ids, preserves R (call_videos_list w ids)) ->
  (forall cost, preserves R (_track_api_usage w clk cost)) ->
  preserves R (fetch_details w clk vds).
Proof.
  intros Hcall Htrack. destruct vds as [|vd vds]; [by apply preserves_ret|].
  unfold fetch_details.
  apply preserves_bind; [done | apply Hcall | intros resp].
  apply preserves_bind; [done | apply Htrack | intros _].
  apply preserves_bind; [done | by apply preserves_lift | intros m].
  by apply preserves_ret.
Qed.

Lemma fetch_remote_run (R : State -> State -> Prop) `{!PreOrder R}
    (clk : clock) (qr : string) (max_results : Z) (page_token : option string) :
  (forall s, R s (snd (_switch_api_key w s))) ->
  (forall req, preserves R (call_search w req)) ->
  (forall ids, preserves R (call_videos_list w ids)) ->
  (forall cost, preserves R (_track_api_usage w clk cost)) ->
  preserves R (fetch_remote w clk qr max_results page_token).
Proof.
  intros Hsw Hsearch Hcall Htrack. unfold fetch_remote.
  apply preserves_bind; [done | by apply check_quota_mirror_run | intros _].
  apply preserves_bind; [done | apply Hsearch | intros resp].
  apply preserves_bind; [done | apply Htrack | intros _].
  apply preserves_bind; [done | by apply preserves_lift | intros parsed_videos].
  apply preserves_bind; [done | by apply fetch_details_run | intros vds].
  by apply preserves_ret.
Qed.

Lemma fetch_remote_frame (clk : clock) (qr : string) (max_results : Z)
    (page_token : option string) :
  preserves frame (fetch_remote w clk qr max_results page_token).
Proof.
  apply fetch_remote_run; [apply _ | apply switch_frame | apply call_search_frame
    | apply call_videos_list_frame | apply track_frame].
Qed.

Lemma fetch_remote_quiet (clk : clock) (qr : string) (max_results : Z)
    (page_token : option string) :
  preserves video_quiet (fetch_remote w clk qr max_results page_token).
Proof.
  apply fetch_remote_run; [apply _ | apply switch_quiet | apply call_search_quiet
    | apply call_videos_list_quiet | apply track_quiet].
Qed.

(** One activation issues at most one search call. *)
Lemma fetch_remote_within (clk : clock) (qr : string) (max_results : Z)
    (page_token : option string) :
  preserves (within 1) (fetch_remote w clk qr max_results page_token).
Proof.
  unfold fetch_remote.
  apply (within_bind 0 1);
    [apply check_quota_mirror_run; [apply _ | apply switch_within] | intros _].
  apply (within_bind 1 0); [apply call_search_within | intros resp].
  apply preserves_bind; [apply _ | apply track_within | intros _].
  apply preserves_bind; [apply _ | by apply preserves_lift; apply _ | intros pv].
  apply preserves_bind; [apply _ | | intros vds; apply preserves_ret; apply _].
  apply fetch_details_run;
    [apply _ | apply call_videos_list_within | apply track_within].
Qed.

(** *** The store part *)

(** [persist] cannot raise: it writes the batch, commits, writes the
    query-fetch state and commits again. *)
Lemma persist_run (now : Z) (qr : string) (resp : search_response)
    (vds : list video_data) (s : State) :
  exists (r : fetch_result) (t1 t2 : Tables),
    persist now qr resp vds s
    = (inr r, emit (EvCommit t2) (set_db {| committed := t2; session := t2 |}
                 (emit (EvCommit t1) s))) /\
    videos t1 = fst (store_videos now vds (videos (session (db s))) 0) /\
    videos t2 = videos t1 /\
    api_key_usage t2 = api_key_usage (session (db s)) /\
    stored_count r = Some (snd (store_videos now vds (videos (session (db s))) 0)) /\
    items r = vds.
Proof.
  unfold persist, bind, store_batch, db_commit, record_fetch_state, modify, ret.
  destruct (store_videos now vds (videos (session (db s))) 0) as [tbl n] eqn:Hst.
  simpl. eexists _, _, _. split; [reflexivity|]. simpl. auto.
Qed.

Lemma quiet_split (s s' : State) : video_quiet s s' -> video_split s s'.
Proof.
  intros Hq Hc. destruct (Hq Hc) as (Hc' & Hv & evs & Ht & Hf).
  split; [done|]. exists evs, []. rewrite app_nil_r. by rewrite Hv.
Qed.

Lemma quiet_then_split (s s1 s2 : State) :
  video_quiet s s1 -> video_split s1 s2 -> video_split s s2.
Proof.
  intros Hq Hs Hc. destruct (Hq Hc) as (Hc1 & Hv & evs & Ht & Hf).
  destruct (Hs Hc1) as (Hc2 & before & after & Ht2 & Hb & Ha).
  split; [done|]. exists (evs ++ before), after.
  split; [by rewrite Ht2, Ht, !app_assoc|].
  split; [|done]. apply Forall_app. split; [done|]. by rewrite <- Hv.
Qed.

Lemma persist_props (now : Z) (qr : string) (resp : search_response)
    (vds : list video_data) (s : State) (r : exn + fetch_result) (s' : State) :
  persist now qr resp vds s = (r, s') ->
  frame s s' /\ within 0 s s' /\ video_split s s' /\ (forall e, r <> inl e).
Proof.
  destruct (persist_run now qr resp vds s) as (x & t1 & t2 & -> & Hv1 & Hv2 & _).
  intros [= <- <-]. split; [by split|]. split.
  - unfold within. rewrite !searches_emit. simpl. unfold searches. simpl.
    unfold count_events. rewrite List.filter_app, length_app. simpl. lia.
  - split; [|done]. intros Hc. split; [done|].
    exists [], [EvCommit t1; EvCommit t2]. simpl.
    split; [by rewrite <- app_assoc|]. split; [done|].
    repeat constructor; simpl; congruence.
Qed.

(** *** One activation *)

Lemma fetch_try_props (clk : clock) (qr : string) (max_results : Z)
    (page_token : option string) (s : State) (r : exn + fetch_result) (s' : State) :
  fetch_try w clk qr max_results page_token s = (r, s') ->
  frame s s' /\ within 1 s s' /\ video_split s s' /\
  (forall e, r = inl e -> video_quiet s s').
Proof.
  unfold fetch_try, bind, get.
  destruct (first_page_shortcut w (utcnow clk) (cache s) qr page_token) as [x|].
  - intros [= <- <-]. split; [reflexivity|]. split; [unfold within; lia|].
    split; [apply quiet_split|]; reflexivity.
  - destruct (fetch_remote w clk qr max_results page_token s) as [[e|[resp vds]] s1]
      eqn:Hrem.
    + intros [= <- <-].
      split; [by eapply fetch_remote_frame|]. split; [by eapply fetch_remote_within|].
      split; [apply quiet_split|intros _ _]; by eapply fetch_remote_quiet.
    + simpl. intros Hper.
      destruct (persist_props _ _ _ _ _ _ _ Hper) as (Hf & Hw & Hs & Hne).
      split; [etransitivity; [by eapply fetch_remote_frame | done]|].
      split.
      * apply fetch_remote_within in Hrem. unfold within in *. lia.
      * split; [|intros e ->; by destruct (Hne e)].
        eapply quiet_then_split; [by eapply fetch_remote_quiet | done].
Qed.

Lemma fetch_attempt_props (clk : clock) (qr : string) (max_results : Z)
    (page_token : option string) (s : State) (out : outcome) (s' : State) :
  fetch_attempt w clk qr max_results page_token s = (out, s') ->
  frame s s' /\ within 1 s s' /\ video_split s s' /\
  ((forall r, out <> Return r) -> video_quiet s s') /\
  (out = Retry ->
   (current_key_index s < current_key_index s' < length (api_keys s))%nat).
Proof.
  unfold fetch_attempt. destruct (youtube s) as [key|].
  2:{ intros [= <- <-]. split; [reflexivity|]. split; [unfold within; lia|].
      split; [apply quiet_split; reflexivity|]. split; [reflexivity|discriminate]. }
  destruct (fetch_try w clk qr max_results page_token s) as [[e|r] s1] eqn:Htry;
    destruct (fetch_try_props _ _ _ _ _ _ _ Htry) as (Hf & Hw & Hs & Hq).
  2:{ intros [= <- <-]. split; [done|]. split; [done|]. split; [done|].
      split; [intros Hne; by destruct (Hne r) | discriminate]. }
  specialize (Hq e eq_refl).
  assert (Hraise : forall e', (Raise e', s1) = (out, s') ->
            frame s s' /\ within 1 s s' /\ video_split s s' /\
            ((forall r, out <> Return r) -> video_quiet s s') /\
            (out = Retry ->
             (current_key_index s < current_key_index s' < length (api_keys s))%nat)).
  { intros e' [= <- <-]. split; [done|]. split; [done|]. split; [done|].
    split; [done|discriminate]. }
  destruct e as [status text| | | |]; try apply Hraise.
  destruct ((status =? 403) && str_in "quotaExceeded" text); [|apply Hraise].
  pose proof (switch_frame s1) as Hf2. pose proof (switch_quiet s1) as Hq2.
  pose proof (switch_within s1) as Hw2.
  destruct (switch_fields s1) as (_ & Hidx & _ & _ & _ & _ & Hok).
  destruct (_switch_api_key w s1) as [ok s2]. simpl in *.
  assert (Hf' : frame s s2) by (etransitivity; done).
  assert (Hq' : video_quiet s s2) by (etransitivity; done).
  assert (Hw' : within 1 s s2) by (unfold within in *; lia).
  destruct ok; intros [= <- <-].
  - split; [done|]. split; [done|]. split; [by apply quiet_split|].
    split; [done|]. intros _. split.
    + destruct Hf as [_ _ Hi _]. lia.
    + destruct Hf as [Hk _ _ _]. rewrite <- Hk. rewrite Hidx. by apply Hok.
  - split; [done|]. split; [done|]. split; [by apply quiet_split|].
    split; [done|discriminate].
Qed.
End Steps.

(* ===================================================================== *)
(** * The recursion of fetch_videos                                       *)
(* ===================================================================== *)

Section Recursion.
Variable w : World.
Variables (clk : clock) (qr : string) (max_results : Z) (page_token : option string).

(** The fuel of [fetch_videos] suffices: every retry moves the key index
    up, and a retry happens only below the end of the list. *)
Lemma fetch_videos_rec_enough (fuel : nat) :
  forall s : State,
    (activations s <= fuel)%nat ->
    is_Some (fetch_videos_rec w fuel clk qr max_results page_token s).
Proof.
  induction fuel as [|fuel IH]; intros s Hfuel.
  - unfold activations in Hfuel. lia.
  - simpl.
    destruct (fetch_attempt w clk qr max_results page_token s) as [[r|e|] s1] eqn:Hat;
      [done | done |].
    destruct (fetch_attempt_props w _ _ _ _ _ _ _ Hat) as ([Hk _ _ _] & _ & _ & _ & Hretry).
    specialize (Hretry eq_refl). apply IH.
    unfold activations in *. rewrite Hk. lia.
Qed.

Lemma fetch_videos_rec_props (fuel : nat) :
  forall (s : State) (r : exn + fetch_result) (s' : State),
    fetch_videos_rec w fuel clk qr max_results page_token s = Some (r, s') ->
    frame s s' /\ within (activations s) s s' /\ video_split s s' /\
    (forall e, r = inl e -> video_quiet s s').
Proof.
  induction fuel as [|fuel IH]; intros s r s'; simpl; [discriminate|].
  destruct (fetch_attempt w clk qr max_results page_token s) as [[x|e|] s1] eqn:Hat;
    destruct (fetch_attempt_props w _ _ _ _ _ _ _ Hat) as (Hf & Hw & Hs & Hq & Hretry).
  - intros [= <- <-]. split; [done|].
    split; [unfold within, activations in *; lia|]. split; [done|discriminate].
  - intros [= <- <-]. split; [done|].
    split; [unfold within, activations in *; lia|]. split; [done|].
    intros _ _. apply Hq. discriminate.
  - intros Hrec. destruct (IH _ _ _ Hrec) as (Hf' & Hw' & Hs' & Hq').
    specialize (Hretry eq_refl). assert (Hq1 : video_quiet s s1) by (by apply Hq).
    split; [by etransitivity|]. split.
    + destruct Hf as [Hk _ _ _]. unfold within, activations in *. rewrite Hk in Hw'. lia.
    + split; [by eapply quiet_then_split|].
      intros e He. etransitivity; [done | by eapply Hq'].
Qed.

Lemma fetch_videos_unfold (s : State) :
  fetch_videos_rec w (attempts_left s) clk qr max_results page_token s
  = Some (fetch_videos w clk qr max_results page_token s).
Proof.
  unfold fetch_videos.
  destruct (fetch_videos_rec_enough (attempts_left s) s) as [x ->]; [|done].
  unfold activations, attempts_left. lia.
Qed.

Lemma fetch_videos_props (s : State) :
  let '(r, s') := fetch_videos w clk qr max_results page_token s in
  frame s s' /\ within (activations s) s s' /\ video_split s s' /\
  (forall e, r = inl e -> video_quiet s s').
Proof.
  pose proof (fetch_videos_unfold s) as Hrun.
  destruct (fetch_videos w clk qr max_results page_token s) as [r s'].
  by eapply fetch_videos_rec_props.
Qed.

Lemma fetch_videos_no_client (s : State) :
  youtube s = None ->
  fetch_videos w clk qr max_results page_token s
  = (inl (Exception "YouTube API client not initialized"), s).
Proof.
  intros Hy. unfold fetch_videos, attempts_left. simpl.
  unfold fetch_attempt. by rewrite Hy.
Qed.

Lemma fetch_videos_rec_mono (fuel : nat) :
  forall (s : State) (x : (exn + fetch_result) * State) (fuel' : nat),
    fetch_videos_rec w fuel clk qr max_results page_token s = Some x ->
    (fuel <= fuel')%nat ->
    fetch_videos_rec w fuel' clk qr max_results page_token s = Some x.
Proof.
  induction fuel as [|fuel IH]; intros s x fuel' Hrun Hle; [discriminate|].
  destruct fuel' as [|fuel']; [lia|]. simpl in *.
  destruct (fetch_attempt w clk qr max_results page_token s) as [[r|e|] s1];
    [done | done |].
  apply IH; [done | lia].
Qed.

(** The recursion equation of the source: a call is its first activation,
    and after a switch of key it is the whole call again. *)
Lemma fetch_videos_step (s : State) :
  fetch_videos w clk qr max_results page_token s
  = match fetch_attempt w clk qr max_results page_token s with
    | (Return r, s1) => (inr r, s1)
    | (Raise e, s1) => (inl e, s1)
    | (Retry, s1) => fetch_videos w clk qr max_results page_token s1
    end.
Proof.
  pose proof (fetch_videos_unfold s) as Hrun.
  unfold attempts_left in Hrun. simpl in Hrun.
  destruct (fetch_attempt w clk qr max_results page_token s) as [[r|e|] s1];
    [congruence | congruence |].
  pose proof (fetch_videos_unfold s1) as Hrun1.
  set (n := (length (api_keys s) - current_key_index s + attempts_left s1)%nat).
  apply (fetch_videos_rec_mono _ _ _ n) in Hrun; [|lia].
  apply (fetch_videos_rec_mono _ _ _ n) in Hrun1; [|lia].
  congruence.
Qed.
End Recursion.

(* ===================================================================== *)
(** * The batch a call stores                                             *)
(* ===================================================================== *)

Section Batch.
Variable w : World.
Variables (clk : clock) (qr : string) (max_results : Z) (page_token : option string).

Lemma quiet_videos (s s' : State) :
  video_quiet s s' -> clean s ->
  clean s' /\ videos (committed (db s')) = videos (committed (db s)).
Proof.
  intros Hq Hc. destruct (Hq Hc) as (Hc' & Hv & _). split; [done|].
  unfold clean in *. by rewrite <- Hc, <- Hc'.
Qed.

Lemma persist_batch (now : Z) (resp : search_response) (vds : list video_data)
    (s : State) (r : exn + fetch_result) (s' : State) :
  persist now qr resp vds s = (r, s') -> batch_stored now s r s'.
Proof.
  destruct (persist_run now qr resp vds s) as (x & t1 & t2 & -> & Hv1 & Hv2 & _ & Hn & Hi).
  intros [= <- <-] Hc. rewrite Hn, Hi. simpl. rewrite Hv2, Hv1.
  unfold clean in Hc. rewrite <- Hc.
  by destruct (store_videos now vds (videos (session (db s))) 0).
Qed.

Lemma fetch_try_batch (s : State) (r : exn + fetch_result) (s' : State) :
  fetch_try w clk qr max_results page_token s = (r, s') ->
  batch_stored (utcnow clk) s r s'.
Proof.
  unfold fetch_try, bind, get.
  destruct (first_page_shortcut w (utcnow clk) (cache s) qr page_token) as [x|] eqn:Hsh.
  - intros [= <- <-] _.
    unfold first_page_shortcut in Hsh.
    repeat (case_match; simplify_eq); done.
  - destruct (fetch_remote w clk qr max_results page_token s) as [[e|[resp vds]] s1]
      eqn:Hrem.
    + intros [= <- <-] Hc.
      by destruct (quiet_videos s s1 (fetch_remote_quiet w _ _ _ _ _ _ _ Hrem) Hc).
    + simpl. intros Hper Hc.
      destruct (quiet_videos s s1 (fetch_remote_quiet w _ _ _ _ _ _ _ Hrem) Hc)
        as [Hc1 Hv1].
      pose proof (persist_batch _ _ _ _ _ _ Hper Hc1) as Hb.
      destruct r as [e|res]; [by rewrite <- Hv1|].
      destruct (stored_count res); by rewrite <- Hv1.
Qed.

Lemma fetch_videos_rec_batch (fuel : nat) :
  forall (s : State) (r : exn + fetch_result) (s' : State),
    fetch_videos_rec w fuel clk qr max_results page_token s = Some (r, s') ->
    batch_stored (utcnow clk) s r s'.
Proof.
  induction fuel as [|fuel IH]; intros s r s'; simpl; [discriminate|].
  destruct (fetch_attempt w clk qr max_results page_token s) as [[x|e|] s1] eqn:Hat.
  - intros [= <- <-]. unfold fetch_attempt in Hat.
    destruct (youtube s); [|discriminate].
    destruct (fetch_try w clk qr max_results page_token s) as [[e|res] s2] eqn:Htry.
    + repeat (case_match; simplify_eq).
    + injection Hat as <- <-. by apply fetch_try_batch.
  - intros [= <- <-] Hc.
    destruct (fetch_attempt_props w _ _ _ _ _ _ _ Hat) as (_ & _ & _ & Hq & _).
    by destruct (quiet_videos s s1 (Hq ltac:(discriminate)) Hc).
  - intros Hrec Hc.
    destruct (fetch_attempt_props w _ _ _ _ _ _ _ Hat) as (_ & _ & _ & Hq & _).
    destruct (quiet_videos s s1 (Hq ltac:(discriminate)) Hc) as [Hc1 Hv1].
    pose proof (IH _ _ _ Hrec Hc1) as Hb.
    destruct r as [e|res]; [by rewrite <- Hv1|].
    destruct (stored_count res); by rewrite <- Hv1.
Qed.

(** What a whole call stores and counts. *)
Lemma fetch_videos_batch (s : State) :
  batch_stored (utcnow clk) s
    (fst (fetch_videos w clk qr max_results page_token s))
    (snd (fetch_videos w clk qr max_results page_token s)).
Proof.
  pose proof (fetch_videos_unfold w clk qr max_results page_token s) as Hrun.
  destruct (fetch_videos w clk qr max_results page_token s) as [r s'].
  by eapply fetch_videos_rec_batch.
Qed.
End Batch.

(* ===================================================================== *)
(** * Upsert semantics                                                    *)
(* ===================================================================== *)

(** C1, as amended. Under the unique constraint on the external id, an
    upsert leaves exactly one row with the item's id and touches no other
    row. If no row had the id, a row is created (and counted) holding the
    item's values, with NULL details when the item has none and the created
    timestamp set to now. If a row had it, nothing is created or counted, the
    primary key and the created timestamp stay, the nine columns every item
    carries are overwritten, and duration and view count are overwritten only
    when the item carries details, keeping the stored values otherwise.
    Hence two ingestions of one id leave one row with the second item's
    values and the first created timestamp; and the counter of the loop is
    the number of rows it created, which is what a fetch returns as its
    stored count, for the committed table after the loop over its items. *)
Theorem upsert_semantics :
  (forall (now : Z) (vd : video_data) (tbl : list Video),
      NoDup (map video_id tbl) ->
      NoDup (map video_id (fst (upsert now vd tbl))) /\
      rows_with (vd_video_id vd) (fst (upsert now vd tbl)) = 1%nat /\
      (forall vid, vid <> vd_video_id vd ->
         lookup_video vid (fst (upsert now vd tbl)) = lookup_video vid tbl) /\
      exists row,
        lookup_video (vd_video_id vd) (fst (upsert now vd tbl)) = Some row /\
        holds_item vd row /\
        match lookup_video (vd_video_id vd) tbl with
        | None =>
            snd (upsert now vd tbl) = true /\
            length (fst (upsert now vd tbl)) = S (length tbl) /\
            duration row = fst <$> vd_details vd /\
            view_count row = snd <$> vd_details vd /\
            created_at row = now
        | Some old =>
            snd (upsert now vd tbl) = false /\
            length (fst (upsert now vd tbl)) = length tbl /\
            id row = id old /\
            created_at row = created_at old /\
            duration row = merged_duration vd (duration old) /\
            view_count row = merged_view_count vd (view_count old)
        end) /\
  (forall (t1 t2 : Z) (vd1 vd2 : video_data) (tbl : list Video),
      NoDup (map video_id tbl) ->
      vd_video_id vd2 = vd_video_id vd1 ->
      lookup_video (vd_video_id vd1) tbl = None ->
      let tbl1 := fst (upsert t1 vd1 tbl) in
      let tbl2 := fst (upsert t2 vd2 tbl1) in
      snd (upsert t1 vd1 tbl) = true /\
      snd (upsert t2 vd2 tbl1) = false /\
      rows_with (vd_video_id vd1) tbl2 = 1%nat /\
      exists row,
        lookup_video (vd_video_id vd1) tbl2 = Some row /\
        holds_item vd2 row /\
        created_at row = t1 /\
        duration row = merged_duration vd2 (fst <$> vd_details vd1) /\
        view_count row = merged_view_count vd2 (snd <$> vd_details vd1)) /\
  (forall (now : Z) (vds : list video_data) (tbl : list Video),
      length (fst (store_videos now vds tbl 0))
      = (length tbl + snd (store_videos now vds tbl 0))%nat) /\
  (forall (w : World) (clk : clock) (qr : string) (max_results : Z)
          (page_token : option string) (s s' : State) (res : fetch_result) (n : nat),
      clean s ->
      fetch_videos w clk qr max_results page_token s = (inr res, s') ->
      stored_count res = Some n ->
      store_videos (utcnow clk) (items res) (videos (committed (db s))) 0
      = (videos (committed (db s')), n) /\
      length (videos (committed (db s')))
      = (length (videos (committed (db s))) + n)%nat).
Proof.
  split; [exact upsert_spec|]. split; [|split].
  - intros t1 t2 vd1 vd2 tbl Hnd Hid Hnone tbl1 tbl2.
    destruct (upsert_spec t1 vd1 tbl Hnd) as (Hnd1 & _ & _ & row1 & Hl1 & _ & H1).
    rewrite Hnone in H1. destruct H1 as (Hc1 & _ & Hd1 & Hv1 & Ht1).
    fold tbl1 in Hnd1, Hl1.
    destruct (upsert_spec t2 vd2 tbl1 Hnd1) as (_ & Hrows & _ & row2 & Hl2 & Hh2 & H2).
    rewrite Hid in Hrows, Hl2, H2. rewrite Hl1 in H2.
    destruct H2 as (Hc2 & _ & _ & Ht2 & Hd2 & Hv2).
    fold tbl2 in Hrows, Hl2.
    split; [exact Hc1|]. split; [exact Hc2|]. split; [exact Hrows|].
    exists row2. rewrite Ht2, Ht1, Hd2, Hv2, Hd1, Hv1. auto.
  - intros now vds tbl. pose proof (store_videos_count now vds tbl 0). lia.
  - intros w clk qr max_results page_token s s' res n Hclean Hrun Hn.
    pose proof (fetch_videos_batch w clk qr max_results page_token s) as Hb.
    rewrite Hrun in Hb. specialize (Hb Hclean). simpl in Hb. rewrite Hn in Hb.
    split; [exact Hb|].
    pose proof (store_videos_count (utcnow clk) (items res)
                  (videos (committed (db s))) 0) as Hcount.
    rewrite Hb in Hcount. simpl in Hcount. lia.
Qed.

(** C1 as stated fails: a stored row met by an item without details keeps
    its stale duration and view count, although every other column took the
    new item's value. *)
Lemma upsert_keeps_stale_details :
  exists row,
    upsert 200 item_without_details [stored_row] = ([row], false) /\
    title row = "new title" /\
    created_at row = 100 /\
    vd_details item_without_details = None /\
    duration row = Some "PT4M13S" /\
    view_count row = Some 1000 /\
    ~ overwritten_with item_without_details row.
Proof.
  eexists. split; [vm_compute; reflexivity|]. simpl.
  repeat split. intros (_ & Hd & _). discriminate Hd.
Qed.

Lemma upsert_semantics_witness :
  NoDup (map video_id [stored_row]) /\
  NoDup (map video_id ([] : list Video)) /\
  vd_video_id item_without_details = vd_video_id item_with_details /\
  lookup_video (vd_video_id item_with_details) [] = None /\
  clean (fresh_service world_two_videos "k1" "") /\
  (exists row,
      lookup_video "v1" (fst (upsert 200 item_with_details [stored_row])) = Some row /\
      title row = "new title" /\ created_at row = 100 /\ duration row = Some "PT9M") /\
  (exists row,
      lookup_video "v1"
        (fst (upsert 300 item_without_details (fst (upsert 200 item_with_details []))))
      = Some row /\
      title row = "new title" /\ created_at row = 200 /\ duration row = Some "PT9M") /\
  (exists (res : fetch_result) (s' : State),
      fetch_videos world_two_videos noon "cats" 10 None
        (fresh_service world_two_videos "k1" "") = (inr res, s') /\
      stored_count res = Some 2%nat /\
      length (videos (committed (db s')))
      = (length (videos (committed (db (fresh_service world_two_videos "k1" "")))) + 2)%nat).
Proof.
  assert (H1 : NoDup (map video_id [stored_row])) by (simpl; apply NoDup_singleton).
  assert (H2 : NoDup (map video_id ([] : list Video))) by (simpl; apply NoDup_nil_2).
  assert (H3 : vd_video_id item_without_details = vd_video_id item_with_details)
    by reflexivity.
  assert (H4 : lookup_video (vd_video_id item_with_details) [] = None) by reflexivity.
  assert (H5 : clean (fresh_service world_two_videos "k1" "")) by reflexivity.
  split; [exact H1|]. split; [exact H2|]. split; [exact H3|]. split; [exact H4|].
  split; [exact H5|]. split; [|split].
  - destruct (proj1 upsert_semantics 200 item_with_details [stored_row] H1)
      as (_ & _ & _ & row & Hl & Hh & H).
    exists row. destruct Hh as (_ & Ht & _).
    change (lookup_video (vd_video_id item_with_details) [stored_row])
      with (Some stored_row) in H.
    destruct H as (_ & _ & _ & Hc & Hd & _). auto.
  - destruct (proj1 (proj2 upsert_semantics) 200 300 item_with_details
                item_without_details [] H2 H3 H4)
      as (_ & _ & _ & row & Hl & Hh & Hc & Hd & _).
    exists row. destruct Hh as (_ & Ht & _). auto.
  - eexists _, _. split; [vm_compute; reflexivity|]. split; [reflexivity|].
    refine (proj2 (proj2 (proj2 (proj2 upsert_semantics)) world_two_videos noon "cats" 10
                     None (fresh_service world_two_videos "k1" "") _ _ 2%nat H5 _ _)).
    + vm_compute. reflexivity.
    + reflexivity.
Defined.

(* ===================================================================== *)
(** * Credential failover                                                 *)
(* ===================================================================== *)

(** [client_has_keys] holds of every service: [__init__] establishes it and
    a fetch keeps it. *)
Lemma client_has_keys_init (w : World) (key_1 key_2 key_3 : string) (d : DB)
    (c : option redis) :
  client_has_keys (YouTubeService.init w key_1 key_2 key_3 d c).
Proof.
  unfold client_has_keys, YouTubeService.init, _initialize_youtube_client.
  cbn [api_keys current_key_index].
  destruct (List.filter (fun k => negb (String.eqb k "")) [key_1; key_2; key_3])
    as [|api_key rest]; simpl.
  - by intros [? ?].
  - destruct (build_ok w api_key); simpl; intros _; discriminate.
Qed.

Lemma client_has_keys_fetch (w : World) (clk : clock) (qr : string) (max_results : Z)
    (page_token : option string) (s : State) :
  client_has_keys s ->
  client_has_keys (snd (fetch_videos w clk qr max_results page_token s)).
Proof.
  intros Hkeys.
  pose proof (fetch_videos_props w clk qr max_results page_token s) as Hprops.
  destruct (youtube s) as [key|] eqn:Hclient.
  - destruct (fetch_videos w clk qr max_results page_token s) as [r s'].
    destruct Hprops as ([Hk _ _ _] & _). simpl. intros _. rewrite Hk.
    apply Hkeys. by rewrite Hclient.
  - by rewrite fetch_videos_no_client.
Qed.

(** C2, as amended. When the [try] block of a call ends in an HTTP error
    with status 403 whose text contains quotaExceeded, the client moves to
    the next key and records nothing about the key that ran out (the tables
    and the cache are as the failed activation left them); if a key is left,
    the call is the whole fetch again from that state, otherwise it fails
    with "All API keys exhausted". Any other HTTP error ends the call without
    retry, re-raised as a plain exception whose message is the original text
    after "YouTube API error: ". Over a whole call the number of search
    calls is at most the number of keys, the key index never decreases (no
    wraparound) and the cache is never written. *)
Theorem quota_failover (w : World) (clk : clock) (qr : string) (max_results : Z)
    (page_token : option string) (s : State) :
  client_has_keys s ->
  (forall (status : Z) (text : string) (s1 : State),
      is_Some (youtube s) ->
      fetch_try w clk qr max_results page_token s = (inl (HttpError status text), s1) ->
      if (status =? 403) && str_in "quotaExceeded" text then
        let s2 := snd (_switch_api_key w s1) in
        current_key_index s2 = S (current_key_index s1) /\
        db s2 = db s1 /\ cache s2 = cache s1 /\
        fetch_videos w clk qr max_results page_token s =
          if (S (current_key_index s1) <? length (api_keys s1))%nat
          then fetch_videos w clk qr max_results page_token s2
          else (inl (Exception "All API keys exhausted"), s2)
      else
        fetch_videos w clk qr max_results page_token s
        = (inl (Exception ("YouTube API error: " +:+ text)), s1)) /\
  (let '(r, s') := fetch_videos w clk qr max_results page_token s in
   (searches s' <= searches s + length (api_keys s))%nat /\
   (current_key_index s <= current_key_index s')%nat /\
   api_keys s' = api_keys s /\ cache s' = cache s).
Proof.
  intros Hkeys. split.
  - intros status text s1 [key Hkey] Htry.
    rewrite fetch_videos_step. unfold fetch_attempt. rewrite Hkey, Htry.
    destruct ((status =? 403) && str_in "quotaExceeded" text); [|done].
    destruct (switch_fields w s1) as (_ & Hidx & Hdb & Hcache & _ & _ & Hok).
    unfold _switch_api_key in *. simpl in *.
    destruct (S (current_key_index s1) <? length (api_keys s1))%nat; simpl in *; auto.
  - pose proof (fetch_videos_props w clk qr max_results page_token s) as Hprops.
    destruct (youtube s) as [key|] eqn:Hclient.
    + destruct (fetch_videos w clk qr max_results page_token s) as [r s'].
      destruct Hprops as ([Hk Hc Hi _] & Hw & _).
      split; [|done]. unfold within, activations in Hw.
      assert (api_keys s <> []) as Hne by (apply Hkeys; by rewrite Hclient).
      destruct (api_keys s); [done|]. simpl in *. lia.
    + rewrite fetch_videos_no_client by done. repeat split; lia.
Qed.

(** C2 as stated fails: with two keys of which the first is out of quota,
    the call fails over to the second key and succeeds, and afterwards the
    first key is marked exhausted nowhere: the cache is untouched, its quota
    mirror for key 0 reads not exhausted, and the ledger has no row for the
    first key at all. *)
Lemma quota_exceeded_marks_nothing :
  let w := world_one_key_out in
  let s0 := fresh_service w "k1" "k2" in
  exists (res : fetch_result) (s' : State),
    fetch_videos w noon "cats" 10 None s0 = (inr res, s') /\
    search_keys (trace s') = ["k1"; "k2"] /\
    current_key_index s' = 1%nat /\
    cache s' = cache s0 /\
    quota_exhausted_in_cache (date_str w) (cache s') (utcnow noon) 0 = false /\
    map (fun u => (api_key_hash u, is_exhausted u)) (api_key_usage (committed (db s')))
    = [("sha256/k2", false)].
Proof.
  eexists _, _. split; [vm_compute; reflexivity|].
  vm_compute. repeat split; reflexivity.
Qed.

Lemma quota_failover_witness :
  let w := world_one_key_out in
  let s0 := fresh_service w "k1" "k2" in
  let req := {| q := "cats"; publishedAfter := utcnow noon - timedelta_days 7;
                maxResults := 10; pageToken := None |} in
  let s1 := emit (EvSearch "k1" req) s0 in
  client_has_keys s0 /\
  is_Some (youtube s0) /\
  fetch_try w noon "cats" 10 None s0 = (inl quota_exceeded_error, s1) /\
  fetch_videos w noon "cats" 10 None s0
  = fetch_videos w noon "cats" 10 None (snd (_switch_api_key w s1)) /\
  (let '(r, s') := fetch_videos w noon "cats" 10 None s0 in
   (searches s' <= searches s0 + length (api_keys s0))%nat).
Proof.
  intros w s0 req s1.
  assert (Hkeys : client_has_keys s0) by (intros _; discriminate).
  assert (Hclient : is_Some (youtube s0)) by (by eexists).
  assert (Htry : fetch_try w noon "cats" 10 None s0 = (inl quota_exceeded_error, s1))
    by (vm_compute; reflexivity).
  destruct (quota_failover w noon "cats" 10 None s0 Hkeys) as [Hhandler Hcall].
  split; [exact Hkeys|]. split; [exact Hclient|]. split; [exact Htry|]. split.
  - exact (proj2 (proj2 (proj2 (Hhandler 403 _ s1 Hclient Htry)))).
  - destruct (fetch_videos w noon "cats" 10 None s0) as [r s'].
    exact (proj1 Hcall).
Defined.

(* ===================================================================== *)
(** * What the detail call is charged                                     *)
(* ===================================================================== *)

(** C5. A search that returns two videos is followed by one batched detail
    call naming both ids, and the fresh ledger row of the key ends at 101
    units: 100 for the search and 1 for the detail call, not 1 per id. *)
Lemma detail_call_charged_one_unit :
  let w := world_two_videos in
  let s0 := fresh_service w "k1" "" in
  exists (res : fetch_result) (s' : State),
    fetch_videos w noon "cats" 10 None s0 = (inr res, s') /\
    map vd_video_id (items res) = ["v1"; "v2"] /\
    detail_batches (trace s') = [["v1"; "v2"]] /\
    map quota_used (api_key_usage (committed (db s'))) = [101].
Proof.
  eexists _, _. split; [vm_compute; reflexivity|].
  vm_compute. repeat split; reflexivity.
Qed.

(* ===================================================================== *)
(** * Commits of a fetch cycle                                            *)
(* ===================================================================== *)





(* ===================================================================== *)
(** * The polling scheduler                                               *)
(* ===================================================================== *)

Lemma init_queries_nonempty (qs : option (list string)) (interval : Z) (svc : State) :
  search_queries (BackgroundFetcher.init qs interval svc) <> [].
Proof. destruct qs as [[|qr rest]|]; discriminate. Qed.

Section Scheduler.
Variable w : World.
Variable queries : list string.
Variable interval : Z.

Lemma current_query_exists (query_index : nat) :
  queries <> [] ->
  exists qr, queries !! (query_index mod length queries)%nat = Some qr.
Proof.
  intros Hne. apply lookup_lt_is_Some_2, Nat.mod_upper_bound.
  destruct queries; [done | simpl; lia].
Qed.

(** One iteration: it always calls [fetch_videos] for the query under the
    cursor, moves the cursor on, and sleeps once. *)
Lemma loop_body_run (clk : clock) (query_index : nat) (svc : State) (qr : string) :
  queries !! (query_index mod length queries)%nat = Some qr ->
  exists evs svc1,
    loop_body w queries interval clk query_index svc
    = (evs, Some (S query_index, svc1)) /\
    fetched_queries evs = [qr] /\
    sleeps evs =
      [match fst (fetch_videos w clk qr 25 None svc) with
       | inl e => if is_quota_error e then 3600 else interval
       | inr _ => interval
       end] /\
    (forall e, fst (fetch_videos w clk qr 25 None svc) = inl e ->
               is_quota_error e = false -> In (LogError e) evs).
Proof.
  intros Hq. unfold loop_body. rewrite Hq.
  destruct (fetch_videos w clk qr 25 None svc) as [[e|r] svc1]; simpl.
  - destruct (is_quota_error e) eqn:He; eexists _, _;
      (split; [reflexivity|]); simpl; repeat split; try done.
    + intros e' [= <-]. congruence.
    + intros e' [= <-] _. auto.
  - eexists _, _. split; [reflexivity|]. simpl. repeat split; done.
Qed.

Lemma loop_run (obs : list (bool * clock)) :
  queries <> [] -> all_running obs ->
  forall (query_index : nat) (svc : State),
    let '(evs, (cursor, _)) := fetch_loop_from w queries interval obs query_index svc in
    cursor = (query_index + length obs)%nat /\
    fetched_queries evs = rotation queries query_index (length obs) /\
    length (fetched_queries evs) = length obs /\
    length (sleeps evs) = length obs.
Proof.
  intros Hne. induction obs as [|[running clk] obs IH]; intros Hall query_index svc.
  - simpl. repeat split; lia.
  - apply Forall_cons in Hall as [Hrun Hall]. simpl in Hrun. subst running. simpl.
    destruct (current_query_exists query_index Hne) as [qr Hq].
    destruct (loop_body_run clk query_index svc qr Hq)
      as (evs & svc1 & -> & Hf & Hs & _).
    specialize (IH Hall (S query_index) svc1).
    destruct (fetch_loop_from w queries interval obs (S query_index) svc1)
      as [evs' [cursor svc2]].
    destruct IH as (Hc & Hrot & Hlen & Hsl).
    assert (Hfa : fetched_queries (evs ++ evs') = qr :: fetched_queries evs')
      by (unfold fetched_queries in *; by rewrite omap_app, Hf).
    assert (Hsa : length (sleeps (evs ++ evs')) = S (length (sleeps evs')))
      by (unfold sleeps in *; by rewrite omap_app, length_app, Hs).
    rewrite Hfa, Hsa. simpl. rewrite Hlen, Hsl, Hrot.
    split; [lia|]. split; [|done].
    unfold rotation. simpl. by rewrite Hq.
Qed.
End Scheduler.

(** C9. While it runs, the worker of a scheduler takes the query at the
    cursor modulo the length of its list and moves the cursor by one in
    every iteration, whatever the fetch did: after [n] iterations it has
    called the fetch exactly [n] times, for the queries at positions
    [0 mod len], [1 mod len], ..., in that order, and the cursor is [n]. *)
Theorem rotation_order (w : World) (qs : option (list string)) (interval : Z)
    (svc : State) (obs : list (bool * clock)) :
  all_running obs ->
  let f := BackgroundFetcher.init qs interval svc in
  let '(evs, (cursor, _)) := _fetch_loop w f obs in
  cursor = length obs /\
  fetched_queries evs = rotation (search_queries f) 0 (length obs) /\
  length (fetched_queries evs) = length obs.
Proof.
  intros Hall f. unfold _fetch_loop.
  pose proof (loop_run w (search_queries f) (fetch_interval f) obs
                (init_queries_nonempty qs interval svc) Hall 0%nat (youtube_service f))
    as Hrun.
  destruct (fetch_loop_from w (search_queries f) (fetch_interval f) obs 0
              (youtube_service f)) as [evs [cursor svc']].
  destruct Hrun as (Hc & Hrot & Hlen & _). repeat split; done.
Qed.

Lemma rotation_order_witness :
  all_running [(true, noon); (true, noon); (true, noon)] /\
  search_queries
    (BackgroundFetcher.init (Some ["a"; "b"; "c"]) 10
       (fresh_service world_one_key_out "k1" "k2")) = ["a"; "b"; "c"] /\
  rotation ["a"; "b"; "c"] 0 3 = ["a"; "b"; "c"] /\
  (let f := BackgroundFetcher.init (Some ["a"; "b"; "c"]) 10
              (fresh_service world_one_key_out "k1" "k2") in
   let '(evs, (cursor, _)) :=
     _fetch_loop world_one_key_out f [(true, noon); (true, noon); (true, noon)] in
   cursor = length [(true, noon); (true, noon); (true, noon)] /\
   fetched_queries evs
   = rotation (search_queries f) 0 (length [(true, noon); (true, noon); (true, noon)]) /\
   length (fetched_queries evs) = length [(true, noon); (true, noon); (true, noon)]).
Proof.
  assert (H : all_running [(true, noon); (true, noon); (true, noon)])
    by (repeat constructor).
  split; [exact H|]. split; [reflexivity|]. split; [reflexivity|].
  apply rotation_order. exact H.
Defined.

(** The scenario of the specification, run: three iterations over a, b, c
    fetch a, b, c in this order, each once, also when a fetch had to fail
    over or failed. *)
Example rotation_abc :
  fetched_queries
    (fst (_fetch_loop world_one_key_out
            (BackgroundFetcher.init (Some ["a"; "b"; "c"]) 10
               (fresh_service world_one_key_out "k1" "k2"))
            [(true, noon); (true, noon); (true, noon)]))
  = ["a"; "b"; "c"] /\
  fetched_queries
    (fst (_fetch_loop world_all_keys_out
            (BackgroundFetcher.init (Some ["a"; "b"; "c"]) 10
               (fresh_service world_all_keys_out "k1" "k2"))
            [(true, noon); (true, noon); (true, noon)]))
  = ["a"; "b"; "c"].
Proof. vm_compute. split; reflexivity. Qed.

(** C8 as stated fails: with two keys, a rate-limit error on the first key
    that mentions the word quota is not the all-keys-exhausted condition (the
    second key was never tried and the client is still on the first), and
    yet the worker sleeps 3600 seconds instead of its interval of 10. *)
Lemma quota_word_triggers_backoff :
  exists (e : exn) (s' : State),
    fetch_videos world_rate_limited noon "a" 25 None
      (fresh_service world_rate_limited "k1" "k2") = (inl e, s') /\
    e <> Exception "All API keys exhausted" /\
    search_keys (trace s') = ["k1"] /\
    current_key_index s' = 0%nat /\
    api_keys s' = ["k1"; "k2"] /\
    sleeps
      (fst (_fetch_loop world_rate_limited
              (BackgroundFetcher.init (Some ["a"; "b"; "c"]) 10
                 (fresh_service world_rate_limited "k1" "k2"))
              [(true, noon)])) = [3600].
Proof.
  eexists _, _. split; [vm_compute; reflexivity|].
  split; [discriminate|]. vm_compute. repeat split; reflexivity.
Qed.

(** C8, as amended. An iteration whose fetch raises an error whose
    lower-cased text contains "exhausted" or "quota" sleeps 3600 seconds and
    does not sleep the fetch interval; this is the test by which the loop
    detects the all-keys-exhausted condition, and the error "All API keys
    exhausted" raised by [fetch_videos] passes it. An iteration whose fetch
    raises an error with neither word logs it and sleeps the fetch interval.
    Either way the worker goes on with the next query: the cursor moves by
    one, and over any number of iterations the worker fetches once and
    sleeps once per iteration. *)
Theorem backoff_on_exhaustion (w : World) (qs : option (list string)) (interval : Z)
    (svc0 : State) :
  let f := BackgroundFetcher.init qs interval svc0 in
  is_quota_error (Exception "All API keys exhausted") = true /\
  (forall (clk : clock) (query_index : nat) (svc : State),
    exists qr evs svc1,
      search_queries f !! (query_index mod length (search_queries f))%nat = Some qr /\
      loop_body w (search_queries f) (fetch_interval f) clk query_index svc
      = (evs, Some (S query_index, svc1)) /\
      fetched_queries evs = [qr] /\
      forall e, fst (fetch_videos w clk qr 25 None svc) = inl e ->
        if is_quota_error e then sleeps evs = [3600]
        else sleeps evs = [fetch_interval f] /\ In (LogError e) evs) /\
  (forall obs : list (bool * clock),
      all_running obs ->
      let evs := fst (_fetch_loop w f obs) in
      length (fetched_queries evs) = length obs /\
      length (sleeps evs) = length obs).
Proof.
  intros f.
  pose proof (init_queries_nonempty qs interval svc0) as Hne. fold f in Hne.
  split; [vm_compute; reflexivity|]. split.
  - intros clk query_index svc.
    destruct (current_query_exists (search_queries f) query_index Hne) as [qr Hq].
    destruct (loop_body_run w (search_queries f) (fetch_interval f) clk query_index
                svc qr Hq) as (evs & svc1 & Hbody & Hf & Hs & Hlog).
    exists qr, evs, svc1. split; [done|]. split; [done|]. split; [done|].
    intros e He. rewrite He in Hs.
    destruct (is_quota_error e) eqn:Hqe; [done|]. split; [done|]. by apply Hlog.
  - intros obs Hall. unfold _fetch_loop.
    pose proof (loop_run w (search_queries f) (fetch_interval f) obs Hne Hall 0%nat
                  (youtube_service f)) as Hrun.
    destruct (fetch_loop_from w (search_queries f) (fetch_interval f) obs 0
                (youtube_service f)) as [evs [cursor svc']].
    simpl. by destruct Hrun as (_ & _ & Hlen & Hsl).
Qed.

Lemma backoff_on_exhaustion_witness :
  all_running [(true, noon); (true, noon)] /\
  (let evs :=
     fst (_fetch_loop world_all_keys_out
            (BackgroundFetcher.init None 10 (fresh_service world_all_keys_out "k1" "k2"))
            [(true, noon); (true, noon)]) in
   length (fetched_queries evs) = length [(true, noon); (true, noon)] /\
   length (sleeps evs) = length [(true, noon); (true, noon)]).
Proof.
  assert (H : all_running [(true, noon); (true, noon)]) by (repeat constructor).
  split; [exact H|].
  exact (proj2 (proj2 (backoff_on_exhaustion world_all_keys_out None 10
                         (fresh_service world_all_keys_out "k1" "k2")))
           [(true, noon); (true, noon)] H).
Defined.

(** The scenario of the specification, run: with every key out of quota the
    fetch fails with the exhaustion error and the worker sleeps 3600 seconds,
    not the interval; when the detail call is down the error is logged and
    the worker sleeps the interval. *)
Example exhausted_pool_backs_off :
  fst (fetch_videos world_all_keys_out noon "a" 25 None
         (fresh_service world_all_keys_out "k1" "k2"))
  = inl (Exception "All API keys exhausted") /\
  sleeps (fst (_fetch_loop world_all_keys_out
                 (BackgroundFetcher.init (Some ["a"; "b"; "c"]) 10
                    (fresh_service world_all_keys_out "k1" "k2"))
                 [(true, noon)])) = [3600] /\
  sleeps (fst (_fetch_loop world_details_down
                 (BackgroundFetcher.init (Some ["a"; "b"; "c"]) 10
                    (fresh_service world_details_down "k1" ""))
                 [(true, noon)])) = [10].
Proof. vm_compute. repeat split; reflexivity. Qed.

(* ===================================================================== *)
(** * Starting and stopping the scheduler                                 *)
(* ===================================================================== *)

Lemma alive_replicate_false (n : nat) (rest : list bool) :
  length (List.filter (fun a : bool => a) (replicate n false ++ rest))
  = length (List.filter (fun a : bool => a) rest).
Proof. induction n as [|n IH]; simpl; auto. Qed.

Lemma replicate_false_shift (n : nat) (rest : list bool) :
  replicate n false ++ false :: rest = false :: replicate n false ++ rest.
Proof. induction n as [|n IH]; simpl; [done | by rewrite IH]. Qed.

Lemma start_shape (f : fetcher) : worker_shape f -> worker_shape (start f).
Proof.
  intros Hshape. unfold start. destruct (running f) eqn:Hrun; [done|].
  destruct Hshape as [Hw Ht _|n alive Hw Ht Halive].
  - apply (shape_started _ 0 true); simpl; by rewrite ?Hw.
  - assert (alive = false) as -> by (destruct alive; [by rewrite Halive in Hrun|done]).
    apply (shape_started _ (S n) true); simpl; rewrite ?Hw; [| |done].
    + rewrite <- app_assoc. simpl. apply replicate_false_shift.
    + f_equal. rewrite length_app, length_replicate. simpl. lia.
Qed.

Lemma last_worker_off (n : nat) (alive : bool) :
  <[n := false]> (replicate n false ++ [alive]) = replicate n false ++ [false].
Proof.
  rewrite insert_app_r_alt by (rewrite length_replicate; lia).
  by rewrite length_replicate, Nat.sub_diag.
Qed.

Lemma stop_shape (f : fetcher) : worker_shape f -> worker_shape (stop f).
Proof.
  intros [Hw Ht Hrun|n alive Hw Ht Halive].
  - apply shape_never_started; unfold stop; simpl; by rewrite ?Ht.
  - apply (shape_started _ n false); unfold stop; simpl; rewrite ?Ht; [|done|done].
    rewrite Hw. apply last_worker_off.
Qed.

Lemma worker_ends_shape (f : fetcher) : worker_shape f -> worker_shape (worker_ends f).
Proof.
  intros [Hw Ht Hrun|n alive Hw Ht Halive].
  - apply shape_never_started; unfold worker_ends; simpl; by rewrite ?Ht.
  - apply (shape_started _ n false); unfold worker_ends; simpl; rewrite ?Ht;
      [|done|done].
    rewrite Hw. apply last_worker_off.
Qed.

Lemma run_ops_shape (ops : list op) :
  forall f, worker_shape f -> worker_shape (run_ops ops f).
Proof.
  induction ops as [|o ops IH]; intros f Hshape; [done|].
  simpl. apply IH.
  destruct o; [by apply start_shape | by apply stop_shape | by apply worker_ends_shape].
Qed.

Lemma shape_alive (f : fetcher) :
  worker_shape f ->
  (alive_workers f <= 1)%nat /\
  (forall t, workers f !! t = Some true -> thread f = Some t /\ running f = true).
Proof.
  intros [Hw Ht Hrun|n alive Hw Ht Halive]; unfold alive_workers; rewrite Hw.
  - split; [simpl; lia|]. intros t. by rewrite lookup_nil.
  - rewrite alive_replicate_false. split; [destruct alive; simpl; lia|].
    intros t Hlk. rewrite Ht.
    destruct (decide (t < n)%nat) as [Hlt|Hge].
    + rewrite lookup_app_l in Hlk by (by rewrite length_replicate).
      apply lookup_replicate in Hlk as [? _]. done.
    + rewrite lookup_app_r in Hlk by (rewrite length_replicate; lia).
      rewrite length_replicate in Hlk.
      destruct (t - n)%nat as [|k] eqn:Hk; [|by destruct k].
      injection Hlk as ->. split; [f_equal; lia | by apply Halive].
Qed.

Lemma stop_none_alive (f : fetcher) : worker_shape f -> alive_workers (stop f) = 0%nat.
Proof.
  intros [Hw Ht Hrun|n alive Hw Ht Halive]; unfold alive_workers, stop; simpl;
    rewrite Ht, Hw; [done|].
  by rewrite last_worker_off, alive_replicate_false.
Qed.

(** C10. Taking what happens to one scheduler one thing at a time (calls
    of [start] and [stop], and the worker ending on its own), in any order
    and number: [start] on a running scheduler returns the scheduler
    unchanged, so it creates no worker; at every moment at most one worker
    is alive, it is the one [thread] refers to and the scheduler is running,
    so the [join] of [stop] waits for that worker, and after [stop] none is
    alive. *)
Theorem single_worker (qs : option (list string)) (interval : Z) (svc : State)
    (ops : list op) :
  let f := run_ops ops (BackgroundFetcher.init qs interval svc) in
  (running f = true -> start f = f) /\
  (alive_workers f <= 1)%nat /\
  (forall t, workers f !! t = Some true -> thread f = Some t /\ running f = true) /\
  alive_workers (stop f) = 0%nat.
Proof.
  intros f.
  assert (Hshape : worker_shape f).
  { apply run_ops_shape. by apply shape_never_started. }
  destruct (shape_alive f Hshape) as [Halive Hthread].
  split; [intros Hrun; unfold start; by rewrite Hrun|].
  split; [done|]. split; [done|]. by apply stop_none_alive.
Qed.

Example start_twice_one_worker :
  let f := run_ops [Start; Start; Stop; Start; Start]
             (BackgroundFetcher.init None 10 (fresh_service world_two_videos "k1" "")) in
  workers f = [false; true] /\ thread f = Some 1%nat /\ running f = true.
Proof. vm_compute. repeat split; reflexivity. Qed.

(* ===================================================================== *)
(** * Further properties: cache keys                                      *)
(* ===================================================================== *)

Lemma ascii_compare_lt_trans (a b c : ascii) :
  Ascii.compare a b = Lt -> Ascii.compare b c = Lt -> Ascii.compare a c = Lt.
Proof. unfold Ascii.compare. rewrite !N.compare_lt_iff. lia. Qed.

Lemma string_compare_lt_trans (s1 : string) :
  forall s2 s3, String.compare s1 s2 = Lt -> String.compare s2 s3 = Lt ->
                String.compare s1 s3 = Lt.
Proof.
  induction s1 as [|a s1 IH]; intros [|b s2] [|c s3]; simpl; try done.
  destruct (Ascii.compare a b) eqn:Hab; destruct (Ascii.compare b c) eqn:Hbc;
    try done; intros H12 H23.
  - apply Ascii.compare_eq_iff in Hab, Hbc. subst.
    replace (Ascii.compare c c) with Eq
      by (symmetry; unfold Ascii.compare; apply N.compare_refl).
    by eapply IH.
  - apply Ascii.compare_eq_iff in Hab. subst. by rewrite Hbc.
  - apply Ascii.compare_eq_iff in Hbc. subst. by rewrite Hab.
  - by rewrite (ascii_compare_lt_trans a b c).
Qed.

Lemma str_le_cases (a b : string) : str_le a b <-> String.compare a b = Lt \/ a = b.
Proof.
  unfold str_le, String.leb. split.
  - destruct (String.compare a b) eqn:Hc; try done; [|by left].
    right. by apply String.compare_eq_iff.
  - intros [->| ->]; [done|].
    destruct (String.compare b b) eqn:Hc; try done.
    pose proof (String.compare_antisym b b) as Ha. rewrite Hc in Ha. done.
Qed.

#[local] Instance str_le_trans : Transitive str_le.
Proof.
  intros a b c. rewrite !str_le_cases. intros [H1| ->] [H2| ->]; auto.
  left. by eapply string_compare_lt_trans.
Qed.

#[local] Instance str_le_total : Total str_le.
Proof. intros a b. apply String.leb_total. Qed.

#[local] Instance str_le_antisym : AntiSymm (=) str_le.
Proof. intros a b. apply String.leb_antisym. Qed.

#[local] Instance item_le_trans : Transitive item_le.
Proof.
  intros [k1 v1] [k2 v2] [k3 v3]. unfold item_le. simpl.
  destruct (String.eqb k1 k2) eqn:E12; destruct (String.eqb k2 k3) eqn:E23;
    destruct (String.eqb k1 k3) eqn:E13;
    rewrite ?String.eqb_eq, ?String.eqb_neq in *; subst; try done.
  - apply str_le_trans.
  - intros Ha Hb. destruct E12. by apply str_le_antisym.
  - apply str_le_trans.
Qed.

#[local] Instance item_le_total : Total item_le.
Proof.
  intros [k1 v1] [k2 v2]. unfold item_le. simpl. rewrite (String.eqb_sym k2 k1).
  destruct (String.eqb k1 k2); apply str_le_total.
Qed.

#[local] Instance item_le_antisym : AntiSymm (=) item_le.
Proof.
  intros [k1 v1] [k2 v2]. unfold item_le. simpl. rewrite (String.eqb_sym k2 k1).
  destruct (String.eqb k1 k2) eqn:E12; rewrite ?String.eqb_eq, ?String.eqb_neq in *;
    intros Ha Hb.
  - subst. f_equal. by apply str_le_antisym.
  - destruct E12. by apply str_le_antisym.
Qed.

(** Sorting forgets the order of its input. *)
Lemma sorted_str_perm (l1 l2 : list string) :
  l1 ≡ₚ l2 -> sorted_str l1 = sorted_str l2.
Proof.
  intros Hp. unfold sorted_str.
  apply (StronglySorted_unique str_le); try apply StronglySorted_merge_sort; try apply _.
  by rewrite !merge_sort_Permutation.
Qed.

Lemma sorted_items_perm (l1 l2 : list (string * string)) :
  l1 ≡ₚ l2 -> sorted_items l1 = sorted_items l2.
Proof.
  intros Hp. unfold sorted_items.
  apply (StronglySorted_unique item_le); try apply StronglySorted_merge_sort; try apply _.
  by rewrite !merge_sort_Permutation.
Qed.

(** X1. The cache key does not depend on the order in which the extra
    parameters are given, and without extra parameters it is the key of the
    two-argument form. *)
Theorem cache_key_order_independent (md5_hex : string -> string) (prefix qr : string)
    (kwargs1 kwargs2 : list (string * string)) :
  kwargs1 ≡ₚ kwargs2 ->
  _get_cache_key_kw md5_hex prefix qr kwargs1 = _get_cache_key_kw md5_hex prefix qr kwargs2 /\
  _get_cache_key_kw md5_hex prefix qr [] = _get_cache_key md5_hex prefix qr.
Proof.
  intros Hp. unfold _get_cache_key_kw. by rewrite (sorted_items_perm _ _ Hp).
Qed.

Lemma cache_key_order_independent_witness :
  [("a", "1"); ("b", "2")] ≡ₚ [("b", "2"); ("a", "1")] /\
  _get_cache_key_kw (fun k => k) "search" "cats" [("a", "1"); ("b", "2")]
  = _get_cache_key_kw (fun k => k) "search" "cats" [("b", "2"); ("a", "1")].
Proof.
  assert (H : [("a", "1"); ("b", "2")] ≡ₚ [("b", "2"); ("a", "1")]) by apply perm_swap.
  split; [exact H|].
  exact (proj1 (cache_key_order_independent (fun k => k) "search" "cats" _ _ H)).
Defined.

(** X2. The key under which a batch of video details is cached does not
    depend on the order of the ids in the batch. *)
Theorem video_details_key_order_independent (md5_hex : string -> string)
    (ids1 ids2 : list string) :
  ids1 ≡ₚ ids2 ->
  video_details_key md5_hex ids1 = video_details_key md5_hex ids2.
Proof.
  intros Hp. unfold video_details_key. by rewrite (sorted_str_perm _ _ Hp).
Qed.

Lemma video_details_key_order_independent_witness :
  ["v2"; "v1"; "v3"] ≡ₚ ["v1"; "v2"; "v3"] /\
  video_details_key (fun k => k) ["v2"; "v1"; "v3"]
  = video_details_key (fun k => k) ["v1"; "v2"; "v3"] /\
  video_details_key (fun k => k) ["v2"; "v1"; "v3"] = "videos:v1,v2,v3".
Proof.
  assert (H : ["v2"; "v1"; "v3"] ≡ₚ ["v1"; "v2"; "v3"]) by apply perm_swap.
  split; [exact H|]. split.
  - exact (video_details_key_order_independent (fun k => k) _ _ H).
  - vm_compute. reflexivity.
Defined.

(* ===================================================================== *)
(** * Further properties: what the cache gives back                       *)
(* ===================================================================== *)


Lemma skip_key_inj (q1 q2 : string) : skip_key q1 = skip_key q2 -> q1 = q2.
Proof. unfold skip_key. intros H. cbn in H. by simplify_eq. Qed.

(** X4. After [mark_query_processed] for a query at time [t] with [n] new
    videos, [should_skip_query] for that query at time [t'] answers yes
    exactly when the backend is reachable, the marker has not expired (six
    hours), its age is below the threshold and [n] is 0; the answer for any
    other query is what it was before the marking. *)
Theorem mark_then_skip (r : redis) (t t' hours n : Z) (qr : string) :
  should_skip_query (mark_query_processed (Some r) t qr n) t' qr hours
  = reachable r && (t' <? t + timedelta_hours 6) && (t' - t <? timedelta_hours hours)
    && (n =? 0) /\
  (forall qr', qr' <> qr ->
     should_skip_query (mark_query_processed (Some r) t qr n) t' qr' hours
     = should_skip_query (Some r) t' qr' hours).
Proof.
  unfold mark_query_processed, should_skip_query, redis_setex, redis_get.
  destruct (reachable r) eqn:Hr; simpl; rewrite ?Hr; [|done]. split.
  - rewrite lookup_insert_eq. simpl. by destruct (t' <? t + timedelta_hours 6).
  - intros qr' Hne.
    rewrite lookup_insert_ne; [done|]. intros Heq. by apply skip_key_inj in Heq.
Qed.

Lemma mark_then_skip_witness :
  "dogs" <> "cats" /\
  should_skip_query (mark_query_processed (Some empty_redis) 0 "cats" 0) 1 "dogs" 24
  = should_skip_query (Some empty_redis) 1 "dogs" 24.
Proof.
  assert (H : "dogs" <> "cats") by discriminate.
  split; [exact H|].
  exact (proj2 (mark_then_skip empty_redis 0 1 24 0 "cats") "dogs" H).
Defined.

Lemma seconds_until_midnight_bounds (now : Z) :
  0 <= seconds_until_midnight now <= 86399.
Proof.
  unfold seconds_until_midnight, usec_per_day.
  pose proof (Z.mod_pos_bound now 86400000000 ltac:(lia)) as Hm.
  assert (0 <= now mod 86400000000 / 1000000 < 86400); [|lia].
  split; [apply Z.div_pos; lia|]. apply Z.div_lt_upper_bound; lia.
Qed.

(** X5. The quota mirror. The expiry computed by [update_quota_usage] is
    between 0 and 86399 seconds. An update made while at least one second
    of the day is left, on a reachable backend whose mirror for the key
    decodes, is read back later the same day before the expiry: the calls
    are the previous calls plus the calls made, the flag is the flag given.
    In the last second of the day the expiry is 0 and nothing is written. *)
Theorem quota_mirror_round_trip (date_str : Z -> string) (r : redis) (t t' : Z)
    (idx : nat) (calls calls_made : Z) (flag0 flag : bool) :
  0 <= seconds_until_midnight t <= 86399 /\
  (reachable r = true ->
   get_quota_usage date_str (Some r) t idx = QuotaEntry calls flag0 ->
   0 < seconds_until_midnight t ->
   date t' = date t ->
   t' < t + seconds_until_midnight t * 1000000 ->
   get_quota_usage date_str
     (update_quota_usage date_str (Some r) t idx calls_made flag) t' idx
   = QuotaEntry (calls + calls_made) flag /\
   quota_exhausted_in_cache date_str
     (update_quota_usage date_str (Some r) t idx calls_made flag) t' idx = flag) /\
  (seconds_until_midnight t = 0 ->
   update_quota_usage date_str (Some r) t idx calls_made flag = Some r).
Proof.
  split; [apply seconds_until_midnight_bounds|]. split.
  - intros Hr Hget Httl Hday Hlive. unfold update_quota_usage. rewrite Hget.
    replace (0 <? seconds_until_midnight t) with true by (symmetry; by apply Z.ltb_lt).
    unfold redis_setex. rewrite Hr.
    unfold get_quota_usage, quota_exhausted_in_cache, redis_get, quota_key. simpl.
    rewrite Hday, lookup_insert_eq. simpl.
    replace (t' <? t + seconds_until_midnight t * 1000000) with true
      by (symmetry; by apply Z.ltb_lt).
    done.
  - intros Hzero. unfold update_quota_usage. rewrite Hzero.
    by destruct (get_quota_usage date_str (Some r) t idx).
Qed.

Lemma quota_mirror_round_trip_witness :
  reachable empty_redis = true /\
  get_quota_usage (fun d => pretty d) (Some empty_redis) (utcnow noon) 0
  = QuotaEntry 0 false /\
  0 < seconds_until_midnight (utcnow noon) /\
  date (utcnow noon + 1) = date (utcnow noon) /\
  utcnow noon + 1 < utcnow noon + seconds_until_midnight (utcnow noon) * 1000000 /\
  seconds_until_midnight (usec_per_day - 1) = 0 /\
  get_quota_usage (fun d => pretty d)
    (update_quota_usage (fun d => pretty d) (Some empty_redis) (utcnow noon) 0 100 true)
    (utcnow noon + 1) 0
  = QuotaEntry (0 + 100) true /\
  update_quota_usage (fun d => pretty d) (Some empty_redis) (usec_per_day - 1) 0 100 true
  = Some empty_redis.
Proof.
  assert (H1 : reachable empty_redis = true) by reflexivity.
  assert (H2 : get_quota_usage (fun d => pretty d) (Some empty_redis) (utcnow noon) 0
               = QuotaEntry 0 false) by (vm_compute; reflexivity).
  assert (H3 : 0 < seconds_until_midnight (utcnow noon)) by (vm_compute; reflexivity).
  assert (H4 : date (utcnow noon + 1) = date (utcnow noon)) by (vm_compute; reflexivity).
  assert (H5 : utcnow noon + 1
               < utcnow noon + seconds_until_midnight (utcnow noon) * 1000000)
    by (vm_compute; reflexivity).
  assert (H6 : seconds_until_midnight (usec_per_day - 1) = 0) by (vm_compute; reflexivity).
  split; [exact H1|]. split; [exact H2|]. split; [exact H3|]. split; [exact H4|].
  split; [exact H5|]. split; [exact H6|]. split.
  - exact (proj1 (proj1 (proj2 (quota_mirror_round_trip (fun d => pretty d) empty_redis
                                  (utcnow noon) (utcnow noon + 1) 0 0 100 false true))
                    H1 H2 H3 H4 H5)).
  - exact (proj2 (proj2 (quota_mirror_round_trip (fun d => pretty d) empty_redis
                           (usec_per_day - 1) 0 0 0 100 false true)) H6).
Defined.



(* ===================================================================== *)
(** * Further properties: the video table across a fetch                  *)
(* ===================================================================== *)

Lemma next_id_fresh (ids : list nat) : next_id ids ∉ ids.
Proof.
  unfold next_id. intros Hin.
  assert (Hall : Forall (fun k => (k <= list_max ids)%nat) ids) by (by apply list_max_le).
  rewrite Forall_forall in Hall. apply Hall in Hin. lia.
Qed.

Lemma upsert_ids (now : Z) (vd : video_data) (tbl : list Video) :
  NoDup (map id tbl) -> NoDup (map id (fst (upsert now vd tbl))).
Proof.
  intros Hnd. unfold upsert.
  destruct (first_index (has_video_id (vd_video_id vd)) tbl) as [[i old]|] eqn:Hf; simpl.
  - destruct (first_index_Some _ _ _ _ Hf) as (Hi & Hp & _).
    apply has_video_id_true in Hp.
    destruct (update_video_keeps now vd old (eq_sym Hp)) as (_ & Hid & _).
    by rewrite (map_insert_same id tbl i old _ Hi Hid).
  - rewrite map_app. apply NoDup_app. split; [done|]. split; [|apply NoDup_singleton].
    intros x Hx [->|[]%elem_of_nil]%elem_of_cons. by apply (next_id_fresh (map id tbl)).
Qed.

Lemma lookup_video_id (vid : string) (tbl : list Video) (row : Video) :
  lookup_video vid tbl = Some row -> video_id row = vid.
Proof.
  unfold lookup_video. destruct (first_index _ tbl) as [[i x]|] eqn:Hf; [|discriminate].
  intros [= <-]. apply first_index_Some in Hf as (_ & Hp & _).
  by apply has_video_id_true.
Qed.

(** One pass of the loop body keeps every stored row: same primary key,
    same external id, same created timestamp. *)
Lemma upsert_same_row (now : Z) (vd : video_data) (tbl : list Video)
    (vid : string) (old : Video) :
  NoDup (map video_id tbl) ->
  lookup_video vid tbl = Some old ->
  exists row, lookup_video vid (fst (upsert now vd tbl)) = Some row /\ same_row old row.
Proof.
  intros Hnd Hold.
  destruct (upsert_spec now vd tbl Hnd) as (_ & _ & Hother & row & Hrow & Hh & Hcase).
  destruct (decide (vid = vd_video_id vd)) as [->|Hne].
  - exists row. split; [done|]. rewrite Hold in Hcase.
    destruct Hcase as (_ & _ & Hid & Hc & _).
    split; [done|]. split; [|done].
    apply lookup_video_id in Hold. apply lookup_video_id in Hrow. congruence.
  - exists old. rewrite (Hother vid Hne). by split.
Qed.

(** What the upsert loop does to a table that satisfies the unique
    constraint on the external id. *)
Lemma store_videos_rows (now : Z) (vds : list video_data) :
  forall (tbl : list Video) (n : nat),
    NoDup (map video_id tbl) ->
    let tbl' := fst (store_videos now vds tbl n) in
    NoDup (map video_id tbl') /\
    (NoDup (map id tbl) -> NoDup (map id tbl')) /\
    (forall vid old, lookup_video vid tbl = Some old ->
       exists row, lookup_video vid tbl' = Some row /\ same_row old row) /\
    (forall vid, vid ∉ map vd_video_id vds ->
       lookup_video vid tbl' = lookup_video vid tbl) /\
    (forall l1 vd l2, vds = l1 ++ vd :: l2 -> vd_video_id vd ∉ map vd_video_id l2 ->
       exists row, lookup_video (vd_video_id vd) tbl' = Some row /\ stores_item vd row).
Proof.
  induction vds as [|vd vds IH]; intros tbl n Hnd; simpl.
  - split; [done|]. split; [done|]. split; [intros vid old ?; by exists old|].
    split; [done|]. intros [|x l1] vd l2; discriminate.
  - destruct (upsert_spec now vd tbl Hnd) as (Hnd1 & _ & Hother & row1 & Hrow1 & Hh1 & Hcase).
    pose proof (upsert_ids now vd tbl) as Hids.
    pose proof (fun vid old => upsert_same_row now vd tbl vid old Hnd) as Hsame.
    destruct (upsert now vd tbl) as [tbl1 created]. simpl in *.
    destruct (IH tbl1 (if created then S n else n) Hnd1) as (Hnd' & Hids' & Hsame' & Hother' & Hlast').
    split; [done|]. split; [auto|]. split; [|split].
    + intros vid old Hold. destruct (Hsame vid old Hold) as (r1 & Hr1 & Hs1 & Hs2 & Hs3).
      destruct (Hsame' vid r1 Hr1) as (r2 & Hr2 & Ht1 & Ht2 & Ht3).
      exists r2. split; [done|]. unfold same_row. split; [congruence|]. split; congruence.
    + intros vid [Hne Hnotin]%not_elem_of_cons.
      rewrite (Hother' vid Hnotin). by apply Hother.
    + intros [|x l1] vd' l2; simpl; intros [= <- ->] Hnotin.
      * exists row1. rewrite (Hother' _ Hnotin). split; [done|]. split; [done|].
        intros det Hdet.
        destruct (lookup_video (vd_video_id vd) tbl) as [old|].
        -- destruct Hcase as (_ & _ & _ & _ & Hd & Hv).
           unfold merged_duration, merged_view_count in *. by rewrite Hdet in Hd, Hv.
        -- destruct Hcase as (_ & _ & Hd & Hv & _). by rewrite Hdet in Hd, Hv.
      * by apply (Hlast' l1 vd' l2).
Qed.

(** X7. A fetch keeps the video table sound, whatever the remote answers
    and however the call ends. From a clean session and a committed table
    with unique external ids: the ids are unique afterwards; unique primary
    keys stay unique; every row that was stored is still stored under its
    external id, with the primary key and the created timestamp it had; and
    the table never shrinks. *)
Theorem fetch_keeps_rows (w : World) (clk : clock) (qr : string) (max_results : Z)
    (page_token : option string) (s : State) :
  clean s ->
  NoDup (map video_id (videos (committed (db s)))) ->
  let tbl := videos (committed (db s)) in
  let tbl' := videos (committed (db (snd (fetch_videos w clk qr max_results page_token s)))) in
  NoDup (map video_id tbl') /\
  (NoDup (map id tbl) -> NoDup (map id tbl')) /\
  (forall vid old, lookup_video vid tbl = Some old ->
     exists row, lookup_video vid tbl' = Some row /\ same_row old row) /\
  (length tbl <= length tbl')%nat.
Proof.
  intros Hclean Hnd tbl tbl'.
  pose proof (fetch_videos_batch w clk qr max_results page_token s Hclean) as Hb.
  assert (Hsame : tbl' = tbl ->
    NoDup (map video_id tbl') /\ (NoDup (map id tbl) -> NoDup (map id tbl')) /\
    (forall vid old, lookup_video vid tbl = Some old ->
       exists row, lookup_video vid tbl' = Some row /\ same_row old row) /\
    (length tbl <= length tbl')%nat).
  { intros ->. split; [done|]. split; [done|]. split; [|done].
    intros vid old ?. by exists old. }
  destruct (fst (fetch_videos w clk qr max_results page_token s)) as [e|res];
    [by apply Hsame|].
  destruct (stored_count res) as [n|]; [|by apply Hsame].
  destruct (store_videos_rows (utcnow clk) (items res) tbl 0 Hnd)
    as (H1 & H2 & H3 & _).
  pose proof (store_videos_count (utcnow clk) (items res) tbl 0) as Hcount.
  fold tbl in Hb. rewrite Hb in H1, H2, H3, Hcount. simpl in *. fold tbl' in H1, H2, H3, Hcount.
  split; [done|]. split; [done|]. split; [done|]. lia.
Qed.

Lemma fetch_keeps_rows_witness :
  clean (fresh_service world_two_videos "k1" "") /\
  NoDup (map video_id (videos (committed (db (fresh_service world_two_videos "k1" ""))))) /\
  NoDup (map video_id
           (videos (committed (db (snd (fetch_videos world_two_videos noon "cats" 10 None
                                          (fresh_service world_two_videos "k1" ""))))))).
Proof.
  assert (H1 : clean (fresh_service world_two_videos "k1" "")) by reflexivity.
  assert (H2 : NoDup (map video_id
                        (videos (committed (db (fresh_service world_two_videos "k1" ""))))))
    by apply NoDup_nil_2.
  split; [exact H1|]. split; [exact H2|].
  exact (proj1 (fetch_keeps_rows world_two_videos noon "cats" 10 None
                  (fresh_service world_two_videos "k1" "") H1 H2)).
Defined.

(** X8. What a remote fetch returns is what it stored. When a call from a
    clean session over a table with unique external ids returns a result
    that carries a stored count, every returned item has a committed row
    under its id; the row holds the values of the last returned item with
    that id (its details too when it carries them); and the row of every id
    that is not among the returned items is the row that was there. *)
Theorem fetched_items_are_stored (w : World) (clk : clock) (qr : string)
    (max_results : Z) (page_token : option string) (s s' : State)
    (res : fetch_result) (n : nat) :
  clean s ->
  NoDup (map video_id (videos (committed (db s)))) ->
  fetch_videos w clk qr max_results page_token s = (inr res, s') ->
  stored_count res = Some n ->
  (forall vd, vd ∈ items res ->
     exists row, lookup_video (vd_video_id vd) (videos (committed (db s'))) = Some row) /\
  (forall l1 vd l2, items res = l1 ++ vd :: l2 -> vd_video_id vd ∉ map vd_video_id l2 ->
     exists row,
       lookup_video (vd_video_id vd) (videos (committed (db s'))) = Some row /\
       stores_item vd row) /\
  (forall vid, vid ∉ map vd_video_id (items res) ->
     lookup_video vid (videos (committed (db s')))
     = lookup_video vid (videos (committed (db s)))).
Proof.
  intros Hclean Hnd Hrun Hn.
  pose proof (fetch_videos_batch w clk qr max_results page_token s Hclean) as Hb.
  rewrite Hrun in Hb. simpl in Hb. rewrite Hn in Hb.
  destruct (store_videos_rows (utcnow clk) (items res) _ 0 Hnd)
    as (_ & _ & _ & Hother & Hlast).
  rewrite Hb in Hother, Hlast. simpl in *.
  split; [|by split].
  intros vd Hin.
  destruct (decide (vd_video_id vd ∈ map vd_video_id (items res))) as [Hmem|Hno];
    [|exfalso; apply Hno; clear -Hin; induction Hin; simpl; rewrite elem_of_cons; auto].
  clear Hin. revert Hmem. generalize (vd_video_id vd) as vid. intros vid Hmem.
  assert (Hsplit : exists l1 vd' l2, items res = l1 ++ vd' :: l2 /\ vd_video_id vd' = vid /\
                                      vid ∉ map vd_video_id l2).
  { clear -Hmem. induction (items res) as [|x l IH]; [by apply elem_of_nil in Hmem|].
    destruct (decide (vid ∈ map vd_video_id l)) as [Hin|Hnotin].
    - destruct (IH Hin) as (l1 & vd' & l2 & -> & Hid & Hl2).
      by exists (x :: l1), vd', l2.
    - apply elem_of_cons in Hmem as [Heq|Hin]; [|done].
      by exists [], x, l. }
  destruct Hsplit as (l1 & vd' & l2 & Hitems & <- & Hl2).
  destruct (Hlast l1 vd' l2 Hitems Hl2) as (row & Hrow & _). by exists row.
Qed.

Lemma fetched_items_are_stored_witness :
  clean (fresh_service world_two_videos "k1" "") /\
  NoDup (map video_id (videos (committed (db (fresh_service world_two_videos "k1" ""))))) /\
  (exists (res : fetch_result) (s' : State),
     fetch_videos world_two_videos noon "cats" 10 None
       (fresh_service world_two_videos "k1" "") = (inr res, s') /\
     stored_count res = Some 2%nat /\
     forall vd, vd ∈ items res ->
       exists row, lookup_video (vd_video_id vd) (videos (committed (db s'))) = Some row).
Proof.
  assert (H1 : clean (fresh_service world_two_videos "k1" "")) by reflexivity.
  assert (H2 : NoDup (map video_id
                        (videos (committed (db (fresh_service world_two_videos "k1" ""))))))
    by apply NoDup_nil_2.
  split; [exact H1|]. split; [exact H2|].
  eexists _, _. split; [vm_compute; reflexivity|]. split; [reflexivity|].
  refine (proj1 (fetched_items_are_stored world_two_videos noon "cats" 10 None
                   (fresh_service world_two_videos "k1" "") _ _ 2%nat H1 H2 _ _)).
  - vm_compute. reflexivity.
  - reflexivity.
Defined.

(** ** Storing a batch twice *)











(* ===================================================================== *)
(** * Further properties: relations kept by a whole call                  *)
(* ===================================================================== *)

Section Runs.
Variable w : World.
Variables (clk : clock) (qr : string) (max_results : Z) (page_token : option string).

Section Relation.
Context (R : State -> State -> Prop) `{!PreOrder R}.

Lemma fetch_try_run :
  preserves R (fetch_remote w clk qr max_results page_token) ->
  (forall resp vds, preserves R (persist (utcnow clk) qr resp vds)) ->
  preserves R (fetch_try w clk qr max_results page_token).
Proof.
  intros Hrem Hper. unfold fetch_try.
  apply preserves_bind; [done | by apply preserves_get | intros s0].
  destruct (first_page_shortcut w (utcnow clk) (cache s0) qr page_token);
    [by apply preserves_ret|].
  apply preserves_bind; [done | done | intros fetched; apply Hper].
Qed.

Lemma fetch_attempt_run :
  (forall s, R s (snd (_switch_api_key w s))) ->
  preserves R (fetch_try w clk qr max_results page_token) ->
  forall s out s',
    fetch_attempt w clk qr max_results page_token s = (out, s') -> R s s'.
Proof.
  intros Hsw Htry s out s'. unfold fetch_attempt.
  destruct (youtube s); [|intros [= <- <-]; reflexivity].
  destruct (fetch_try w clk qr max_results page_token s) as [[e|r] s1] eqn:Hrun;
    apply Htry in Hrun; [|by intros [= <- <-]].
  assert (Hraise : forall e', (Raise e', s1) = (out, s') -> R s s')
    by (by intros e' [= <- <-]).
  destruct e as [status text| | | |]; try apply Hraise.
  destruct ((status =? 403) && str_in "quotaExceeded" text); [|apply Hraise].
  specialize (Hsw s1). destruct (_switch_api_key w s1) as [[|] s2]; simpl in Hsw;
    intros [= <- <-]; by etransitivity.
Qed.

Lemma fetch_videos_rec_run (fuel : nat) :
  (forall s out s',
     fetch_attempt w clk qr max_results page_token s = (out, s') -> R s s') ->
  forall s r s',
    fetch_videos_rec w fuel clk qr max_results page_token s = Some (r, s') -> R s s'.
Proof.
  intros Hat. induction fuel as [|fuel IH]; intros s r s'; simpl; [discriminate|].
  destruct (fetch_attempt w clk qr max_results page_token s) as [[x|e|] s1] eqn:Hrun;
    apply Hat in Hrun.
  - by intros [= <- <-].
  - by intros [= <- <-].
  - intros Hrec. etransitivity; [done | by eapply IH].
Qed.

(** A relation kept by a switch of key, by the remote part and by the
    store part is kept by the whole call. *)
Lemma fetch_videos_run :
  (forall s, R s (snd (_switch_api_key w s))) ->
  preserves R (fetch_remote w clk qr max_results page_token) ->
  (forall resp vds, preserves R (persist (utcnow clk) qr resp vds)) ->
  forall s, R s (snd (fetch_videos w clk qr max_results page_token s)).
Proof.
  intros Hsw Hrem Hper s.
  pose proof (fetch_videos_unfold w clk qr max_results page_token s) as Hrun.
  destruct (fetch_videos w clk qr max_results page_token s) as [r s'].
  eapply fetch_videos_rec_run; [|exact Hrun].
  apply fetch_attempt_run; [done|]. by apply fetch_try_run.
Qed.
End Relation.

(** A result is returned by the [try] block of the last activation. *)
Lemma fetch_videos_returns (P : fetch_result -> State -> Prop) :
  (forall s r s', fetch_try w clk qr max_results page_token s = (inr r, s') -> P r s') ->
  forall s r s',
    fetch_videos w clk qr max_results page_token s = (inr r, s') -> P r s'.
Proof.
  intros Htry s r s' Hrun.
  pose proof (fetch_videos_unfold w clk qr max_results page_token s) as Hrec.
  rewrite Hrun in Hrec. clear Hrun.
  revert Hrec. generalize (attempts_left s) as fuel. intros fuel. revert s.
  induction fuel as [|fuel IH]; intros s0; simpl; [discriminate|].
  destruct (fetch_attempt w clk qr max_results page_token s0) as [[x|e|] s1] eqn:Hat.
  - intros [= -> ->]. unfold fetch_attempt in Hat.
    destruct (youtube s0); [|discriminate].
    destruct (fetch_try w clk qr max_results page_token s0) as [[e|res] s2] eqn:Hrun.
    + repeat (case_match; simplify_eq).
    + injection Hat as <- <-. by eapply Htry.
  - discriminate.
  - apply IH.
Qed.
End Runs.

(* ===================================================================== *)
(** * Further properties: the query-fetch state                           *)
(* ===================================================================== *)

Lemma has_query_true (qr : string) (c : SearchCache) :
  has_query qr c = true <-> query c = qr.
Proof. unfold has_query. apply String.eqb_eq. Qed.

Lemma lookup_query_None (qr : string) (tbl : list SearchCache) :
  lookup_query qr tbl = None -> qr ∉ map query tbl.
Proof.
  unfold lookup_query. rewrite fmap_None, first_index_None.
  induction tbl as [|c tbl IH]; simpl; [intros _; apply not_elem_of_nil|].
  destruct (has_query qr c) eqn:Hc; [discriminate|].
  intros Hrest. apply not_elem_of_cons. split; [|by apply IH].
  intros Heq. unfold has_query in Hc. by rewrite <- Heq, String.eqb_refl in Hc.
Qed.

Lemma update_search_cache_lookup (now : Z) (qr : string) (total : Z)
    (token : option string) (tbl : list SearchCache) :
  exists c,
    lookup_query qr (update_search_cache now qr total token tbl) = Some c /\
    query c = qr /\ last_fetched c = now /\ total_results c = total /\
    next_page_token c = token.
Proof.
  unfold lookup_query, update_search_cache.
  destruct (first_index (has_query qr) tbl) as [[i c]|] eqn:Hf.
  - destruct (first_index_Some _ _ _ _ Hf) as (_ & Hp & _).
    eexists. erewrite first_index_insert; [|exact Hf|exact Hp]. simpl.
    by apply has_query_true in Hp.
  - eexists. rewrite first_index_app_new; [|done|by apply has_query_true]. by simpl.
Qed.

Lemma update_search_cache_queries (now : Z) (qr : string) (total : Z)
    (token : option string) (tbl : list SearchCache) :
  NoDup (map query tbl) ->
  NoDup (map query (update_search_cache now qr total token tbl)).
Proof.
  intros Hnd. unfold update_search_cache.
  destruct (first_index (has_query qr) tbl) as [[i c]|] eqn:Hf.
  - destruct (first_index_Some _ _ _ _ Hf) as (Hi & _).
    erewrite map_insert_same; [done | exact Hi | reflexivity].
  - rewrite map_app. apply NoDup_app. split; [done|]. split; [|apply NoDup_singleton].
    intros x Hx [->|[]%elem_of_nil]%elem_of_cons. revert Hx.
    apply lookup_query_None. unfold lookup_query. simpl. by rewrite Hf.
Qed.

Lemma persist_search_cache (now : Z) (qr : string) (resp : search_response)
    (vds : list video_data) (s : State) (r : fetch_result) (s' : State) :
  persist now qr resp vds s = (inr r, s') ->
  search_cache (session (db s'))
  = update_search_cache now qr (Z.of_nat (length vds)) (resp_nextPageToken resp)
      (search_cache (session (db s))) /\
  committed (db s') = session (db s') /\
  items r = vds /\ nextPageToken r = resp_nextPageToken resp.
Proof.
  unfold persist, bind, store_batch, db_commit, record_fetch_state, modify, ret.
  destruct (store_videos now vds (videos (session (db s))) 0) as [tbl n].
  simpl. by intros [= <- <-].
Qed.

Section QueryState.
Variable w : World.
Variables (clk : clock) (qr : string) (max_results : Z) (page_token : option string).

Lemma fetch_videos_one_row_per_query (s : State) :
  one_row_per_query s (snd (fetch_videos w clk qr max_results page_token s)).
Proof.
  assert (Hpre : PreOrder one_row_per_query).
  { split; [intros x Hx; exact Hx | intros x y z Hxy Hyz Hx; exact (Hyz (Hxy Hx))]. }
  assert (Hsame : forall s1 s2 : State,
            search_cache (session (db s2)) = search_cache (session (db s1)) ->
            one_row_per_query s1 s2).
  { intros s1 s2 Heq Hnd. by rewrite Heq. }
  assert (Hcall : forall ids, preserves one_row_per_query (call_videos_list w ids)).
  { intros ids s1 r s2 Hrun. unfold call_videos_list in Hrun.
    destruct (youtube s1); injection Hrun as <- <-; by apply Hsame. }
  assert (Htrack : forall cost, preserves one_row_per_query (_track_api_usage w clk cost)).
  { intros cost s1 r s2 Hrun. unfold _track_api_usage in Hrun.
    destruct (api_keys s1 !! current_key_index s1); injection Hrun as <- <-;
      by apply Hsame. }
  apply fetch_videos_run; [done | | |].
  - intros s1. apply Hsame. by destruct (switch_fields w s1) as (_ & _ & -> & _).
  - apply fetch_remote_run; [done | | | done | done].
    + intros s1. apply Hsame. by destruct (switch_fields w s1) as (_ & _ & -> & _).
    + intros req s1 r s2 Hrun. unfold call_search in Hrun.
      destruct (youtube s1); injection Hrun as <- <-; by apply Hsame.
  - intros resp vds s1 r s2 Hrun Hnd.
    destruct (persist_props _ _ _ _ _ _ _ Hrun) as (_ & _ & _ & Hne).
    destruct r as [e|res]; [by destruct (Hne e)|].
    destruct (persist_search_cache _ _ _ _ _ _ _ Hrun) as (-> & _).
    by apply update_search_cache_queries.
Qed.
End QueryState.

(** X10. A fetch that went to the remote API records it. When a call
    returns a result that carries a stored count, the committed query-fetch
    table has a row for the query whose last-fetched time is the time of the
    call, whose total is the number of returned items and whose page token
    is the returned one; hence [_should_fetch_new_videos] for that query
    answers no until strictly more than the given number of minutes has
    passed since the call. In every case the table keeps one row per query
    if it had one row per query. *)
Theorem fetch_records_query_state (w : World) (clk : clock) (qr : string)
    (max_results : Z) (page_token : option string) (s : State) :
  (forall (res : fetch_result) (s' : State) (n : nat),
      fetch_videos w clk qr max_results page_token s = (inr res, s') ->
      stored_count res = Some n ->
      committed (db s') = session (db s') /\
      (exists c,
         lookup_query qr (search_cache (committed (db s'))) = Some c /\
         query c = qr /\ last_fetched c = utcnow clk /\
         total_results c = Z.of_nat (length (items res)) /\
         next_page_token c = nextPageToken res) /\
      (forall now minutes : Z,
         _should_fetch_new_videos now qr minutes (db s')
         = (timedelta_minutes minutes <? now - utcnow clk))) /\
  one_row_per_query s (snd (fetch_videos w clk qr max_results page_token s)).
Proof.
  split; [|apply fetch_videos_one_row_per_query].
  intros res s' n Hrun Hn.
  assert (Hpost : committed (db s') = session (db s') /\
            exists c,
              lookup_query qr (search_cache (session (db s'))) = Some c /\
              query c = qr /\ last_fetched c = utcnow clk /\
              total_results c = Z.of_nat (length (items res)) /\
              next_page_token c = nextPageToken res).
  { revert Hn. revert s res s' Hrun.
    apply (fetch_videos_returns w clk qr max_results page_token
             (fun res s' => stored_count res = Some n ->
                committed (db s') = session (db s') /\
                exists c,
                  lookup_query qr (search_cache (session (db s'))) = Some c /\
                  query c = qr /\ last_fetched c = utcnow clk /\
                  total_results c = Z.of_nat (length (items res)) /\
                  next_page_token c = nextPageToken res)).
    intros s0 r s1. unfold fetch_try, bind, get.
    destruct (first_page_shortcut w (utcnow clk) (cache s0) qr page_token) as [x|] eqn:Hsh.
    - intros [= <- <-] Hn. unfold first_page_shortcut in Hsh.
      repeat (case_match; simplify_eq); discriminate.
    - destruct (fetch_remote w clk qr max_results page_token s0) as [[e|[resp vds]] s2];
        [discriminate|].
      simpl. intros Hper _.
      destruct (persist_search_cache _ _ _ _ _ _ _ Hper) as (Hsc & Hcommit & -> & ->).
      split; [done|]. rewrite Hsc. apply update_search_cache_lookup. }
  destruct Hpost as (Hcommit & c & Hc & Hq & Hl & Ht & Hp).
  split; [done|]. split; [exists c; by rewrite Hcommit|].
  intros now minutes. unfold _should_fetch_new_videos.
  unfold lookup_query in Hc.
  destruct (first_index (has_query qr) (search_cache (session (db s')))) as [[i c']|];
    [|discriminate].
  injection Hc as ->. by rewrite Hl.
Qed.

Lemma fetch_records_query_state_witness :
  exists (res : fetch_result) (s' : State),
    fetch_videos world_two_videos noon "cats" 10 None
      (fresh_service world_two_videos "k1" "") = (inr res, s') /\
    stored_count res = Some 2%nat /\
    _should_fetch_new_videos (utcnow noon + timedelta_minutes 10) "cats" 10 (db s')
    = (timedelta_minutes 10 <? utcnow noon + timedelta_minutes 10 - utcnow noon).
Proof.
  eexists _, _. split; [vm_compute; reflexivity|]. split; [reflexivity|].
  refine (proj2 (proj2 (proj1 (fetch_records_query_state world_two_videos noon "cats" 10
                                 None (fresh_service world_two_videos "k1" ""))
                          _ _ 2%nat _ _)) _ _).
  - vm_compute. reflexivity.
  - reflexivity.
Defined.

(* ===================================================================== *)
(** * Further properties: a pool that has run out                         *)
(* ===================================================================== *)

#[local] Instance uncharged_preorder : PreOrder uncharged.
Proof.
  split.
  - intros s. split; [reflexivity | done].
  - intros s1 s2 s3 [Hf1 Hl1] [Hf2 Hl2]. split; [by etransitivity|].
    intros Hpast. rewrite Hl2, Hl1; [done | done |].
    destruct Hf1 as [Hk _ Hi _]. rewrite Hk. lia.
Qed.

Section Uncharged.
Variable w : World.

Lemma uncharged_same (s s' : State) : frame s s' -> db s' = db s -> uncharged s s'.
Proof. intros Hf Hdb. split; [done|]. intros _. unfold ledger. by rewrite Hdb. Qed.

Lemma switch_uncharged (s : State) : uncharged s (snd (_switch_api_key w s)).
Proof.
  apply uncharged_same; [apply switch_frame|].
  by destruct (switch_fields w s) as (_ & _ & -> & _).
Qed.

Lemma call_search_uncharged (req : search_request) :
  preserves uncharged (call_search w req).
Proof.
  intros s r s' Hrun. apply uncharged_same; [by eapply call_search_frame|].
  unfold call_search in Hrun. destruct (youtube s); by injection Hrun as <- <-.
Qed.

Lemma call_videos_list_uncharged (ids : list string) :
  preserves uncharged (call_videos_list w ids).
Proof.
  intros s r s' Hrun. apply uncharged_same; [by eapply call_videos_list_frame|].
  unfold call_videos_list in Hrun. destruct (youtube s); by injection Hrun as <- <-.
Qed.

(** Past the end of the key list [_track_api_usage] returns at once. *)
Lemma track_uncharged (clk : clock) (cost : Z) :
  preserves uncharged (_track_api_usage w clk cost).
Proof.
  intros s r s' Hrun. split; [by eapply track_frame|]. intros Hpast.
  unfold _track_api_usage in Hrun.
  destruct (api_keys s !! current_key_index s) eqn:Hk.
  - apply lookup_lt_Some in Hk. lia.
  - by injection Hrun as <- <-.
Qed.

Lemma persist_uncharged (now : Z) (qr : string) (resp : search_response)
    (vds : list video_data) :
  preserves uncharged (persist now qr resp vds).
Proof.
  intros s r s' Hrun.
  destruct (persist_props _ _ _ _ _ _ _ Hrun) as (Hf & _). split; [done|]. intros _.
  destruct (persist_run now qr resp vds s) as (x & t1 & t2 & Heq & _ & _ & Hl & _).
  rewrite Heq in Hrun. injection Hrun as <- <-. exact Hl.
Qed.

Lemma fetch_videos_uncharged (clk : clock) (qr : string) (max_results : Z)
    (page_token : option string) (s : State) :
  uncharged s (snd (fetch_videos w clk qr max_results page_token s)).
Proof.
  apply fetch_videos_run; [apply _ | apply switch_uncharged | |].
  - apply fetch_remote_run; [apply _ | apply switch_uncharged | apply call_search_uncharged
      | apply call_videos_list_uncharged | apply track_uncharged].
  - intros resp vds. apply persist_uncharged.
Qed.
End Uncharged.

(** X11. Once the key index is past the last key the pool does not come
    back and its use is not charged: a fetch started there leaves the usage
    ledger as it was and the index past the end, and issues at most one
    search. The call is not refused, though: with a client left over from
    the last key, a fetch started past the end can reach the remote API and
    store what it returns, while the ledger stays empty. *)
Theorem exhausted_pool_charges_nothing :
  (forall (w : World) (clk : clock) (qr : string) (max_results : Z)
          (page_token : option string) (s : State),
      (length (api_keys s) <= current_key_index s)%nat ->
      let s' := snd (fetch_videos w clk qr max_results page_token s) in
      ledger s' = ledger s /\
      (length (api_keys s') <= current_key_index s')%nat /\
      (searches s' <= searches s + 1)%nat) /\
  (exists (res : fetch_result) (s' : State),
      (length (api_keys service_past_the_end)
       <= current_key_index service_past_the_end)%nat /\
      fetch_videos world_recovering noon "cats" 10 None service_past_the_end
      = (inr res, s') /\
      stored_count res = Some 1%nat /\
      searches s' = (searches service_past_the_end + 1)%nat /\
      ledger s' = []).
Proof.
  split.
  - intros w clk qr max_results page_token s Hpast s'.
    destruct (fetch_videos_uncharged w clk qr max_results page_token s) as [Hf Hl].
    fold s' in Hf, Hl.
    pose proof (fetch_videos_props w clk qr max_results page_token s) as Hprops.
    destruct (fetch_videos w clk qr max_results page_token s) as [r s1] eqn:Hrun.
    simpl in s'. subst s'. destruct Hprops as (_ & Hw & _).
    split; [by apply Hl|]. split.
    + destruct Hf as [Hk _ Hi _]. rewrite Hk. lia.
    + unfold within, activations in Hw. lia.
  - eexists _, _. split; [vm_compute; lia|]. split; [vm_compute; reflexivity|].
    vm_compute. repeat split; reflexivity.
Qed.

Lemma exhausted_pool_charges_nothing_witness :
  (length (api_keys service_past_the_end) <= current_key_index service_past_the_end)%nat /\
  ledger (snd (fetch_videos world_recovering noon "cats" 10 None service_past_the_end))
  = ledger service_past_the_end.
Proof.
  assert (H : (length (api_keys service_past_the_end)
               <= current_key_index service_past_the_end)%nat) by (vm_compute; lia).
  split; [exact H|].
  exact (proj1 (proj1 exhausted_pool_charges_nothing world_recovering noon "cats" 10 None
                  service_past_the_end H)).
Defined.

(* ===================================================================== *)
(** * Further properties: what goes on the wire                           *)
(* ===================================================================== *)

Section Wire.
Variable w : World.
Variable req : search_request.

Lemma sends_only_preorder : PreOrder (sends_only req).
Proof.
  split.
  - intros s Hc. split; [done|]. split; [done|]. exists []. by rewrite app_nil_r.
  - intros s1 s2 s3 H12 H23 Hc.
    destruct (H12 Hc) as (Hc2 & Hk2 & evs2 & Ht2 & Hf2).
    destruct (H23 Hc2) as (Hc3 & Hk3 & evs3 & Ht3 & Hf3).
    split; [done|]. split; [congruence|]. exists (evs2 ++ evs3).
    split; [by rewrite Ht3, Ht2, app_assoc|].
    apply Forall_app. split; [done|]. by rewrite <- Hk2.
Qed.

Lemma sends_only_emits (s s' : State) (evs : list event) :
  youtube s' = youtube s -> api_keys s' = api_keys s -> trace s' = trace s ++ evs ->
  (client_from_keys s -> Forall (sends (api_keys s) req) evs) ->
  sends_only req s s'.
Proof.
  intros Hy Hk Ht Hevs Hc. split; [|split; [done|by exists evs; auto]].
  intros key. rewrite Hy, Hk. apply Hc.
Qed.

Lemma initialize_client_from_keys (s : State) :
  client_from_keys s -> client_from_keys (_initialize_youtube_client w s).
Proof.
  intros Hc. unfold _initialize_youtube_client.
  destruct (api_keys s !! current_key_index s) as [api_key|] eqn:Hk; [|done].
  destruct (build_ok w api_key); [|done].
  intros key [= <-]. simpl. by eapply list_elem_of_lookup_2.
Qed.

Lemma switch_sends_only (s : State) : sends_only req s (snd (_switch_api_key w s)).
Proof.
  intros Hc.
  destruct (switch_fields w s) as (Hk & _ & _ & _ & Ht & _).
  split; [|split; [done | exists []; by rewrite app_nil_r]].
  unfold _switch_api_key. simpl.
  destruct (S (current_key_index s) <? length (api_keys s))%nat; simpl; [|done].
  by apply initialize_client_from_keys.
Qed.

Lemma call_search_sends_only : preserves (sends_only req) (call_search w req).
Proof.
  intros s r s' Hrun. unfold call_search in Hrun.
  destruct (youtube s) as [key|] eqn:Hy; injection Hrun as <- <-;
    [|apply sends_only_preorder].
  apply (sends_only_emits _ _ [EvSearch key req]); try done.
  intros Hc. apply Forall_singleton. split; [by apply Hc | done].
Qed.

Lemma call_videos_list_sends_only (ids : list string) :
  ids <> [] -> preserves (sends_only req) (call_videos_list w ids).
Proof.
  intros Hids s r s' Hrun. unfold call_videos_list in Hrun.
  destruct (youtube s) as [key|] eqn:Hy; injection Hrun as <- <-;
    [|apply sends_only_preorder].
  apply (sends_only_emits _ _ [EvVideosList key ids]); try done.
  intros Hc. apply Forall_singleton. split; [by apply Hc | done].
Qed.

Lemma track_sends_only (clk : clock) (cost : Z) :
  preserves (sends_only req) (_track_api_usage w clk cost).
Proof.
  intros s r s' Hrun. unfold _track_api_usage in Hrun.
  destruct (api_keys s !! current_key_index s); injection Hrun as <- <-;
    [|apply sends_only_preorder].
  eapply (sends_only_emits _ _ [_]); try done.
  intros _. by apply Forall_singleton.
Qed.

Lemma persist_sends_only (now : Z) (qr : string) (resp : search_response)
    (vds : list video_data) :
  preserves (sends_only req) (persist now qr resp vds).
Proof.
  intros s r s' Hrun.
  destruct (persist_run now qr resp vds s) as (x & t1 & t2 & Heq & _).
  rewrite Heq in Hrun. injection Hrun as <- <-.
  apply (sends_only_emits _ _ [EvCommit t1; EvCommit t2]); try done.
  - simpl. by rewrite <- app_assoc.
  - intros _. by repeat constructor.
Qed.

Lemma fetch_details_sends_only (clk : clock) (vds : list video_data) :
  preserves (sends_only req) (fetch_details w clk vds).
Proof.
  pose proof sends_only_preorder as Hpre.
  destruct vds as [|vd vds]; [by apply preserves_ret|].
  unfold fetch_details.
  apply preserves_bind; [done | by apply call_videos_list_sends_only | intros resp].
  apply preserves_bind; [done | apply track_sends_only | intros _].
  apply preserves_bind; [done | by apply preserves_lift | intros m].
  by apply preserves_ret.
Qed.
End Wire.

Section WireCall.
Variable w : World.
Variables (clk : clock) (qr : string) (max_results : Z) (page_token : option string).

Lemma fetch_remote_sends_only :
  preserves (sends_only (request_of clk qr max_results page_token))
    (fetch_remote w clk qr max_results page_token).
Proof.
  pose proof (sends_only_preorder (request_of clk qr max_results page_token)) as Hpre.
  unfold fetch_remote.
  apply preserves_bind;
    [done | apply check_quota_mirror_run; [done | apply switch_sends_only] | intros _].
  apply preserves_bind; [done | apply call_search_sends_only | intros resp].
  apply preserves_bind; [done | apply track_sends_only | intros _].
  apply preserves_bind; [done | by apply preserves_lift | intros parsed_videos].
  apply preserves_bind; [done | apply fetch_details_sends_only | intros vds].
  by apply preserves_ret.
Qed.

Lemma fetch_videos_sends_only (s : State) :
  sends_only (request_of clk qr max_results page_token) s
    (snd (fetch_videos w clk qr max_results page_token s)).
Proof.
  pose proof (sends_only_preorder (request_of clk qr max_results page_token)) as Hpre.
  apply fetch_videos_run; [done | apply switch_sends_only | apply fetch_remote_sends_only |].
  intros resp vds. apply persist_sends_only.
Qed.
End WireCall.

(** X12. What a fetch puts on the wire. A service as [__init__] builds it
    has a client made from one of its keys, and a fetch keeps that. During
    a fetch the trace only grows, and every remote call in the new part
    carries a key of the configured list; every search is the request built
    from the arguments (the query, published after seven days before the
    call, the page token, and a page size of [min max_results 50], so never
    above 50); every detail call names at least one id. *)
Theorem remote_calls_well_formed (w : World) (clk : clock) (qr : string)
    (max_results : Z) (page_token : option string) :
  (forall (key_1 key_2 key_3 : string) (d : DB) (c : option redis),
      client_from_keys (YouTubeService.init w key_1 key_2 key_3 d c)) /\
  (forall s : State,
      client_from_keys s ->
      let s' := snd (fetch_videos w clk qr max_results page_token s) in
      client_from_keys s' /\
      exists evs,
        trace s' = trace s ++ evs /\
        Forall (sends (api_keys s) (request_of clk qr max_results page_token)) evs) /\
  q (request_of clk qr max_results page_token) = qr /\
  publishedAfter (request_of clk qr max_results page_token)
  = utcnow clk - timedelta_days 7 /\
  pageToken (request_of clk qr max_results page_token) = page_token /\
  maxResults (request_of clk qr max_results page_token) <= 50 /\
  maxResults (request_of clk qr max_results page_token) <= max_results.
Proof.
  split; [|split].
  - intros key_1 key_2 key_3 d c. unfold YouTubeService.init.
    apply initialize_client_from_keys. intros key. discriminate.
  - intros s Hc s'.
    destruct (fetch_videos_sends_only w clk qr max_results page_token s Hc)
      as (Hc' & _ & Hevs).
    by split.
  - simpl. repeat split; lia.
Qed.

Lemma remote_calls_well_formed_witness :
  client_from_keys (fresh_service world_one_key_out "k1" "k2") /\
  exists evs,
    trace (snd (fetch_videos world_one_key_out noon "cats" 80 None
                  (fresh_service world_one_key_out "k1" "k2")))
    = trace (fresh_service world_one_key_out "k1" "k2") ++ evs /\
    Forall (sends (api_keys (fresh_service world_one_key_out "k1" "k2"))
              (request_of noon "cats" 80 None)) evs.
Proof.
  assert (H : client_from_keys (fresh_service world_one_key_out "k1" "k2"))
    by (apply (proj1 (remote_calls_well_formed world_one_key_out noon "cats" 80 None))).
  split; [exact H|].
  exact (proj2 (proj1 (proj2 (remote_calls_well_formed world_one_key_out noon "cats" 80 None))
                  (fresh_service world_one_key_out "k1" "k2") H)).
Defined.

(* ===================================================================== *)
(** * Further properties: a cache that is down                            *)
(* ===================================================================== *)

Section Silent.
Variable w : World.

Lemma silent_reads (c : option redis) (now : Z) (qr : string) (hours : Z) (i : nat) :
  silent c ->
  should_skip_query c now qr hours = false /\
  get_cached_search_results (md5_hex w) c now qr = None /\
  quota_exhausted_in_cache (date_str w) c now i = false.
Proof.
  destruct c as [r|]; simpl; [|done]. intros Hr.
  unfold should_skip_query, get_cached_search_results, quota_exhausted_in_cache, redis_get.
  by rewrite Hr.
Qed.

Lemma silent_no_shortcut (c : option redis) (now : Z) (qr : string)
    (page_token : option string) :
  silent c -> first_page_shortcut w now c qr page_token = None.
Proof.
  intros Hc. unfold first_page_shortcut.
  destruct (silent_reads c now qr 6 0 Hc) as (-> & -> & _).
  by destruct (truthy_str page_token).
Qed.

Lemma blind_ret {A : Type} (a : A) : blind (ret a).
Proof. by intros s1 s2 H. Qed.

Lemma blind_lift {A : Type} (x : exn + A) : blind (lift x).
Proof. by intros s1 s2 H. Qed.

Lemma blind_bind {A B : Type} (m : M A) (k : A -> M B) :
  blind m -> (forall a, blind (k a)) -> blind (bind m k).
Proof.
  intros Hm Hk s1 s2 H. unfold bind. destruct (Hm s1 s2 H) as [Hr Hs].
  destruct (m s1) as [[e|a] s1'], (m s2) as [[e'|a'] s2']; simpl in *; simplify_eq;
    [done|]. by apply Hk.
Qed.

Lemma blind_initialize (s1 s2 : State) :
  cache_blind s1 s2 ->
  cache_blind (_initialize_youtube_client w s1) (_initialize_youtube_client w s2).
Proof.
  intros [Hk Hi Hy Hd Ht Hl Hr]. unfold _initialize_youtube_client. rewrite Hk, Hi.
  destruct (api_keys s2 !! current_key_index s2) as [api_key|]; [|by split].
  destruct (build_ok w api_key); by split.
Qed.

Lemma blind_switch (s1 s2 : State) :
  cache_blind s1 s2 ->
  fst (_switch_api_key w s1) = fst (_switch_api_key w s2) /\
  cache_blind (snd (_switch_api_key w s1)) (snd (_switch_api_key w s2)).
Proof.
  intros H. pose proof H as [Hk Hi Hy Hd Ht Hl Hr]. unfold _switch_api_key. simpl.
  rewrite Hk, Hi.
  destruct (S (current_key_index s2) <? length (api_keys s2))%nat; simpl.
  - split; [done|]. apply blind_initialize. split; simpl; congruence || done.
  - split; [done|]. split; simpl; congruence || done.
Qed.

Lemma blind_check_quota_mirror (now : Z) : blind (check_quota_mirror w now).
Proof.
  intros s1 s2 H. pose proof H as [_ _ _ _ _ Hl Hr]. unfold check_quota_mirror.
  destruct (silent_reads (cache s1) now "" 0 (current_key_index s1) Hl) as (_ & _ & ->).
  destruct (silent_reads (cache s2) now "" 0 (current_key_index s2) Hr) as (_ & _ & ->).
  by split.
Qed.

Lemma blind_call_search (req : search_request) : blind (call_search w req).
Proof.
  intros s1 s2 [Hk Hi Hy Hd Ht Hl Hr]. unfold call_search. rewrite Hy, Ht.
  destruct (youtube s2) eqn:Hy2; simpl; (split; [done|]); split; simpl;
    congruence || done.
Qed.

Lemma blind_call_videos_list (ids : list string) : blind (call_videos_list w ids).
Proof.
  intros s1 s2 [Hk Hi Hy Hd Ht Hl Hr]. unfold call_videos_list. rewrite Hy, Ht.
  destruct (youtube s2) eqn:Hy2; simpl; (split; [done|]); split; simpl;
    congruence || done.
Qed.

Lemma blind_track (clk : clock) (cost : Z) : blind (_track_api_usage w clk cost).
Proof.
  intros s1 s2 [Hk Hi Hy Hd Ht Hl Hr]. unfold _track_api_usage. rewrite Hk, Hi, Hd.
  destruct (api_keys s2 !! current_key_index s2); simpl; (split; [done|]);
    split; simpl; congruence || done.
Qed.

Lemma blind_persist (now : Z) (qr : string) (resp : search_response)
    (vds : list video_data) :
  blind (persist now qr resp vds).
Proof.
  intros s1 s2 [Hk Hi Hy Hd Ht Hl Hr].
  unfold persist, bind, store_batch, db_commit, record_fetch_state, modify, ret.
  rewrite Hd. destruct (store_videos now vds (videos (session (db s2))) 0) as [tbl n].
  simpl. split; [done|]. split; simpl; congruence || done.
Qed.

Lemma blind_fetch_details (clk : clock) (vds : list video_data) :
  blind (fetch_details w clk vds).
Proof.
  destruct vds as [|vd vds]; [apply blind_ret|]. unfold fetch_details.
  apply blind_bind; [apply blind_call_videos_list | intros resp].
  apply blind_bind; [apply blind_track | intros _].
  apply blind_bind; [apply blind_lift | intros m]. apply blind_ret.
Qed.

Lemma blind_fetch_remote (clk : clock) (qr : string) (max_results : Z)
    (page_token : option string) :
  blind (fetch_remote w clk qr max_results page_token).
Proof.
  unfold fetch_remote.
  apply blind_bind; [apply blind_check_quota_mirror | intros _].
  apply blind_bind; [apply blind_call_search | intros resp].
  apply blind_bind; [apply blind_track | intros _].
  apply blind_bind; [apply blind_lift | intros parsed_videos].
  apply blind_bind; [apply blind_fetch_details | intros vds]. apply blind_ret.
Qed.

Lemma blind_fetch_try (clk : clock) (qr : string) (max_results : Z)
    (page_token : option string) :
  blind (fetch_try w clk qr max_results page_token).
Proof.
  intros s1 s2 H. pose proof H as [_ _ _ _ _ Hl Hr]. unfold fetch_try, bind, get.
  rewrite (silent_no_shortcut (cache s1)), (silent_no_shortcut (cache s2)) by done.
  destruct (blind_fetch_remote clk qr max_results page_token s1 s2 H) as [Hres Hst].
  destruct (fetch_remote w clk qr max_results page_token s1) as [[e|x] s1'],
    (fetch_remote w clk qr max_results page_token s2) as [[e'|x'] s2'];
    simpl in *; simplify_eq; [done|].
  by apply blind_persist.
Qed.

Lemma blind_fetch_attempt (clk : clock) (qr : string) (max_results : Z)
    (page_token : option string) (s1 s2 : State) :
  cache_blind s1 s2 ->
  fst (fetch_attempt w clk qr max_results page_token s1)
  = fst (fetch_attempt w clk qr max_results page_token s2) /\
  cache_blind (snd (fetch_attempt w clk qr max_results page_token s1))
              (snd (fetch_attempt w clk qr max_results page_token s2)).
Proof.
  intros H. pose proof H as [_ _ Hy _ _ _ _]. unfold fetch_attempt. rewrite Hy.
  destruct (youtube s2); [|done].
  destruct (blind_fetch_try clk qr max_results page_token s1 s2 H) as [Hres Hst].
  destruct (fetch_try w clk qr max_results page_token s1) as [[e|x] s1'],
    (fetch_try w clk qr max_results page_token s2) as [[e'|x'] s2'];
    simpl in *; simplify_eq; [|done].
  destruct e' as [status text| | | |]; try done.
  destruct ((status =? 403) && str_in "quotaExceeded" text); [|done].
  destruct (blind_switch s1' s2' Hst) as [Hok Hsw].
  destruct (_switch_api_key w s1') as [ok1 t1], (_switch_api_key w s2') as [ok2 t2].
  simpl in *. subst ok2. by destruct ok1.
Qed.

Lemma blind_fetch_videos_rec (clk : clock) (qr : string) (max_results : Z)
    (page_token : option string) (fuel : nat) :
  forall s1 s2, cache_blind s1 s2 ->
    match fetch_videos_rec w fuel clk qr max_results page_token s1,
          fetch_videos_rec w fuel clk qr max_results page_token s2 with
    | Some (r1, s1'), Some (r2, s2') => r1 = r2 /\ cache_blind s1' s2'
    | None, None => True
    | _, _ => False
    end.
Proof.
  induction fuel as [|fuel IH]; intros s1 s2 H; simpl; [done|].
  destruct (blind_fetch_attempt clk qr max_results page_token s1 s2 H) as [Hout Hst].
  destruct (fetch_attempt w clk qr max_results page_token s1) as [out1 s1'],
    (fetch_attempt w clk qr max_results page_token s2) as [out2 s2'].
  simpl in *. subst out2. destruct out1 as [r|e|]; [done | done | by apply IH].
Qed.
End Silent.

(** X13. A cache that is down is the same as no cache. For two services
    that differ at most in their cache, each cache being absent or
    unreachable, a fetch gives the same result or error and leaves the same
    database, key index, client and trace of remote calls and commits. And
    no result of such a fetch is marked cached or skipped: a result always
    carries a stored count. *)
Theorem silent_cache_is_no_cache (w : World) (clk : clock) (qr : string)
    (max_results : Z) (page_token : option string) (s1 s2 : State) :
  cache_blind s1 s2 ->
  fst (fetch_videos w clk qr max_results page_token s1)
  = fst (fetch_videos w clk qr max_results page_token s2) /\
  cache_blind (snd (fetch_videos w clk qr max_results page_token s1))
              (snd (fetch_videos w clk qr max_results page_token s2)) /\
  (forall res, fst (fetch_videos w clk qr max_results page_token s1) = inr res ->
     cached res = false /\ skipped res = false /\ is_Some (stored_count res)).
Proof.
  intros H.
  assert (Hfuel : attempts_left s1 = attempts_left s2)
    by (unfold attempts_left; by destruct H as [-> -> _ _ _ _ _]).
  pose proof (blind_fetch_videos_rec w clk qr max_results page_token (attempts_left s1)
                s1 s2 H) as Hrec.
  rewrite (fetch_videos_unfold w clk qr max_results page_token s1) in Hrec.
  rewrite Hfuel, (fetch_videos_unfold w clk qr max_results page_token s2) in Hrec.
  destruct (fetch_videos w clk qr max_results page_token s2) as [r2 s2'] eqn:Hrun2.
  destruct (fetch_videos w clk qr max_results page_token s1) as [r1 s1'] eqn:Hrun1.
  destruct Hrec as [-> Hst]. split; [done|]. split; [done|].
  simpl. intros res ->. revert Hrun1.
  assert (Hgen : forall s res s',
            silent (cache s) ->
            fetch_videos w clk qr max_results page_token s = (inr res, s') ->
            cached res = false /\ skipped res = false /\ is_Some (stored_count res));
    [|intros Hrun1; eapply Hgen; [|exact Hrun1]; by destruct H].
  clear. intros s res s' Hsilent Hrun.
  pose proof (fetch_videos_unfold w clk qr max_results page_token s) as Hrec.
  rewrite Hrun in Hrec. clear Hrun.
  revert Hrec. generalize (attempts_left s) as fuel. intros fuel. revert s Hsilent.
  induction fuel as [|fuel IH]; intros s Hsilent; simpl; [discriminate|].
  destruct (fetch_attempt w clk qr max_results page_token s) as [[x|e|] s1] eqn:Hat.
  - intros [= -> ->]. unfold fetch_attempt in Hat.
    destruct (youtube s); [|discriminate].
    destruct (fetch_try w clk qr max_results page_token s) as [[e|r] s2] eqn:Htry.
    + repeat (case_match; simplify_eq).
    + injection Hat as <- <-. unfold fetch_try, bind, get in Htry.
      rewrite silent_no_shortcut in Htry by done.
      destruct (fetch_remote w clk qr max_results page_token s) as [[e|[resp vds]] s3];
        [discriminate|].
      simpl in Htry.
      destruct (persist_run (utcnow clk) qr resp vds s3) as (y & t1 & t2 & Heq & _ & _ & _ & Hn & _).
      rewrite Heq in Htry. injection Htry as <- _.
      unfold persist, bind, store_batch, db_commit, record_fetch_state, modify, ret in Heq.
      destruct (store_videos (utcnow clk) vds (videos (session (db s3))) 0) as [tbl n].
      simpl in Heq. injection Heq as <- _. simpl. by repeat split.
  - discriminate.
  - apply IH.
    destruct (fetch_attempt_props w _ _ _ _ _ _ _ Hat) as ([_ Hc _ _] & _).
    by rewrite Hc.
Qed.

Lemma silent_cache_is_no_cache_witness :
  cache_blind (set_cache (Some unreachable_redis) (fresh_service world_two_videos "k1" ""))
              (set_cache None (fresh_service world_two_videos "k1" "")) /\
  fst (fetch_videos world_two_videos noon "cats" 10 None
         (set_cache (Some unreachable_redis) (fresh_service world_two_videos "k1" "")))
  = fst (fetch_videos world_two_videos noon "cats" 10 None
           (set_cache None (fresh_service world_two_videos "k1" ""))).
Proof.
  assert (H : cache_blind
                (set_cache (Some unreachable_redis) (fresh_service world_two_videos "k1" ""))
                (set_cache None (fresh_service world_two_videos "k1" "")))
    by (by split).
  split; [exact H|].
  exact (proj1 (silent_cache_is_no_cache world_two_videos noon "cats" 10 None _ _ H)).
Defined.

(* ===================================================================== *)
(** * Further properties: the worker's use of the remote API              *)
(* ===================================================================== *)

Lemma budget_refl (n : nat) (s : State) : budget n s s.
Proof. split; [reflexivity | lia]. Qed.

Lemma budget_trans (a b : nat) (s1 s2 s3 : State) :
  budget a s1 s2 -> budget b s2 s3 -> budget (a + b) s1 s3.
Proof. intros [Hf1 Hb1] [Hf2 Hb2]. split; [by etransitivity | lia]. Qed.

Lemma frame_capped (s s' : State) : frame s s' -> (capped_index s <= capped_index s')%nat.
Proof. intros [Hk _ Hi _]. unfold capped_index. rewrite Hk. lia. Qed.

Lemma teardown_budget (s : State) : budget 0 s (teardown_appcontext s).
Proof. split; [by split | unfold searches, capped_index; simpl; lia]. Qed.

Section Budget.
Variable w : World.

Lemma fetch_videos_rec_budget (clk : clock) (qr : string) (max_results : Z)
    (page_token : option string) (fuel : nat) :
  forall s r s',
    fetch_videos_rec w fuel clk qr max_results page_token s = Some (r, s') ->
    budget 1 s s'.
Proof.
  induction fuel as [|fuel IH]; intros s r s'; simpl; [discriminate|].
  destruct (fetch_attempt w clk qr max_results page_token s) as [[x|e|] s1] eqn:Hat;
    destruct (fetch_attempt_props w _ _ _ _ _ _ _ Hat) as (Hf & Hw & _ & _ & Hretry).
  - intros [= <- <-]. split; [done|]. apply frame_capped in Hf.
    unfold within in Hw. lia.
  - intros [= <- <-]. split; [done|]. apply frame_capped in Hf.
    unfold within in Hw. lia.
  - intros Hrec. destruct (IH _ _ _ Hrec) as [Hf' Hb']. specialize (Hretry eq_refl).
    split; [by etransitivity|].
    assert (capped_index s < capped_index s1)%nat
      by (destruct Hf as [Hk _ _ _]; unfold capped_index; rewrite Hk; lia).
    unfold within in Hw. lia.
Qed.

Lemma fetch_videos_budget (clk : clock) (qr : string) (max_results : Z)
    (page_token : option string) (s : State) :
  budget 1 s (snd (fetch_videos w clk qr max_results page_token s)).
Proof.
  pose proof (fetch_videos_unfold w clk qr max_results page_token s) as Hrun.
  destruct (fetch_videos w clk qr max_results page_token s) as [r s'].
  by eapply fetch_videos_rec_budget.
Qed.

Lemma loop_budget (queries : list string) (interval : Z) (obs : list (bool * clock)) :
  forall (query_index : nat) (svc : State),
    budget (length obs) svc
      (snd (snd (fetch_loop_from w queries interval obs query_index svc))).
Proof.
  induction obs as [|[running clk] obs IH]; intros query_index svc; simpl;
    [apply budget_refl|].
  destruct running; [|apply budget_refl].
  unfold loop_body.
  destruct (queries !! (query_index mod length queries)%nat) as [qr|];
    [|apply budget_refl].
  pose proof (fetch_videos_budget clk qr 25 None svc) as Hone.
  destruct (fetch_videos w clk qr 25 None svc) as [[e|r] svc1]; simpl in Hone.
  - assert (Hnext : budget (S (length obs)) svc
              (snd (snd (fetch_loop_from w queries interval obs (S query_index)
                           (teardown_appcontext svc1))))).
    { apply (budget_trans 1 (length obs) _ svc1); [done|].
      apply (budget_trans 0 (length obs) _ (teardown_appcontext svc1));
        [apply teardown_budget | apply IH]. }
    destruct (is_quota_error e);
      by destruct (fetch_loop_from w queries interval obs (S query_index)
                     (teardown_appcontext svc1)) as [evs' [c s']].
  - assert (Hnext : budget (S (length obs)) svc
              (snd (snd (fetch_loop_from w queries interval obs (S query_index)
                           (teardown_appcontext svc1))))).
    { apply (budget_trans 1 (length obs) _ svc1); [done|].
      apply (budget_trans 0 (length obs) _ (teardown_appcontext svc1));
        [apply teardown_budget | apply IH]. }
    by destruct (fetch_loop_from w queries interval obs (S query_index)
                   (teardown_appcontext svc1)) as [evs' [c s']].
Qed.
End Budget.

(** X14. The search budget of a call and of the worker. A fetch issues at
    most one search plus one for every key it gives up on the way; so a
    worker that runs [n] iterations issues at most [n] searches plus one per
    configured key over its whole life, whatever the remote answers. On the
    way the key list stays and the key index never goes back. *)
Theorem scheduler_search_budget (w : World) (f : fetcher) (obs : list (bool * clock)) :
  (forall (clk : clock) (qr : string) (max_results : Z) (page_token : option string)
          (s : State),
      let s' := snd (fetch_videos w clk qr max_results page_token s) in
      (searches s' + capped_index s <= searches s + 1 + capped_index s')%nat /\
      (capped_index s' <= length (api_keys s))%nat) /\
  (let svc := youtube_service f in
   let svc' := snd (snd (_fetch_loop w f obs)) in
   (searches svc' <= searches svc + length obs + length (api_keys svc))%nat /\
   api_keys svc' = api_keys svc /\
   (current_key_index svc <= current_key_index svc')%nat).
Proof.
  split.
  - intros clk qr max_results page_token s s'.
    destruct (fetch_videos_budget w clk qr max_results page_token s) as [[Hk _ _ _] Hb].
    fold s' in Hk, Hb. split; [done|]. unfold capped_index. rewrite Hk. lia.
  - intros svc svc'.
    destruct (loop_budget w (search_queries f) (fetch_interval f) obs 0 svc)
      as [[Hk _ Hi _] Hb].
    change (snd (snd (fetch_loop_from w (search_queries f) (fetch_interval f) obs 0 svc)))
      with svc' in Hk, Hi, Hb.
    split; [|by split].
    assert (capped_index svc' <= length (api_keys svc))%nat
      by (unfold capped_index; rewrite Hk; lia).
    lia.
Qed.

(* ===================================================================== *)
(** * Further properties: stopping the worker                             *)
(* ===================================================================== *)

Section StopLoop.
Variable w : World.
Variable queries : list string.
Variable interval : Z.

(** What the worker observes after it saw [running] false has no effect. *)
Lemma loop_stop (obs1 : list (bool * clock)) (clk : clock) (obs2 : list (bool * clock)) :
  all_running obs1 ->
  forall (query_index : nat) (svc : State),
    fetch_loop_from w queries interval (obs1 ++ (false, clk) :: obs2) query_index svc
    = fetch_loop_from w queries interval obs1 query_index svc.
Proof.
  induction obs1 as [|[running clk1] obs1 IH]; intros Hall query_index svc; [done|].
  apply Forall_cons in Hall as [Hrun Hall]. simpl in Hrun. subst running. simpl.
  destruct (loop_body w queries interval clk1 query_index svc) as [evs [[qi1 svc1]|]];
    [|done].
  by rewrite (IH Hall).
Qed.

Lemma loop_ends_asleep (obs : list (bool * clock)) :
  queries <> [] -> all_running obs -> obs <> [] ->
  forall (query_index : nat) (svc : State),
    exists evs n,
      fst (fetch_loop_from w queries interval obs query_index svc) = evs ++ [Sleep n] /\
      (n = interval \/ n = 3600).
Proof.
  intros Hne. induction obs as [|[running clk] obs IH]; intros Hall Hobs query_index svc;
    [done|].
  apply Forall_cons in Hall as [Hrun Hall]. simpl in Hrun. subst running. simpl.
  destruct (current_query_exists queries query_index Hne) as [qr Hq].
  assert (Hbody : exists pre n svc1,
            loop_body w queries interval clk query_index svc
            = (pre ++ [Sleep n], Some (S query_index, svc1)) /\
            (n = interval \/ n = 3600)).
  { unfold loop_body. rewrite Hq.
    destruct (fetch_videos w clk qr 25 None svc) as [[e|r] svc1].
    - destruct (is_quota_error e).
      + exists [Fetch qr 25], 3600, (teardown_appcontext svc1). auto.
      + exists [Fetch qr 25; LogError e], interval, (teardown_appcontext svc1). auto.
    - exists [Fetch qr 25], interval, (teardown_appcontext svc1). auto. }
  destruct Hbody as (pre & n & svc1 & -> & Hn).
  destruct obs as [|o obs].
  - simpl. exists pre, n. by rewrite app_nil_r.
  - destruct (IH Hall ltac:(done) (S query_index) svc1) as (evs' & n' & Hrest & Hn').
    destruct (fetch_loop_from w queries interval (o :: obs) (S query_index) svc1)
      as [evs1 final]. simpl in Hrest. subst evs1.
    exists ((pre ++ [Sleep n]) ++ evs'), n'. by rewrite <- !app_assoc.
Qed.
End StopLoop.

(** X15. When [stop] takes effect. A worker that has seen [running] true
    through some iterations and then sees it false has done exactly what it
    did in those iterations: nothing it could observe later matters. And
    what it did ends with a sleep of the fetch interval or of 3600 seconds:
    the flag is looked at only after the sleep of the iteration in
    progress, so that is how long the [join] of [stop] can wait. *)
Theorem stop_is_seen_after_the_sleep (w : World) (qs : option (list string))
    (interval : Z) (svc : State) (obs1 : list (bool * clock)) (clk : clock)
    (obs2 : list (bool * clock)) :
  all_running obs1 ->
  let f := BackgroundFetcher.init qs interval svc in
  _fetch_loop w f (obs1 ++ (false, clk) :: obs2) = _fetch_loop w f obs1 /\
  (obs1 <> [] ->
   exists evs n,
     fst (_fetch_loop w f obs1) = evs ++ [Sleep n] /\ (n = interval \/ n = 3600)).
Proof.
  intros Hall f. unfold _fetch_loop. split; [by apply loop_stop|].
  intros Hobs. apply loop_ends_asleep; [|done|done].
  apply init_queries_nonempty.
Qed.

Lemma stop_is_seen_after_the_sleep_witness :
  all_running [(true, noon)] /\
  _fetch_loop world_all_keys_out
    (BackgroundFetcher.init None 10 (fresh_service world_all_keys_out "k1" "k2"))
    ([(true, noon)] ++ (false, noon) :: [(true, noon)])
  = _fetch_loop world_all_keys_out
      (BackgroundFetcher.init None 10 (fresh_service world_all_keys_out "k1" "k2"))
      [(true, noon)].
Proof.
  assert (H : all_running [(true, noon)]) by (repeat constructor).
  split; [exact H|].
  exact (proj1 (stop_is_seen_after_the_sleep world_all_keys_out None 10
                  (fresh_service world_all_keys_out "k1" "k2") [(true, noon)] noon
                  [(true, noon)] H)).
Defined.

(* ===================================================================== *)
(** * Further properties: the module-level scheduler                      *)
(* ===================================================================== *)

Lemma run_gops_started (ops : list gop) :
  forall f : fetcher,
    worker_shape f ->
    exists f',
      run_gops ops (Some f) = Some f' /\ worker_shape f' /\
      search_queries f' = search_queries f /\ fetch_interval f' = fetch_interval f /\
      youtube_service f' = youtube_service f.
Proof.
  induction ops as [|o ops IH]; intros f Hshape; [by exists f|].
  assert (Hstep : exists f1,
            apply_gop (Some f) o = Some f1 /\ worker_shape f1 /\
            search_queries f1 = search_queries f /\ fetch_interval f1 = fetch_interval f /\
            youtube_service f1 = youtube_service f).
  { destruct o as [svc| |]; simpl.
    - exists (start f). split; [done|]. split; [by apply start_shape|].
      unfold start. by destruct (running f).
    - exists (stop f). split; [done|]. split; [by apply stop_shape|done].
    - exists (worker_ends f). split; [done|]. split; [by apply worker_ends_shape|done]. }
  destruct Hstep as (f1 & Hf1 & Hs1 & Hq1 & Hi1 & Hy1).
  destruct (IH f1 Hs1) as (f' & Hrun & Hs' & Hq' & Hi' & Hy').
  exists f'. simpl. rewrite Hf1. split; [done|]. split; [done|].
  split; [congruence|]. split; congruence.
Qed.

(** X16. The module-level scheduler. [stop_background_fetching] before any
    start does nothing. The first [start_background_fetching] creates the
    one scheduler, with the built-in list of 66 queries, an interval of 10
    seconds and its own service; whatever sequence of module-level starts
    and stops and of worker deaths follows, it is that scheduler that
    stays, with the same list, interval and service, and at most one worker
    alive. *)
Theorem one_global_scheduler :
  stop_background_fetching None = None /\
  length background_queries = 66%nat /\
  (forall (svc : State) (ops : list gop),
      exists f,
        run_gops ops (start_background_fetching svc None) = Some f /\
        search_queries f = background_queries /\
        fetch_interval f = 10 /\
        youtube_service f = svc /\
        (alive_workers f <= 1)%nat /\
        (forall t, workers f !! t = Some true -> thread f = Some t /\ running f = true)).
Proof.
  split; [done|]. split; [reflexivity|]. intros svc ops. simpl.
  destruct (run_gops_started ops (start (BackgroundFetcher.init (Some background_queries) 10 svc)))
    as (f & Hrun & Hshape & Hq & Hi & Hy).
  { apply start_shape. by apply shape_never_started. }
  exists f. split; [done|]. split; [by rewrite Hq|]. split; [by rewrite Hi|].
  split; [by rewrite Hy|]. by apply shape_alive.
Qed.

(* ===================================================================== *)
(** * Further properties: a service without a client                      *)
(* ===================================================================== *)

Section NoClient.
Variable w : World.
Variable queries : list string.
Variable interval : Z.

Lemma loop_without_client (obs : list (bool * clock)) :
  queries <> [] -> all_running obs ->
  forall (query_index : nat) (svc : State),
    youtube svc = None ->
    let '(evs, (_, svc')) := fetch_loop_from w queries interval obs query_index svc in
    sleeps evs = replicate (length obs) interval /\
    Forall (fun e => e = LogError not_initialized \/ e = Sleep interval \/
                     exists qr, e = Fetch qr 25) evs /\
    trace svc' = trace svc /\ youtube svc' = None /\
    committed (db svc') = committed (db svc).
Proof.
  intros Hne. induction obs as [|[running clk] obs IH]; intros Hall query_index svc Hy.
  - simpl. by repeat split.
  - apply Forall_cons in Hall as [Hrun Hall]. simpl in Hrun. subst running. simpl.
    destruct (current_query_exists queries query_index Hne) as [qr Hq].
    unfold loop_body. rewrite Hq, (fetch_videos_no_client w clk qr 25 None svc Hy).
    replace (is_quota_error (Exception "YouTube API client not initialized"))
      with false by (vm_compute; reflexivity).
    specialize (IH Hall (S query_index) (teardown_appcontext svc) Hy).
    destruct (fetch_loop_from w queries interval obs (S query_index)
                (teardown_appcontext svc)) as [evs' [c svc']].
    destruct IH as (Hs & Hev & Ht & Hy' & Hc).
    split; [by rewrite <- Hs|].
    split; [|by repeat split].
    simpl. repeat (apply Forall_cons; split; [eauto|]). done.
Qed.
End NoClient.

(** X17. A service without a client stays without one. That is the case
    when no key is configured and when the client for the first key cannot
    be built, other keys or not. Every fetch on it fails with "YouTube API
    client not initialized" and changes nothing, so no key is ever switched
    to; and the worker over it logs that error and sleeps the fetch
    interval in every iteration, never the long pause, issuing no remote
    call and committing nothing. *)
Theorem dead_service_stays_dead (w : World) (qs : option (list string)) (interval : Z)
    (svc : State) (obs : list (bool * clock)) :
  (forall (d : DB) (c : option redis),
      youtube (YouTubeService.init w "" "" "" d c) = None) /\
  (forall (key_1 key_2 key_3 : string) (d : DB) (c : option redis),
      key_1 <> "" -> build_ok w key_1 = false ->
      youtube (YouTubeService.init w key_1 key_2 key_3 d c) = None) /\
  (youtube svc = None ->
   (forall (clk : clock) (qr : string) (max_results : Z) (page_token : option string),
       fetch_videos w clk qr max_results page_token svc = (inl not_initialized, svc)) /\
   (all_running obs ->
    let '(evs, (_, svc')) := _fetch_loop w (BackgroundFetcher.init qs interval svc) obs in
    sleeps evs = replicate (length obs) interval /\
    Forall (fun e => e = LogError not_initialized \/ e = Sleep interval \/
                     exists qr, e = Fetch qr 25) evs /\
    trace svc' = trace svc /\ youtube svc' = None /\
    committed (db svc') = committed (db svc))).
Proof.
  split; [done|]. split.
  - intros key_1 key_2 key_3 d c Hne Hbuild.
    unfold YouTubeService.init, _initialize_youtube_client. simpl.
    destruct (String.eqb key_1 "") eqn:Heq; [by apply String.eqb_eq in Heq|].
    simpl. by rewrite Hbuild.
  - intros Hy. split.
    + intros clk qr max_results page_token. by apply fetch_videos_no_client.
    + intros Hall. unfold _fetch_loop.
      apply loop_without_client; [apply init_queries_nonempty | done | done].
Qed.

Lemma dead_service_stays_dead_witness :
  "k1" <> "" /\ build_ok world_no_client "k1" = false /\
  youtube (YouTubeService.init world_no_client "k1" "k2" "" empty_db None) = None /\
  fetch_videos world_no_client noon "cats" 10 None
    (YouTubeService.init world_no_client "k1" "k2" "" empty_db None)
  = (inl not_initialized, YouTubeService.init world_no_client "k1" "k2" "" empty_db None).
Proof.
  assert (H1 : "k1" <> "") by discriminate.
  assert (H2 : build_ok world_no_client "k1" = false) by reflexivity.
  assert (H3 : youtube (YouTubeService.init world_no_client "k1" "k2" "" empty_db None)
               = None)
    by (exact (proj1 (proj2 (dead_service_stays_dead world_no_client None 10
                               (YouTubeService.init world_no_client "k1" "k2" "" empty_db None)
                               []))
                 "k1" "k2" "" empty_db None H1 H2)).
  split; [exact H1|]. split; [exact H2|]. split; [exact H3|].
  exact (proj1 (proj2 (proj2 (dead_service_stays_dead world_no_client None 10
                                (YouTubeService.init world_no_client "k1" "k2" "" empty_db None)
                                [])) H3) noon "cats" 10 None).
Defined.

(* ===================================================================== *)
(** * Further properties: what the ledger is charged                      *)
(* ===================================================================== *)

Section Charges.
Variable w : World.

Lemma charge_ext (clk : clock) (cost : Z) (s s' : State) :
  api_keys s' = api_keys s -> current_key_index s' = current_key_index s ->
  charge w clk cost s' = charge w clk cost s.
Proof. intros Hk Hi. unfold charge. by rewrite Hk, Hi. Qed.

Lemma track_run (clk : clock) (cost : Z) (s : State) :
  exists s',
    _track_api_usage w clk cost s = (inr tt, s') /\
    ledger s' = charge w clk cost s (ledger s) /\
    api_keys s' = api_keys s /\ current_key_index s' = current_key_index s.
Proof.
  unfold _track_api_usage, charge.
  destruct (api_keys s !! current_key_index s) as [api_key|]; eexists; split; done.
Qed.

Lemma check_quota_mirror_db (now : Z) (s : State) (r : exn + unit) (s' : State) :
  check_quota_mirror w now s = (r, s') -> db s' = db s /\ api_keys s' = api_keys s.
Proof.
  unfold check_quota_mirror.
  destruct (quota_exhausted_in_cache _ _ _ _); [|by intros [= <- <-]].
  destruct (switch_fields w s) as (Hk & _ & Hdb & _).
  destruct (_switch_api_key w s) as [[|] s1]; by intros [= <- <-].
Qed.

Lemma call_search_db (req : search_request) (s : State) (r : exn + search_response)
    (s' : State) :
  call_search w req s = (r, s') ->
  db s' = db s /\ api_keys s' = api_keys s /\ current_key_index s' = current_key_index s.
Proof. unfold call_search. destruct (youtube s); by intros [= <- <-]. Qed.

Lemma call_videos_list_db (ids : list string) (s : State) (r : exn + details_response)
    (s' : State) :
  call_videos_list w ids s = (r, s') ->
  db s' = db s /\ api_keys s' = api_keys s /\ current_key_index s' = current_key_index s.
Proof. unfold call_videos_list. destruct (youtube s); by intros [= <- <-]. Qed.

Lemma fetch_details_charges (clk : clock) (pv vds : list video_data) (s s' : State) :
  fetch_details w clk pv s = (inr vds, s') ->
  ledger s' = match vds with
              | [] => ledger s
              | _ :: _ => charge w clk 1 s' (ledger s)
              end /\
  api_keys s' = api_keys s /\ current_key_index s' = current_key_index s.
Proof.
  destruct pv as [|vd pv]; [by intros [= <- <-]|].
  unfold fetch_details, bind.
  destruct (call_videos_list w (map vd_video_id (vd :: pv)) s) as [[e|resp] s1] eqn:Hcall;
    [discriminate|].
  destruct (call_videos_list_db _ _ _ _ Hcall) as (Hdb & Hk & Hi).
  destruct (track_run clk 1 s1) as (s2 & -> & Hl & Hk2 & Hi2).
  unfold lift, ret.
  destruct (build_details_map (default [] (det_items resp)) ∅) as [e|m]; [discriminate|].
  intros [= <- <-]. simpl.
  assert (Hl1 : ledger s1 = ledger s) by (unfold ledger; by rewrite Hdb).
  rewrite Hl, Hl1. split; [|split; congruence].
  by rewrite (charge_ext clk 1 s1 s2 Hk2 Hi2).
Qed.

Lemma fetch_remote_charges (clk : clock) (qr : string) (max_results : Z)
    (page_token : option string) (s : State) (resp : search_response)
    (vds : list video_data) (s' : State) :
  fetch_remote w clk qr max_results page_token s = (inr (resp, vds), s') ->
  ledger s' = match vds with
              | [] => charge w clk 100 s' (ledger s)
              | _ :: _ => charge w clk 1 s' (charge w clk 100 s' (ledger s))
              end.
Proof.
  unfold fetch_remote, bind.
  destruct (check_quota_mirror w (utcnow clk) s) as [[e|[]] s1] eqn:Hcheck; [discriminate|].
  destruct (check_quota_mirror_db _ _ _ _ Hcheck) as (Hdb1 & _).
  destruct (call_search w _ s1) as [[e|resp'] s2] eqn:Hsearch; [discriminate|].
  destruct (call_search_db _ _ _ _ Hsearch) as (Hdb2 & Hk2 & Hi2).
  destruct (track_run clk 100 s2) as (s3 & -> & Hl3 & Hk3 & Hi3).
  unfold lift at 1.
  destruct (parse_items (default [] (resp_items resp'))) as [e|pv]; [discriminate|].
  destruct (fetch_details w clk pv s3) as [[e|vds'] s4] eqn:Hdet; [discriminate|].
  intros [= <- <- <-].
  destruct (fetch_details_charges _ _ _ _ _ Hdet) as (Hl4 & Hk4 & Hi4).
  assert (Hbase : ledger s3 = charge w clk 100 s4 (ledger s)).
  { assert (Hl2 : ledger s2 = ledger s) by (unfold ledger; by rewrite Hdb2, Hdb1).
    rewrite Hl3, Hl2. by rewrite (charge_ext clk 100 s2 s4) by congruence. }
  rewrite Hl4. destruct vds'; by rewrite Hbase.
Qed.
End Charges.

(** X18. What a remote fetch is charged. When the [try] block of an
    activation returns a result that carries a stored count, the session's
    ledger is the one it started with after a charge of 100 units for the
    search and, if any item was returned, one further charge of 1 unit for
    the detail call, whatever the number of items; both go to the key that is
    active at the end, and to no row at all when the key index is past the
    end of the list. *)
Theorem try_block_charges (w : World) (clk : clock) (qr : string) (max_results : Z)
    (page_token : option string) (s s' : State) (res : fetch_result) (n : nat) :
  fetch_try w clk qr max_results page_token s = (inr res, s') ->
  stored_count res = Some n ->
  ledger s' = match items res with
              | [] => charge w clk 100 s' (ledger s)
              | _ :: _ => charge w clk 1 s' (charge w clk 100 s' (ledger s))
              end /\
  api_key_usage (committed (db s')) = ledger s' /\
  ((length (api_keys s') <= current_key_index s')%nat -> ledger s' = ledger s).
Proof.
  unfold fetch_try, bind, get.
  destruct (first_page_shortcut w (utcnow clk) (cache s) qr page_token) as [x|] eqn:Hsh.
  { intros [= <- <-] Hn. unfold first_page_shortcut in Hsh.
    repeat (case_match; simplify_eq); discriminate. }
  destruct (fetch_remote w clk qr max_results page_token s) as [[e|[resp vds]] s1] eqn:Hrem;
    [discriminate|].
  simpl. intros Hper _.
  destruct (persist_run (utcnow clk) qr resp vds s1)
    as (x & t1 & t2 & Heq & _ & _ & Hl & _ & Hitems).
  rewrite Heq in Hper. injection Hper as <- <-.
  pose proof (fetch_remote_charges w _ _ _ _ _ _ _ _ Hrem) as Hcharge.
  assert (Hledger : ledger (emit (EvCommit t2)
                              (set_db {| committed := t2; session := t2 |}
                                 (emit (EvCommit t1) s1))) = ledger s1) by exact Hl.
  rewrite Hitems, Hledger.
  assert (Hfinal : ledger s1
            = match vds with
              | [] => charge w clk 100
                        (emit (EvCommit t2)
                           (set_db {| committed := t2; session := t2 |}
                              (emit (EvCommit t1) s1))) (ledger s)
              | _ :: _ => charge w clk 1
                            (emit (EvCommit t2)
                               (set_db {| committed := t2; session := t2 |}
                                  (emit (EvCommit t1) s1)))
                            (charge w clk 100
                               (emit (EvCommit t2)
                                  (set_db {| committed := t2; session := t2 |}
                                     (emit (EvCommit t1) s1))) (ledger s))
              end) by exact Hcharge.
  split; [exact Hfinal|]. split; [exact Hl|].
  simpl. intros Hpast. rewrite Hcharge. unfold charge.
  rewrite (lookup_ge_None_2 (api_keys s1) (current_key_index s1)) by done.
  by destruct vds.
Qed.

Lemma try_block_charges_witness :
  exists (res : fetch_result) (s' : State),
    fetch_try world_two_videos noon "cats" 10 None (fresh_service world_two_videos "k1" "")
    = (inr res, s') /\
    stored_count res = Some 2%nat /\
    ledger s' = match items res with
                | [] => charge world_two_videos noon 100 s'
                          (ledger (fresh_service world_two_videos "k1" ""))
                | _ :: _ => charge world_two_videos noon 1 s'
                              (charge world_two_videos noon 100 s'
                                 (ledger (fresh_service world_two_videos "k1" "")))
                end.
Proof.
  eexists _, _. split; [vm_compute; reflexivity|]. split; [reflexivity|].
  match goal with
  | |- ledger ?s' = match items ?res with _ => _ end =>
      exact (proj1 (try_block_charges world_two_videos noon "cats" 10 None
                      (fresh_service world_two_videos "k1" "") s' res 2%nat
                      ltac:(vm_compute; reflexivity) eq_refl))
  end.
Defined.

(** ** The ledger table *)

Lemma has_hash_true (h : string) (u : APIKeyUsage) :
  has_hash h u = true <-> api_key_hash u = h.
Proof. unfold has_hash. apply String.eqb_eq. Qed.

Lemma has_hash_false (h : string) (u : APIKeyUsage) :
  has_hash h u = false <-> api_key_hash u <> h.
Proof. unfold has_hash. apply String.eqb_neq. Qed.

Lemma lookup_usage_None (h : string) (tbl : list APIKeyUsage) :
  lookup_usage h tbl = None -> h ∉ map api_key_hash tbl.
Proof.
  unfold lookup_usage. rewrite fmap_None, first_index_None.
  induction tbl as [|u tbl IH]; simpl; [intros _; apply not_elem_of_nil|].
  destruct (has_hash h u) eqn:Hu; [discriminate|].
  intros Hrest. apply not_elem_of_cons. split; [|by apply IH].
  apply has_hash_false in Hu. congruence.
Qed.

(** X19. The ledger table under a charge. A charge for a key touches the
    row of that key's hash only: every other hash finds the row it found
    before, and hashes that were unique stay unique. If the key had no row,
    one is added and it holds exactly the cost, with the reset time set to
    now and the exhausted flag set iff the cost alone reaches 9500; if it had
    one, no row is added and the row is the old one after [touch_usage], with
    its primary key and hash kept. *)
Theorem ledger_rows (w : World) (now cost : Z) (api_key : string)
    (tbl : list APIKeyUsage) :
  let h := sha256_hex w api_key in
  let tbl' := track_in_table w now cost api_key tbl in
  (NoDup (map api_key_hash tbl) -> NoDup (map api_key_hash tbl')) /\
  (forall h', h' <> h -> lookup_usage h' tbl' = lookup_usage h' tbl) /\
  match lookup_usage h tbl with
  | None =>
      length tbl' = S (length tbl) /\
      exists row,
        lookup_usage h tbl' = Some row /\ api_key_hash row = h /\
        quota_used row = cost /\ last_reset row = Some now /\
        is_exhausted row = (9500 <=? cost)
  | Some old =>
      length tbl' = length tbl /\
      lookup_usage h tbl' = Some (touch_usage now cost old) /\
      u_id (touch_usage now cost old) = u_id old /\
      api_key_hash (touch_usage now cost old) = h
  end.
Proof.
  intros h tbl'. unfold tbl', track_in_table, lookup_usage. fold h.
  destruct (first_index (has_hash h) tbl) as [[i old]|] eqn:Hf; simpl.
  - destruct (first_index_Some _ _ _ _ Hf) as (Hi & Hp & _).
    pose proof (touch_usage_hash now cost old) as Hhash.
    apply has_hash_true in Hp.
    split; [|split; [|split; [|split; [|split]]]].
    + intros Hnd. by rewrite (map_insert_same api_key_hash tbl i old _ Hi Hhash).
    + intros h' Hne.
      rewrite (first_index_insert_other _ tbl i old _ Hi); [done| |];
        apply has_hash_false; congruence.
    + by rewrite length_insert.
    + erewrite first_index_insert; [done | exact Hf |].
      apply has_hash_true. congruence.
    + by destruct (needs_reset now old).
    + by destruct (needs_reset now old).
  - split; [|split; [|split]].
    + intros Hnd. rewrite map_app. apply NoDup_app. split; [done|].
      split; [|apply NoDup_singleton].
      intros x Hx [->|[]%elem_of_nil]%elem_of_cons. revert Hx.
      rewrite touch_usage_hash. simpl.
      apply lookup_usage_None. unfold lookup_usage. by rewrite Hf.
    + intros h' Hne. rewrite first_index_app_other; [done|].
      apply has_hash_false. rewrite touch_usage_hash. simpl. congruence.
    + rewrite length_app. simpl. lia.
    + eexists. rewrite first_index_app_new; [|done|].
      * split; [reflexivity|]. simpl. rewrite Z.add_0_l.
        repeat split. by destruct (9500 <=? cost).
      * apply has_hash_true. by rewrite touch_usage_hash.
Qed.

(* ===================================================================== *)
(** * Further properties: from the remote answers to the result           *)
(* ===================================================================== *)

Lemma parse_detail_inr (d : video_detail) (vid : string) (det : string * Z) :
  parse_detail d = inr (vid, det) -> d_id d = Some vid /\ det = detail_pair d.
Proof.
  unfold parse_detail, detail_pair. destruct (d_id d) as [v|]; [|discriminate].
  destruct (d_viewCount d) as [[n|]|]; intros [= <- <-] || discriminate; done.
Qed.

Lemma build_details_map_spec (ds : list video_detail) :
  forall (m0 m : gmap string (string * Z)),
    build_details_map ds m0 = inr m ->
    (forall vid, (forall d, d ∈ ds -> d_id d <> Some vid) -> m !! vid = m0 !! vid) /\
    (forall ds1 d ds2 vid,
        ds = ds1 ++ d :: ds2 -> d_id d = Some vid ->
        (forall d', d' ∈ ds2 -> d_id d' <> Some vid) ->
        m !! vid = Some (detail_pair d)).
Proof.
  induction ds as [|d ds IH]; intros m0 m; simpl.
  - intros [= <-]. split; [done|]. intros [|x ds1] d ds2 vid; discriminate.
  - destruct (parse_detail d) as [e|[v det]] eqn:Hd; [discriminate|].
    apply parse_detail_inr in Hd as [Hv ->]. intros Hrest.
    destruct (IH _ _ Hrest) as [Hnone Hlast]. split.
    + intros vid Hno. rewrite Hnone by (intros d' Hin; apply Hno; by right).
      apply lookup_insert_ne. intros ->. by apply (Hno d); [left|].
    + intros [|x ds1] d0 ds2 vid; simpl; intros [= <- ->] Hid Hafter.
      * rewrite (Hnone vid Hafter). rewrite Hv in Hid. injection Hid as ->.
        apply lookup_insert_eq.
      * by apply (Hlast ds1 d0 ds2).
Qed.

(** X20. How details reach an item. If the detail response decodes, an
    item changes in nothing but its details; an item whose id no detail
    carries is left as it is; and an item whose id some detail carries gets
    the duration (or the empty string) and the view count (or 0) of the
    last detail with its id. If one detail has no id or a view count that
    is not a number, the whole map fails to build. *)
Theorem details_attach_by_id (ds : list video_detail) (vd : video_data) :
  (forall m : gmap string (string * Z),
      build_details_map ds ∅ = inr m ->
      set_details (vd_details (merge_details m vd)) vd = merge_details m vd /\
      ((forall d, d ∈ ds -> d_id d <> Some (vd_video_id vd)) -> merge_details m vd = vd) /\
      (forall ds1 d ds2,
          ds = ds1 ++ d :: ds2 -> d_id d = Some (vd_video_id vd) ->
          (forall d', d' ∈ ds2 -> d_id d' <> Some (vd_video_id vd)) ->
          vd_details (merge_details m vd) = Some (detail_pair d))) /\
  (forall d, d ∈ ds -> (exists e, parse_detail d = inl e) ->
     exists e, build_details_map ds ∅ = inl e).
Proof.
  split.
  - intros m Hm. destruct (build_details_map_spec ds ∅ m Hm) as [Hnone Hlast].
    unfold merge_details. split; [|split].
    + destruct (m !! vd_video_id vd); [done | by destruct vd].
    + intros Hno. by rewrite (Hnone _ Hno), lookup_empty.
    + intros ds1 d ds2 Hsplit Hid Hafter. by rewrite (Hlast ds1 d ds2 _ Hsplit Hid Hafter).
  - generalize (∅ : gmap string (string * Z)) as m0.
    induction ds as [|d0 ds IH]; intros m0 d Hin [e He]; [by apply elem_of_nil in Hin|].
    simpl. apply elem_of_cons in Hin as [->|Hin].
    + rewrite He. by exists e.
    + destruct (parse_detail d0) as [e0|[v det]]; [by exists e0|].
      apply (IH _ d Hin). by exists e.
Qed.

Lemma details_attach_by_id_witness :
  build_details_map [sample_detail "v1"] ∅ = inr {[ "v1" := ("PT5M", 42) ]} /\
  d_id (sample_detail "v1") = Some (vd_video_id item_without_details) /\
  vd_details (merge_details {[ "v1" := ("PT5M", 42) ]} item_without_details)
  = Some (detail_pair (sample_detail "v1")).
Proof.
  assert (H1 : build_details_map [sample_detail "v1"] ∅ = inr {[ "v1" := ("PT5M", 42) ]})
    by reflexivity.
  assert (H2 : d_id (sample_detail "v1") = Some (vd_video_id item_without_details))
    by reflexivity.
  split; [exact H1|]. split; [exact H2|].
  refine (proj2 (proj2 (proj1 (details_attach_by_id [sample_detail "v1"] item_without_details)
                          _ H1)) [] (sample_detail "v1") [] eq_refl H2 _).
  intros d' Hin. by apply elem_of_nil in Hin.
Defined.

Lemma parse_search_result_no_details (sr : search_result) (vd : video_data) :
  parse_search_result sr = inr vd -> vd_details vd = None.
Proof.
  unfold parse_search_result. intros H.
  repeat (case_match; simplify_eq). done.
Qed.

Lemma parse_items_Forall2 (srs : list search_result) :
  forall vds, parse_items srs = inr vds ->
    Forall2 (fun sr vd => parse_search_result sr = inr vd) srs vds.
Proof.
  induction srs as [|sr srs IH]; simpl; intros vds.
  - intros [= <-]. constructor.
  - destruct (parse_search_result sr) as [e|vd] eqn:Hsr; [discriminate|].
    destruct (parse_items srs) as [e|rest]; [discriminate|].
    intros [= <-]. constructor; [done | by apply IH].
Qed.

Lemma merge_details_undo (m : gmap string (string * Z)) (vd : video_data) :
  vd_details vd = None -> set_details None (merge_details m vd) = vd.
Proof.
  intros Hd. unfold merge_details.
  destruct (m !! vd_video_id vd); destruct vd; simpl in *; by subst.
Qed.

Section Report.
Variable w : World.

Lemma fetch_details_items (clk : clock) (pv vds : list video_data) (s s' : State) :
  fetch_details w clk pv s = (inr vds, s') ->
  exists m, vds = map (merge_details m) pv.
Proof.
  destruct pv as [|vd pv]; [intros [= <- <-]; by exists ∅|].
  unfold fetch_details, bind, lift, ret.
  destruct (call_videos_list w _ s) as [[e|resp] s1]; [discriminate|].
  destruct (_track_api_usage w clk 1 s1) as [[e|[]] s2]; [discriminate|].
  destruct (build_details_map _ ∅) as [e|m]; [discriminate|].
  intros [= <- <-]. by exists m.
Qed.

Lemma fetch_remote_items (clk : clock) (qr : string) (max_results : Z)
    (page_token : option string) (s : State) (resp : search_response)
    (vds : list video_data) (s' : State) :
  fetch_remote w clk qr max_results page_token s = (inr (resp, vds), s') ->
  (exists (calls : nat) (key : string),
      search_list w calls key (request_of clk qr max_results page_token) = inr resp) /\
  Forall2 (fun sr vd => parse_search_result sr = inr (set_details None vd))
    (default [] (resp_items resp)) vds.
Proof.
  unfold fetch_remote, bind.
  destruct (check_quota_mirror w (utcnow clk) s) as [[e|[]] s1]; [discriminate|].
  destruct (call_search w _ s1) as [[e|resp'] s2] eqn:Hsearch; [discriminate|].
  destruct (_track_api_usage w clk 100 s2) as [[e|[]] s3]; [discriminate|].
  unfold lift at 1.
  destruct (parse_items (default [] (resp_items resp'))) as [e|pv] eqn:Hparse;
    [discriminate|].
  destruct (fetch_details w clk pv s3) as [[e|vds'] s4] eqn:Hdet; [discriminate|].
  intros [= <- <- <-]. split.
  - unfold call_search in Hsearch. destruct (youtube s1) as [key|]; [|discriminate].
    injection Hsearch as Hresp _. by eexists _, key.
  - destruct (fetch_details_items _ _ _ _ _ Hdet) as [m ->].
    apply Forall2_fmap_r. apply parse_items_Forall2 in Hparse.
    eapply Forall2_impl; [exact Hparse|]. intros sr vd Hsr. simpl.
    by rewrite (merge_details_undo m vd (parse_search_result_no_details sr vd Hsr)).
Qed.
End Report.

(** X21. The result reports what the remote API said. When the [try]
    block returns a result that carries a stored count, there was a search
    response to the request built from the arguments such that the returned
    items are its items, one for one and in order, each being the parsed
    search item with at most its details added; the returned page token is
    the response's and the returned total is the response's total, or 0 when
    it gives none. The result is not marked cached or skipped. *)
Theorem result_reports_the_response (w : World) (clk : clock) (qr : string)
    (max_results : Z) (page_token : option string) (s s' : State)
    (res : fetch_result) (n : nat) :
  fetch_try w clk qr max_results page_token s = (inr res, s') ->
  stored_count res = Some n ->
  exists (calls : nat) (key : string) (resp : search_response),
    search_list w calls key (request_of clk qr max_results page_token) = inr resp /\
    Forall2 (fun sr vd => parse_search_result sr = inr (set_details None vd))
      (default [] (resp_items resp)) (items res) /\
    nextPageToken res = resp_nextPageToken resp /\
    totalResults res = Some (default 0 (resp_totalResults resp)) /\
    cached res = false /\ skipped res = false.
Proof.
  unfold fetch_try, bind, get.
  destruct (first_page_shortcut w (utcnow clk) (cache s) qr page_token) as [x|] eqn:Hsh.
  { intros [= <- <-] Hn. unfold first_page_shortcut in Hsh.
    repeat (case_match; simplify_eq); discriminate. }
  destruct (fetch_remote w clk qr max_results page_token s) as [[e|[resp vds]] s1] eqn:Hrem;
    [discriminate|].
  simpl. intros Hper _.
  destruct (fetch_remote_items w _ _ _ _ _ _ _ _ Hrem) as [(calls & key & Hresp) Hitems].
  exists calls, key, resp. split; [done|].
  unfold persist, bind, store_batch, db_commit, record_fetch_state, modify, ret in Hper.
  destruct (store_videos (utcnow clk) vds (videos (session (db s1))) 0) as [tbl k].
  simpl in Hper. injection Hper as <- _. simpl. by repeat split.
Qed.

Lemma result_reports_the_response_witness :
  exists (res : fetch_result) (s' : State),
    fetch_try world_two_videos noon "cats" 10 None (fresh_service world_two_videos "k1" "")
    = (inr res, s') /\
    stored_count res = Some 2%nat /\
    exists (calls : nat) (key : string) (resp : search_response),
      search_list world_two_videos calls key (request_of noon "cats" 10 None) = inr resp /\
      nextPageToken res = resp_nextPageToken resp.
Proof.
  eexists _, _. split; [vm_compute; reflexivity|]. split; [reflexivity|].
  match goal with
  | |- exists calls key resp, _ /\ nextPageToken ?res = _ =>
      destruct (result_reports_the_response world_two_videos noon "cats" 10 None
                  (fresh_service world_two_videos "k1" "") _ res 2%nat
                  ltac:(vm_compute; reflexivity) eq_refl)
        as (calls & key & resp & H1 & _ & H2 & _)
  end.
  by exists calls, key, resp.
Defined.

(* ===================================================================== *)
(** * Further properties: the manual fetch endpoint                       *)
(* ===================================================================== *)




Lemma ledger_rows_witness :
  NoDup (map api_key_hash [fresh_usage]) /\
  NoDup (map api_key_hash (track_in_table world_two_videos 0 100 "k2" [fresh_usage])).
Proof.
  assert (H : NoDup (map api_key_hash [fresh_usage])) by (apply NoDup_singleton).
  split; [exact H|].
  exact (proj1 (ledger_rows world_two_videos 0 100 "k2" [fresh_usage]) H).
Defined.
